(** * Physics core of ProjectileMotionAccelerate, embedded over the reals.

    Numbers of the TypeScript source are modelled as [R]; THREE.Vector3
    and THREE.Quaternion as records; mutation of the projectile state as
    explicit state passing (each method returns the updated state). *)

From Stdlib Require Import Reals Psatz List Bool.
Import ListNotations.

Open Scope R_scope.

(** ** Decisions on reals, as used by the comparisons of the source *)

Definition Rltb (a b : R) : bool := if Rlt_dec a b then true else false.
Definition Rleb (a b : R) : bool := if Rle_dec a b then true else false.
Definition Reqb (a b : R) : bool := if Req_EM_T a b then true else false.

(** [Math.floor] *)
Definition js_floor (x : R) : R := IZR (Int_part x).

(** [a % b] of JavaScript for [b > 0]: the sign follows the dividend. *)
Definition js_mod (a b : R) : R :=
  if Rleb 0 a then a - b * js_floor (a / b)
  else a + b * js_floor (- a / b).

(** ** THREE.Vector3 *)

Record Vec3 := mkVec3 { vx : R; vy : R; vz : R }.

Definition vzero : Vec3 := mkVec3 0 0 0.
Definition vadd (a b : Vec3) : Vec3 := mkVec3 (vx a + vx b) (vy a + vy b) (vz a + vz b).
Definition vsub (a b : Vec3) : Vec3 := mkVec3 (vx a - vx b) (vy a - vy b) (vz a - vz b).
Definition vscale (a : Vec3) (s : R) : Vec3 := mkVec3 (vx a * s) (vy a * s) (vz a * s).
(** [a.addScaledVector(b, s)] *)
Definition vaddScaled (a b : Vec3) (s : R) : Vec3 :=
  mkVec3 (vx a + vx b * s) (vy a + vy b * s) (vz a + vz b * s).
Definition vdot (a b : Vec3) : R := vx a * vx b + vy a * vy b + vz a * vz b.
Definition vlengthSq (a : Vec3) : R := vx a * vx a + vy a * vy a + vz a * vz a.
Definition vlength (a : Vec3) : R := sqrt (vlengthSq a).
(** [crossVectors(a, b)] *)
Definition vcross (a b : Vec3) : Vec3 :=
  mkVec3 (vy a * vz b - vz a * vy b)
         (vz a * vx b - vx a * vz b)
         (vx a * vy b - vy a * vx b).
(** [normalize()] is [divideScalar(this.length() || 1)]. *)
Definition vnormalize (a : Vec3) : Vec3 :=
  let l := vlength a in
  let d := if Reqb l 0 then 1 else l in
  vscale a (1 / d).
Definition vset_y (a : Vec3) (y : R) : Vec3 := mkVec3 (vx a) y (vz a).
(** Componentwise division by the moment of inertia, as written out in the
    source ([t.x / I.x, t.y / I.y, t.z / I.z]). *)
Definition vdivc (a i : Vec3) : Vec3 :=
  mkVec3 (vx a / vx i) (vy a / vy i) (vz a / vz i).

(** ** THREE.Quaternion *)

Record Quat := mkQuat { qx : R; qy : R; qz : R; qw : R }.

Definition qidentity : Quat := mkQuat 0 0 0 1.
Definition qlengthSq (q : Quat) : R :=
  qx q * qx q + qy q * qy q + qz q * qz q + qw q * qw q.
Definition qlength (q : Quat) : R := sqrt (qlengthSq q).

(** [a.multiply(b)] is [multiplyQuaternions(a, b)]. *)
Definition qmul (a b : Quat) : Quat :=
  mkQuat (qx a * qw b + qw a * qx b + qy a * qz b - qz a * qy b)
         (qy a * qw b + qw a * qy b + qz a * qx b - qx a * qz b)
         (qz a * qw b + qw a * qz b + qx a * qy b - qy a * qx b)
         (qw a * qw b - qx a * qx b - qy a * qy b - qz a * qz b).

(** [normalize()]: the zero quaternion becomes the identity, otherwise
    every component is multiplied by [1 / length]. *)
Definition qnormalize (q : Quat) : Quat :=
  let l := qlength q in
  if Reqb l 0 then qidentity
  else let s := 1 / l in mkQuat (qx q * s) (qy q * s) (qz q * s) (qw q * s).

(** ** physics/types.ts *)

Record ProjectileState := mkState {
  position : Vec3;
  velocity : Vec3;
  spin : Vec3;
  rotation : Quat;
  mass : R;
  area : R;
  dragCoefficient : R;
  spinDamping : R;
  restitution : R;
  momentOfInertia : Vec3;
  radius : R
}.

Record EnvironmentState := mkEnv {
  gravity : R;
  windVector : Vec3;
  airDensity : R
}.

Definition set_position (s : ProjectileState) (p : Vec3) : ProjectileState :=
  mkState p (velocity s) (spin s) (rotation s) (mass s) (area s)
    (dragCoefficient s) (spinDamping s) (restitution s) (momentOfInertia s) (radius s).
Definition set_velocity (s : ProjectileState) (v : Vec3) : ProjectileState :=
  mkState (position s) v (spin s) (rotation s) (mass s) (area s)
    (dragCoefficient s) (spinDamping s) (restitution s) (momentOfInertia s) (radius s).
Definition set_spin (s : ProjectileState) (w : Vec3) : ProjectileState :=
  mkState (position s) (velocity s) w (rotation s) (mass s) (area s)
    (dragCoefficient s) (spinDamping s) (restitution s) (momentOfInertia s) (radius s).
Definition set_rotation (s : ProjectileState) (q : Quat) : ProjectileState :=
  mkState (position s) (velocity s) (spin s) q (mass s) (area s)
    (dragCoefficient s) (spinDamping s) (restitution s) (momentOfInertia s) (radius s).

(** ** physics/constants.ts *)

Definition SEA_LEVEL_TEMP : R := 293.15.
Definition SCALE_HEIGHT : R := 8500.
Definition TURBULENCE_INTENSITY : R := 0.15.
Definition TURBULENCE_SCALE : R := 10.0.

Definition airDensityAtAltitude (altitude seaLevelDensity : R) : R :=
  seaLevelDensity * exp (- altitude / SCALE_HEIGHT).

Definition airViscosity (temperature : R) : R :=
  let T0 := 291.15 in
  let mu0 := 1.827e-5 in
  let C := 120 in
  mu0 * Rpower (temperature / T0) 1.5 * (T0 + C) / (temperature + C).

Definition reynoldsNumber (velocity diameter density viscosity : R) : R :=
  (density * velocity * diameter) / viscosity.

(** [dragCoefficient] of constants.ts, imported by forces.ts as
    [getDragCoefficient] (the plain name is the state field here). *)
Definition getDragCoefficient (re baseCd : R) : R :=
  if Rltb re 1 then 24 / re
  else if Rltb re 1000 then 24 / re * (1 + 0.15 * Rpower re 0.687)
  else if Rltb re 300000 then baseCd
  else if Rltb re 500000 then
    let t := (re - 300000) / 200000 in baseCd * (1 - 0.6 * t)
  else baseCd * 0.4.

Definition magnusLiftCoefficient (spinRatio : R) : R :=
  if Rltb spinRatio 0.1 then 0.5 * spinRatio / 0.1
  else if Rltb spinRatio 0.5 then 0.5
  else 0.5 * exp (- (spinRatio - 0.5) / 0.3).

(** ** physics/forces.ts *)

Definition gravityForce (state : ProjectileState) (environment : EnvironmentState) : Vec3 :=
  mkVec3 0 (- mass state * gravity environment) 0.

Definition dragForce (state : ProjectileState) (environment : EnvironmentState) : Vec3 :=
  let relativeVelocity := vsub (velocity state) (windVector environment) in
  let speed := vlength relativeVelocity in
  if Reqb speed 0 then vzero
  else
    let altitude := Rmax 0 (vy (position state)) in
    let rho := airDensityAtAltitude altitude (airDensity environment) in
    let diameter := radius state * 2 in
    let mu := airViscosity SEA_LEVEL_TEMP in
    let re := reynoldsNumber speed diameter rho mu in
    let cd := getDragCoefficient re (dragCoefficient state) in
    let k := 0.5 * cd * rho * area state / mass state in
    vscale relativeVelocity (- k * speed).

Definition magnusForce (state : ProjectileState) (environment : EnvironmentState) : Vec3 :=
  let relativeVelocity := vsub (velocity state) (windVector environment) in
  if orb (Reqb (vlengthSq relativeVelocity) 0) (Reqb (vlengthSq (spin state)) 0) then vzero
  else
    let speed := vlength relativeVelocity in
    let spinSpeed := vlength (spin state) in
    let altitude := Rmax 0 (vy (position state)) in
    let rho := airDensityAtAltitude altitude (airDensity environment) in
    let spinRatio := (radius state * spinSpeed) / (speed + 0.01) in
    let cl := magnusLiftCoefficient spinRatio in
    let clRho := 0.5 * rho * area state * cl * 3.0 in
    let lift := vcross (spin state) relativeVelocity in
    vscale lift (clRho / mass state).

Definition integrateSpin (state : ProjectileState) (dt : R) : ProjectileState :=
  if Reqb (vlengthSq (spin state)) 0 then state
  else
    let spinSpeed := vlength (spin state) in
    let quadraticDamping := spinDamping state * spinSpeed * dt in
    let dampingFactor := 1 / (1 + quadraticDamping) in
    set_spin state (vscale (spin state) dampingFactor).

Definition integrateRotation (state : ProjectileState) (dt : R) : ProjectileState :=
  if Reqb (vlengthSq (spin state)) 0 then state
  else
    let I := momentOfInertia state in
    let inertiaDiff := Rabs (vx I - vy I) + Rabs (vy I - vz I) + Rabs (vz I - vx I) in
    let w0 := spin state in
    let w :=
      if Rltb 0.001 inertiaDiff then
        let precessionRate := 0.1 * inertiaDiff in
        let perpendicular :=
          vnormalize (mkVec3 (vy w0 - vz w0) (vz w0 - vx w0) (vx w0 - vy w0)) in
        vaddScaled w0 perpendicular (precessionRate * dt)
      else w0 in
    let halfDt := dt * 0.5 in
    let omega := mkQuat (vx w * halfDt) (vy w * halfDt) (vz w * halfDt) 0 in
    let q := rotation state in
    let dq := qmul omega q in
    let q' := mkQuat (qx q + qx dq) (qy q + qy dq) (qz q + qz dq) (qw q + qw dq) in
    set_rotation (set_spin state w) (qnormalize q').

Definition aerodynamicTorque (state : ProjectileState) (environment : EnvironmentState) : Vec3 :=
  let relativeVelocity := vsub (velocity state) (windVector environment) in
  let speed := vlength relativeVelocity in
  if orb (Reqb speed 0) (Reqb (vlengthSq (spin state)) 0) then vzero
  else
    let altitude := Rmax 0 (vy (position state)) in
    let rho := airDensityAtAltitude altitude (airDensity environment) in
    let spinSpeed := vlength (spin state) in
    let torqueCoeff := 0.15 * rho * radius state ^ 3 * spinSpeed in
    let dragTorque := vscale (spin state) (- torqueCoeff) in
    let vortexAxis := vnormalize (vcross relativeVelocity (spin state)) in
    let vortexMagnitude := 0.05 * rho * radius state ^ 3 * speed in
    let vortexTorque := vscale vortexAxis vortexMagnitude in
    vadd dragTorque vortexTorque.

(** ** physics/integrators.ts *)

(** [cloneState] copies eight properties only: [rotation],
    [momentOfInertia] and [radius] are absent from the clone, so the
    acceleration function reads [undefined] there.  In this real-valued
    model what such a read yields is a parameter of the integrator
    ([UndefinedReads]), used only by properties that do not depend on
    it.  Module [JS] below models the numbers as JavaScript does: there
    a read of [undefined] is [NaN] in arithmetic. *)
Record UndefinedReads := mkUndefinedReads {
  undef_quat : Quat;
  undef_vec : Vec3;
  undef_num : R
}.

Definition AccelerationFn := ProjectileState -> EnvironmentState -> Vec3.

Definition cloneState (u : UndefinedReads) (state : ProjectileState) : ProjectileState :=
  mkState (position state) (velocity state) (spin state) (undef_quat u)
    (mass state) (area state) (dragCoefficient state) (spinDamping state)
    (restitution state) (undef_vec u) (undef_num u).

(** The acceleration function returns a fresh vector on every call (as
    [totalAcceleration] does), so the in-place [addScaledVector] on [k1]
    in the aggregation step touches no other value. *)
Definition rk4Integrate (u : UndefinedReads) (state : ProjectileState)
    (environment : EnvironmentState) (dt : R) (accelerationFn : AccelerationFn)
    : ProjectileState :=
  let k1 := accelerationFn state environment in
  let vel1 := velocity state in
  let tempState := cloneState u state in
  (* k2 *)
  let tempState := set_position tempState (vaddScaled (position tempState) vel1 (dt * 0.5)) in
  let tempState := set_velocity tempState (vaddScaled (velocity tempState) k1 (dt * 0.5)) in
  let k2 := accelerationFn tempState environment in
  let vel2 := velocity tempState in
  (* k3 *)
  let tempState := set_position tempState (vaddScaled (position state) vel2 (dt * 0.5)) in
  let tempState := set_velocity tempState (vaddScaled (velocity state) k2 (dt * 0.5)) in
  let k3 := accelerationFn tempState environment in
  let vel3 := velocity tempState in
  (* k4 *)
  let tempState := set_position tempState (vaddScaled (position state) vel3 dt) in
  let tempState := set_velocity tempState (vaddScaled (velocity state) k3 dt) in
  let k4 := accelerationFn tempState environment in
  (* Aggregate results *)
  let velocityDelta := vscale (vadd (vaddScaled (vaddScaled k1 k2 2) k3 2) k4) (dt / 6) in
  let state := set_velocity state (vadd (velocity state) velocityDelta) in
  let positionDelta :=
    vscale (vadd (vaddScaled (vaddScaled vel1 vel2 2) vel3 2) (velocity tempState)) (dt / 6) in
  set_position state (vadd (position state) positionDelta).

(** ** physics/simulation.ts: acceleration function *)

Definition totalAcceleration (state : ProjectileState) (environment : EnvironmentState) : Vec3 :=
  let accel := vzero in
  let accel := vadd accel (vscale (gravityForce state environment) (1 / mass state)) in
  let accel := vadd accel (dragForce state environment) in
  vadd accel (magnusForce state environment).

(** ** Engine data (simulation.ts, types.ts) *)

Definition MAX_TRAIL_POINTS : R := 360.
Definition REST_THRESHOLD : R := 0.15.
Definition TELEMETRY_INTERVAL : R := 0.08.
Definition ROLLING_FRICTION_COEFF : R := 0.02.
Definition GROUND_CONTACT_TOLERANCE : R := 0.005.

Record ForceProfile := mkProfile {
  duration : R;
  impulse : R -> Vec3;
  spinAxis : Vec3;
  spinRate : R
}.

(** [manualConfig] is an optional object; only its presence is read by
    [integrateProjectile]. *)
Record LaunchParameters := mkParams {
  profile : ForceProfile;
  manualConfig : bool
}.

(** A telemetry sample; [planar] holds [positionX]/[positionZ], which
    only the bump-mapped engine records. *)
Record TelemetrySample := mkSample {
  time : R;
  altitude : R;
  range : R;
  speed : R;
  velocityX : R;
  velocityY : R;
  velocityZ : R;
  planar : option (R * R)
}.

Record Summary := mkSummary {
  maxHeight : R;
  totalRange : R;
  flightTime : R;
  impactSpeed : R
}.

(** The physics part of a [ProjectileInstance]; the mesh, trail and
    colour fields only feed the renderer and are left out. *)
Record ProjectileInstance := mkInstance {
  pstate : ProjectileState;
  penvironment : EnvironmentState;
  params : LaunchParameters;
  elapsed : R;
  telemetryTimer : R;
  samples : list TelemetrySample;
  summary : option Summary;
  isGrounded : bool;
  active : bool
}.

Definition with_state (p : ProjectileInstance) (s : ProjectileState) : ProjectileInstance :=
  mkInstance s (penvironment p) (params p) (elapsed p) (telemetryTimer p)
    (samples p) (summary p) (isGrounded p) (active p).
Definition with_environment (p : ProjectileInstance) (e : EnvironmentState) : ProjectileInstance :=
  mkInstance (pstate p) e (params p) (elapsed p) (telemetryTimer p)
    (samples p) (summary p) (isGrounded p) (active p).
Definition with_clocks (p : ProjectileInstance) (el tt : R) : ProjectileInstance :=
  mkInstance (pstate p) (penvironment p) (params p) el tt
    (samples p) (summary p) (isGrounded p) (active p).
Definition with_grounded (p : ProjectileInstance) (g : bool) : ProjectileInstance :=
  mkInstance (pstate p) (penvironment p) (params p) (elapsed p) (telemetryTimer p)
    (samples p) (summary p) g (active p).
Definition with_retired (p : ProjectileInstance) (sm : Summary) : ProjectileInstance :=
  mkInstance (pstate p) (penvironment p) (params p) (elapsed p) (telemetryTimer p)
    (samples p) (Some sm) (isGrounded p) false.
Definition with_sample (p : ProjectileInstance) (smp : TelemetrySample) : ProjectileInstance :=
  mkInstance (pstate p) (penvironment p) (params p) (elapsed p) 0
    (samples p ++ [smp]) (summary p) (isGrounded p) (active p).

Definition buildSummary (p : ProjectileInstance) : Summary :=
  let apex := fold_left (fun mx smp => Rmax mx (altitude smp)) (samples p) 0 in
  let rng := fold_left (fun mx smp => Rmax mx (range smp)) (samples p) 0 in
  let ft := match rev (samples p) with
            | smp :: _ => time smp
            | [] => elapsed p
            end in
  mkSummary apex rng ft (vlength (velocity (pstate p))).

(** Launch-profile step shared by both engines: the time-varying impulse
    and spin are applied while [elapsed <= duration]. *)
Definition applyProfile (p : ProjectileInstance) (dt : R) : ProjectileState :=
  let s := pstate p in
  let pr := profile (params p) in
  let force := impulse pr (elapsed p) in
  let s :=
    if Rltb 0 (vlengthSq force) then
      let acceleration := vscale force (1 / mass s) in
      set_velocity s (vaddScaled (velocity s) acceleration dt)
    else s in
  set_spin s (vaddScaled (spin s) (spinAxis pr) (spinRate pr * dt)).

(** [dω = τ / I · dt] after the RK4 step. *)
Definition applyAeroTorque (s : ProjectileState) (e : EnvironmentState) (dt : R) : ProjectileState :=
  let torque := aerodynamicTorque s e in
  let angularAccel := vdivc torque (momentOfInertia s) in
  set_spin s (vaddScaled (spin s) angularAccel dt).

(** "Prevent sinking below ground". *)
Definition clampToGround (s : ProjectileState) : ProjectileState :=
  if Rltb (vy (position s)) (radius s)
  then set_position s (vset_y (position s) (radius s)) else s.

(** ** simulation.ts: flat ground, static restitution *)

Module SimulationFlat.

Definition normal : Vec3 := mkVec3 0 1 0.

Definition applyGroundContactForces (p : ProjectileInstance) (dt : R) : ProjectileState :=
  let state := pstate p in
  (* Keep object exactly on ground *)
  let state := set_position state (vset_y (position state) (radius state)) in
  (* Cancel any downward velocity *)
  let state :=
    if Rltb (vy (velocity state)) 0
    then set_velocity state (vset_y (velocity state) 0) else state in
  let contactOffset := vscale normal (- radius state) in
  let rotationalVel := vcross (spin state) contactOffset in
  let contactVel := vadd (velocity state) rotationalVel in
  let horizontalVel := mkVec3 (vx contactVel) 0 (vz contactVel) in
  let speed := vlength horizontalVel in
  let state :=
    if Rltb 0.01 speed then
      let normalForce := mass state * gravity (penvironment p) in
      let rollingFriction :=
        vscale (vnormalize horizontalVel) (- ROLLING_FRICTION_COEFF * normalForce) in
      (* multiplyScalar works in place: from here on [rollingFriction]
         holds the acceleration *)
      let frictionAccel := vscale rollingFriction (1 / mass state) in
      let state := set_velocity state (vaddScaled (velocity state) frictionAccel dt) in
      let rollingTorque := vcross contactOffset frictionAccel in
      let angularDecel := vdivc rollingTorque (momentOfInertia state) in
      set_spin state (vaddScaled (spin state) angularDecel dt)
    else state in
  let dampingFactor := exp (-2.0 * dt) in
  if Rltb speed 0.5 then
    let v := velocity state in
    let state := set_velocity state (mkVec3 (vx v * dampingFactor) (vy v) (vz v * dampingFactor)) in
    set_spin state (vscale (spin state) dampingFactor)
  else state.

Definition handleGroundCollision (state : ProjectileState) : ProjectileState :=
  let contactOffset := vscale normal (- radius state) in
  let rotationalVel := vcross (spin state) contactOffset in
  let contactVel := vadd (velocity state) rotationalVel in
  let vn := vdot contactVel normal in
  if Rleb (-0.01) vn then set_position state (vset_y (position state) (radius state))
  else
    let normalVel := vscale normal vn in
    let tangentialVel := vsub contactVel normalVel in
    let tangentialSpeed := vlength tangentialVel in
    let I := momentOfInertia state in
    let rCrossN := vcross contactOffset normal in
    let angularEffect := vdivc rCrossN I in
    let rCrossAngular := vcross contactOffset angularEffect in
    let denominator := 1 / mass state + vdot rCrossAngular normal in
    let jn := - (1 + restitution state) * vn / denominator in
    let frictionCoeff := 0.6 in
    let maxFriction := frictionCoeff * Rabs jn in
    let jt :=
      if Rltb 0.01 tangentialSpeed then
        let tangentDir := vnormalize tangentialVel in
        let rCrossT := vcross contactOffset tangentDir in
        let angularEffectT := vdivc rCrossT I in
        let rCrossAngularT := vcross contactOffset angularEffectT in
        let denominatorT := 1 / mass state + vdot rCrossAngularT tangentDir in
        let jt := - tangentialSpeed / denominatorT in
        Rmax (- maxFriction) (Rmin maxFriction jt)
      else 0 in
    (* Apply normal impulse *)
    let normalImpulse := vscale normal jn in
    let state := set_velocity state (vaddScaled (velocity state) normalImpulse (1 / mass state)) in
    let normalTorque := vcross contactOffset normalImpulse in
    let state := set_spin state (vadd (spin state) (vdivc normalTorque I)) in
    (* Apply friction impulse *)
    let state :=
      if Rltb 0.01 tangentialSpeed then
        let frictionImpulse := vscale (vnormalize tangentialVel) jt in
        let state := set_velocity state (vaddScaled (velocity state) frictionImpulse (1 / mass state)) in
        let frictionTorque := vcross contactOffset frictionImpulse in
        set_spin state (vadd (spin state) (vdivc frictionTorque I))
      else state in
    set_position state (vset_y (position state) (radius state)).

Definition telemetry (p : ProjectileInstance) : ProjectileInstance :=
  if Rleb TELEMETRY_INTERVAL (telemetryTimer p) then
    let s := pstate p in
    with_sample p
      (mkSample (elapsed p) (vy (position s))
         (sqrt (vx (position s) * vx (position s) + vz (position s) * vz (position s)))
         (vlength (velocity s)) (vx (velocity s)) (vy (velocity s)) (vz (velocity s)) None)
  else p.

(** [integrateProjectile]; the mesh, trail and scene updates are omitted. *)
Definition integrateProjectile (u : UndefinedReads) (p : ProjectileInstance) (dt : R)
    : ProjectileInstance :=
  if negb (active p) then p
  else
    let p := with_clocks p (elapsed p + dt) (telemetryTimer p + dt) in
    let p :=
      if Rleb (elapsed p) (duration (profile (params p)))
      then with_state p (applyProfile p dt) else p in
    let groundDistance := vy (position (pstate p)) - radius (pstate p) in
    let p := with_grounded p (Rleb groundDistance GROUND_CONTACT_TOLERANCE) in
    let p :=
      if andb (isGrounded p) (Rleb (vy (velocity (pstate p))) 0.1)
      then with_state p (applyGroundContactForces p dt) else p in
    let env := penvironment p in
    let s := rk4Integrate u (pstate p) env dt totalAcceleration in
    let s := applyAeroTorque s env dt in
    let s := integrateSpin s dt in
    let s := integrateRotation s dt in
    let s := clampToGround s in
    let p := with_state p s in
    let p :=
      if andb (Rleb (vy (position s)) (radius s)) (Rltb (vy (velocity s)) (-0.1)) then
        let p := with_state p (handleGroundCollision s) in
        let s := pstate p in
        if andb (Rltb (Rabs (vy (velocity s))) REST_THRESHOLD)
                (Rltb (vlength (velocity s)) REST_THRESHOLD)
        then with_retired p (buildSummary p) else p
      else p in
    telemetry p.

End SimulationFlat.

(** ** turbulence.ts *)

Module Turbulence.

(** A [SimplexNoise] is its seed. *)
Definition SimplexNoise := R.

Definition hash (seed : SimplexNoise) (x y z t : R) : R :=
  let h := seed in
  let h := sin (h + x * 374761393 + y * 668265263 + z * 1274126177 + t * 1138340171) * 43758.5453 in
  h - js_floor h.

Definition lerp (a b t : R) : R := a + (b - a) * t.
Definition smoothstep (t : R) : R := t * t * (3 - 2 * t).

Definition noise4D (n : SimplexNoise) (x y z t : R) : R :=
  let xi := js_floor x in let yi := js_floor y in
  let zi := js_floor z in let ti := js_floor t in
  let xf := x - xi in let yf := y - yi in let zf := z - zi in let tf := t - ti in
  let u := smoothstep xf in let v := smoothstep yf in
  let w := smoothstep zf in let s := smoothstep tf in
  let n0000 := hash n xi yi zi ti in
  let n1000 := hash n (xi + 1) yi zi ti in
  let n0100 := hash n xi (yi + 1) zi ti in
  let n1100 := hash n (xi + 1) (yi + 1) zi ti in
  let n0010 := hash n xi yi (zi + 1) ti in
  let n1010 := hash n (xi + 1) yi (zi + 1) ti in
  let n0110 := hash n xi (yi + 1) (zi + 1) ti in
  let n1110 := hash n (xi + 1) (yi + 1) (zi + 1) ti in
  let n0001 := hash n xi yi zi (ti + 1) in
  let n1001 := hash n (xi + 1) yi zi (ti + 1) in
  let n0101 := hash n xi (yi + 1) zi (ti + 1) in
  let n1101 := hash n (xi + 1) (yi + 1) zi (ti + 1) in
  let n0011 := hash n xi yi (zi + 1) (ti + 1) in
  let n1011 := hash n (xi + 1) yi (zi + 1) (ti + 1) in
  let n0111 := hash n xi (yi + 1) (zi + 1) (ti + 1) in
  let n1111 := hash n (xi + 1) (yi + 1) (zi + 1) (ti + 1) in
  let x00_0 := lerp n0000 n1000 u in let x10_0 := lerp n0100 n1100 u in
  let x01_0 := lerp n0010 n1010 u in let x11_0 := lerp n0110 n1110 u in
  let x00_1 := lerp n0001 n1001 u in let x10_1 := lerp n0101 n1101 u in
  let x01_1 := lerp n0011 n1011 u in let x11_1 := lerp n0111 n1111 u in
  let y0_0 := lerp x00_0 x10_0 v in let y1_0 := lerp x01_0 x11_0 v in
  let y0_1 := lerp x00_1 x10_1 v in let y1_1 := lerp x01_1 x11_1 v in
  let z_0 := lerp y0_0 y1_0 w in let z_1 := lerp y0_1 y1_1 w in
  lerp z_0 z_1 s * 2 - 1.

Record TurbulenceField := mkField {
  noiseX : SimplexNoise;
  noiseY : SimplexNoise;
  noiseZ : SimplexNoise;
  ftime : R
}.

(** [new TurbulenceField()]: the three seeds are the three successive
    [Math.random()] draws made by the constructor. *)
Definition create (r1 r2 r3 : R) : TurbulenceField := mkField r1 r2 r3 0.

Definition update (f : TurbulenceField) (dt : R) : TurbulenceField :=
  mkField (noiseX f) (noiseY f) (noiseZ f) (ftime f + dt * 0.5).

Definition octaves (n : SimplexNoise) (x y z t : R) : R :=
  noise4D n x y z t * 1.0 +
  noise4D n (x * 2) (y * 2) (z * 2) (t * 2) * 0.5 +
  noise4D n (x * 4) (y * 4) (z * 4) (t * 4) * 0.25.

Definition getTurbulence (f : TurbulenceField) (pos baseWind : Vec3) : Vec3 :=
  let scale := TURBULENCE_SCALE in
  let x := vx pos / scale in let y := vy pos / scale in let z := vz pos / scale in
  let t := ftime f in
  let turbX := octaves (noiseX f) x y z t in
  let turbY := octaves (noiseY f) x y z t in
  let turbZ := octaves (noiseZ f) x y z t in
  let groundEffect := Rmin 1.0 (vy pos / 10.0) in
  let baseSpeed := vlength baseWind in
  let turbulence := mkVec3 (turbX * baseSpeed * TURBULENCE_INTENSITY)
                           (turbY * baseSpeed * TURBULENCE_INTENSITY * 0.5)
                           (turbZ * baseSpeed * TURBULENCE_INTENSITY) in
  vadd (vscale baseWind groundEffect) turbulence.

Definition addGust (f : TurbulenceField) (pos : Vec3) (t : R) : Vec3 :=
  let gustPeriod := 20.0 in
  let gustPhase := js_mod t gustPeriod / gustPeriod in
  let gustStrength := exp (- (((gustPhase - 0.5) * 4) ^ 2)) in
  let gustAngle := sin (vx pos * 0.1 + t * 0.3) * PI in
  let gustDir := mkVec3 (cos gustAngle) 0 (sin gustAngle) in
  vscale gustDir (gustStrength * 5.0).

(** A call on a field, and what it returns. *)
Inductive Call :=
| CUpdate (dt : R)
| CGetTurbulence (pos baseWind : Vec3)
| CAddGust (pos : Vec3) (t : R).

Inductive Output :=
| ONone
| OVec (v : Vec3).

Definition step (f : TurbulenceField) (c : Call) : TurbulenceField * Output :=
  match c with
  | CUpdate dt => (update f dt, ONone)
  | CGetTurbulence pos w => (f, OVec (getTurbulence f pos w))
  | CAddGust pos t => (f, OVec (addGust f pos t))
  end.

Fixpoint run (f : TurbulenceField) (cs : list Call) : list Output :=
  match cs with
  | [] => []
  | c :: cs' => let '(f', o) := step f c in o :: run f' cs'
  end.

End Turbulence.

(** ** simulation.ts, bump-mapped variant: perturbed ground normal,
    velocity-dependent restitution, surface friction, turbulent wind *)

Module SimulationBump.

Record SurfaceProperties := mkSurface { friction : R; surfRestitution : R }.

(** The engine fields read by [integrateProjectile]. *)
Record Engine := mkEngine {
  turbulence : Turbulence.TurbulenceField;
  globalTime : R;
  surfaceProps : SurfaceProperties
}.

Definition getGroundNormal (x z : R) : Vec3 :=
  let scale := 0.8 in
  let roughness := 0.15 in
  let nx := (sin (x * scale) + cos (z * scale * 1.3)) * roughness in
  let nz := (cos (x * scale * 1.1) + sin (z * scale * 0.9)) * roughness in
  vnormalize (mkVec3 nx 1 nz).

(** "Velocity-dependent restitution (energy dissipation increases with
    impact speed)". *)
Definition effectiveRestitution (restitution impactSpeed : R) : R :=
  restitution * exp (- impactSpeed / 20.0).

Definition applyGroundContactForces (p : ProjectileInstance) (dt : R) : ProjectileState :=
  let state := pstate p in
  let state := set_position state (vset_y (position state) (radius state)) in
  let normal := getGroundNormal (vx (position state)) (vz (position state)) in
  let vn := vdot (velocity state) normal in
  let state :=
    if Rltb vn 0 then set_velocity state (vaddScaled (velocity state) normal (- vn)) else state in
  let contactOffset := vscale normal (- radius state) in
  let rotationalVel := vcross (spin state) contactOffset in
  let contactVel := vadd (velocity state) rotationalVel in
  let normalVel := vscale normal (vdot contactVel normal) in
  let tangentialVel := vsub contactVel normalVel in
  let speed := vlength tangentialVel in
  let state :=
    if Rltb 0.01 speed then
      let normalForce := mass state * gravity (penvironment p) in
      let rollingFriction :=
        vscale (vnormalize tangentialVel) (- ROLLING_FRICTION_COEFF * normalForce) in
      (* multiplyScalar works in place, as in the flat engine *)
      let frictionAccel := vscale rollingFriction (1 / mass state) in
      let state := set_velocity state (vaddScaled (velocity state) frictionAccel dt) in
      let rollingTorque := vcross contactOffset frictionAccel in
      let angularDecel := vdivc rollingTorque (momentOfInertia state) in
      set_spin state (vaddScaled (spin state) angularDecel dt)
    else state in
  let dampingFactor := exp (-2.0 * dt) in
  if Rltb speed 0.5 then
    let state := set_velocity state (vscale (velocity state) dampingFactor) in
    set_spin state (vscale (spin state) dampingFactor)
  else state.

Definition handleGroundCollision (eng : Engine) (state : ProjectileState) : ProjectileState :=
  let normal := getGroundNormal (vx (position state)) (vz (position state)) in
  let contactOffset := vscale normal (- radius state) in
  let rotationalVel := vcross (spin state) contactOffset in
  let contactVel := vadd (velocity state) rotationalVel in
  let vn := vdot contactVel normal in
  if Rleb (-0.01) vn then set_position state (vset_y (position state) (radius state))
  else
    let normalVel := vscale normal vn in
    let tangentialVel := vsub contactVel normalVel in
    let tangentialSpeed := vlength tangentialVel in
    let impactSpeed := Rabs vn in
    let eff := effectiveRestitution (restitution state) impactSpeed in
    let I := momentOfInertia state in
    let rCrossN := vcross contactOffset normal in
    let angularEffect := vdivc rCrossN I in
    let rCrossAngular := vcross contactOffset angularEffect in
    let denominator := 1 / mass state + vdot rCrossAngular normal in
    let jn := - (1 + eff) * vn / denominator in
    let frictionCoeff := friction (surfaceProps eng) in
    let maxFriction := frictionCoeff * Rabs jn in
    let jt :=
      if Rltb 0.01 tangentialSpeed then
        let tangentDir := vnormalize tangentialVel in
        let rCrossT := vcross contactOffset tangentDir in
        let angularEffectT := vdivc rCrossT I in
        let rCrossAngularT := vcross contactOffset angularEffectT in
        let denominatorT := 1 / mass state + vdot rCrossAngularT tangentDir in
        let jt := - tangentialSpeed / denominatorT in
        Rmax (- maxFriction) (Rmin maxFriction jt)
      else 0 in
    let normalImpulse := vscale normal jn in
    let state := set_velocity state (vaddScaled (velocity state) normalImpulse (1 / mass state)) in
    let normalTorque := vcross contactOffset normalImpulse in
    let state := set_spin state (vadd (spin state) (vdivc normalTorque I)) in
    let state :=
      if Rltb 0.01 tangentialSpeed then
        let frictionImpulse := vscale (vnormalize tangentialVel) jt in
        let state := set_velocity state (vaddScaled (velocity state) frictionImpulse (1 / mass state)) in
        let frictionTorque := vcross contactOffset frictionImpulse in
        set_spin state (vadd (spin state) (vdivc frictionTorque I))
      else state in
    set_position state (vset_y (position state) (radius state)).

Definition telemetry (p : ProjectileInstance) : ProjectileInstance :=
  if Rleb TELEMETRY_INTERVAL (telemetryTimer p) then
    let s := pstate p in
    with_sample p
      (mkSample (elapsed p) (vy (position s))
         (sqrt (vx (position s) * vx (position s) + vz (position s) * vz (position s)))
         (vlength (velocity s)) (vx (velocity s)) (vy (velocity s)) (vz (velocity s))
         (Some (vx (position s), vz (position s))))
  else p.

Definition integrateProjectile (u : UndefinedReads) (eng : Engine) (p : ProjectileInstance)
    (dt : R) : ProjectileInstance :=
  if negb (active p) then p
  else
    let p := with_clocks p (elapsed p + dt) (telemetryTimer p + dt) in
    let p :=
      if andb (negb (manualConfig (params p))) (Rleb (elapsed p) (duration (profile (params p))))
      then with_state p (applyProfile p dt) else p in
    (* Apply turbulent wind with gusts *)
    let env0 := penvironment p in
    let baseWind := windVector env0 in
    let turbulentWind := Turbulence.getTurbulence (turbulence eng) (position (pstate p)) baseWind in
    let gust := Turbulence.addGust (turbulence eng) (position (pstate p)) (globalTime eng) in
    let p := with_environment p (mkEnv (gravity env0) (vadd turbulentWind gust) (airDensity env0)) in
    let groundDistance := vy (position (pstate p)) - radius (pstate p) in
    let p := with_grounded p (Rleb groundDistance GROUND_CONTACT_TOLERANCE) in
    let p :=
      if andb (isGrounded p) (Rleb (vy (velocity (pstate p))) 0.1)
      then with_state p (applyGroundContactForces p dt) else p in
    let s := rk4Integrate u (pstate p) (penvironment p) dt totalAcceleration in
    (* Restore original wind after integration *)
    let p := with_environment p (mkEnv (gravity env0) baseWind (airDensity env0)) in
    let env := penvironment p in
    let s := applyAeroTorque s env dt in
    let s := integrateSpin s dt in
    let s := integrateRotation s dt in
    let s := clampToGround s in
    let p := with_state p s in
    let p :=
      if andb (Rleb (vy (position s)) (radius s)) (Rltb (vy (velocity s)) (-0.1)) then
        let p := with_state p (handleGroundCollision eng s) in
        let s := pstate p in
        if andb (Rltb (Rabs (vy (velocity s))) REST_THRESHOLD)
                (Rltb (vlength (velocity s)) REST_THRESHOLD)
        then with_retired p (buildSummary p) else p
      else p in
    telemetry p.

End SimulationBump.

(** ** Drivers used to state properties *)

(** A sequence of [integrateRotation] calls; before each call the spin is
    set to the given vector (by whatever code runs in between), and the
    orientation after each call is recorded. *)
Fixpoint rotation_trace (s : ProjectileState) (steps : list (Vec3 * R)) : list Quat :=
  match steps with
  | [] => []
  | (w, dt) :: rest =>
      let s' := integrateRotation (set_spin s w) dt in
      rotation s' :: rotation_trace s' rest
  end.

(** Velocity of the contact point [v + ω × (-r n)] for a ground normal
    [n], and its tangential part. *)
Definition contact_velocity (n : Vec3) (s : ProjectileState) : Vec3 :=
  vadd (velocity s) (vcross (spin s) (vscale n (- radius s))).

Definition tangential_contact_velocity (n : Vec3) (s : ProjectileState) : Vec3 :=
  let cv := contact_velocity n s in vsub cv (vscale n (vdot cv n)).

(** epsilon-delta continuity of a real function at a point. *)
Definition continuous_at (f : R -> R) (x : R) : Prop :=
  forall eps, 0 < eps ->
    exists delta, 0 < delta /\ forall y, Rabs (y - x) < delta -> Rabs (f y - f x) < eps.

(** The transition-regime branch of [dragCoefficient]. *)
Definition transitionCd (re : R) : R := 24 / re * (1 + 0.15 * Rpower re 0.687).

(** Force laws written from the spec's words (force, not divided by the
    mass), with the coefficients the code computes; [as_acceleration]
    divides a force by the mass. *)
Definition gravity_force_law (state : ProjectileState) (environment : EnvironmentState) : Vec3 :=
  vscale (mkVec3 0 (- gravity environment) 0) (mass state).

Definition drag_force_law (state : ProjectileState) (environment : EnvironmentState) : Vec3 :=
  let relativeVelocity := vsub (velocity state) (windVector environment) in
  let speed := vlength relativeVelocity in
  if Reqb speed 0 then vzero
  else
    let rho := airDensityAtAltitude (Rmax 0 (vy (position state))) (airDensity environment) in
    let mu := airViscosity SEA_LEVEL_TEMP in
    let re := reynoldsNumber speed (radius state * 2) rho mu in
    let cd := getDragCoefficient re (dragCoefficient state) in
    vscale relativeVelocity (- (0.5 * cd * rho * area state) * speed).

Definition magnus_force_law (state : ProjectileState) (environment : EnvironmentState) : Vec3 :=
  let relativeVelocity := vsub (velocity state) (windVector environment) in
  if orb (Reqb (vlengthSq relativeVelocity) 0) (Reqb (vlengthSq (spin state)) 0) then vzero
  else
    let rho := airDensityAtAltitude (Rmax 0 (vy (position state))) (airDensity environment) in
    let spinRatio := (radius state * vlength (spin state)) / (vlength relativeVelocity + 0.01) in
    let cl := magnusLiftCoefficient spinRatio in
    vscale (vcross (spin state) relativeVelocity) (0.5 * rho * area state * cl * 3.0).

Definition as_acceleration (force : Vec3) (m : R) : Vec3 := vscale force (1 / m).

(** At a given state, the three force functions follow one convention:
    all return the force laws, or all return the laws divided by the mass. *)
Definition same_convention_at (state : ProjectileState) (environment : EnvironmentState) : Prop :=
  (gravityForce state environment = gravity_force_law state environment /\
   dragForce state environment = drag_force_law state environment /\
   magnusForce state environment = magnus_force_law state environment) \/
  (gravityForce state environment =
     as_acceleration (gravity_force_law state environment) (mass state) /\
   dragForce state environment =
     as_acceleration (drag_force_law state environment) (mass state) /\
   magnusForce state environment =
     as_acceleration (magnus_force_law state environment) (mass state)).

(** The field reached after a sequence of calls. *)
Fixpoint field_after (f : Turbulence.TurbulenceField) (cs : list Turbulence.Call)
    : Turbulence.TurbulenceField :=
  match cs with
  | [] => f
  | c :: cs' => field_after (fst (Turbulence.step f c)) cs'
  end.

(** ** Engine bookkeeping, the update loop, launch profiles and surfaces *)

Definition integrate_bookkeeping (p p' : ProjectileInstance) (dt : R) : Prop :=
  elapsed p' = elapsed p + dt /\
  penvironment p' = penvironment p /\
  params p' = params p /\
  ((telemetryTimer p + dt < TELEMETRY_INTERVAL /\
    telemetryTimer p' = telemetryTimer p + dt /\ samples p' = samples p) \/
   (TELEMETRY_INTERVAL <= telemetryTimer p + dt /\ telemetryTimer p' = 0 /\
    exists smp, samples p' = samples p ++ [smp] /\ time smp = elapsed p + dt)) /\
  ((active p' = true /\ summary p' = summary p) \/
   (active p' = false /\ exists sm, summary p' = Some sm)).

(** constants.ts *)
Definition MIN_TIME_STEP : R := 0.005.
Definition MAX_TIME_STEP : R := 0.02.

(** [Math.min(dt * speedMultiplier, MAX_TIME_STEP)] with [speedMultiplier = 1.5]. *)
Definition clampedStep (dt : R) : R := Rmin (dt * 1.5) MAX_TIME_STEP.

(** The sub-stepping loop of the flat engine's [update]: one round per
    [fuel] unit while [accumulator > 0]; returns the projectiles and the
    accumulator left. *)
Fixpoint flat_substeps (fuel : nat) (u : UndefinedReads) (accumulator : R)
    (ps : list ProjectileInstance) : list ProjectileInstance * R :=
  match fuel with
  | O => (ps, accumulator)
  | S fuel' =>
      if Rltb 0 accumulator then
        let step := Rmin accumulator MIN_TIME_STEP in
        flat_substeps fuel' u (accumulator - step)
          (map (fun p => SimulationFlat.integrateProjectile u p step) ps)
      else (ps, accumulator)
  end.

(** [SimulationEngine.update] of the flat engine; four rounds of the loop
    exhaust the accumulator (see [update_loop_exits]). *)
Definition flat_update (u : UndefinedReads) (ps : list ProjectileInstance) (dt : R)
    : list ProjectileInstance :=
  filter active (fst (flat_substeps 4 u (clampedStep dt) ps)).

(** The adaptive step bound of the bump-mapped engine: [MAX_TIME_STEP],
    lowered by every active projectile that is fast or close to the ground. *)
Definition minStep (ps : list ProjectileInstance) : R :=
  fold_left (fun m p =>
    if active p then
      let speed := vlength (velocity (pstate p)) in
      let velStep := if Rltb 50 speed then MIN_TIME_STEP else MIN_TIME_STEP * 2 in
      let heightStep :=
        if Rltb (vy (position (pstate p))) (2 * radius (pstate p))
        then MIN_TIME_STEP else MAX_TIME_STEP in
      Rmin (Rmin m velStep) heightStep
    else m) ps MAX_TIME_STEP.

Fixpoint bump_substeps (fuel : nat) (u : UndefinedReads) (eng : SimulationBump.Engine)
    (accumulator : R) (ps : list ProjectileInstance) : list ProjectileInstance * R :=
  match fuel with
  | O => (ps, accumulator)
  | S fuel' =>
      if Rltb 0 accumulator then
        let step := Rmin accumulator (minStep ps) in
        bump_substeps fuel' u eng (accumulator - step)
          (map (fun p => SimulationBump.integrateProjectile u eng p step) ps)
      else (ps, accumulator)
  end.

(** [SimulationEngine.update] of the bump-mapped engine: the turbulence
    field and the global clock advance by the clamped frame time before
    the sub-steps. *)
Definition bump_update (u : UndefinedReads) (eng : SimulationBump.Engine)
    (ps : list ProjectileInstance) (dt : R) : SimulationBump.Engine * list ProjectileInstance :=
  let clamped := clampedStep dt in
  let eng := SimulationBump.mkEngine (Turbulence.update (SimulationBump.turbulence eng) clamped)
               (SimulationBump.globalTime eng + clamped) (SimulationBump.surfaceProps eng) in
  (eng, filter active (fst (bump_substeps 4 u eng clamped ps))).

(** What a projectile after some sub-steps keeps of the one it started as. *)
Definition advanced_by (k : R) (p p' : ProjectileInstance) : Prop :=
  active p' = true ->
  active p = true /\ elapsed p' = elapsed p + k /\
  penvironment p' = penvironment p /\ params p' = params p.

(** ** forceProfiles.ts *)
Definition DEG2RAD : R := PI / 180.

Definition impulseVector (strength elevation azimuth : R) : Vec3 :=
  let elevRad := elevation * DEG2RAD in
  let azimuthRad := azimuth * DEG2RAD in
  let dir := mkVec3 (cos elevRad * cos azimuthRad) (sin elevRad) (cos elevRad * sin azimuthRad) in
  vscale dir strength.

Definition easeImpulse (t duration : R) : R :=
  let x := Rmin (t / duration) 1 in
  sin (x * PI).

Definition cannonProfile : ForceProfile :=
  mkProfile 0.06 (fun t => impulseVector (18000 * easeImpulse t 0.06) 12 0) (mkVec3 0 0 1) 6.
Definition kickProfile : ForceProfile :=
  mkProfile 0.14 (fun t => impulseVector (4500 * easeImpulse t 0.14) 16 8) (mkVec3 1 0 0) (-22).
Definition batProfile : ForceProfile :=
  mkProfile 0.085 (fun t => impulseVector (6200 * easeImpulse t 0.085) 24 (-6)) (mkVec3 0 0 1) 32.
Definition throwProfile : ForceProfile :=
  mkProfile 0.21 (fun t => impulseVector (2100 * easeImpulse t 0.21) 35 4)
    (vnormalize (mkVec3 0.4 0.2 0)) 18.
Definition railProfile : ForceProfile :=
  mkProfile 0.12 (fun t => impulseVector (9000 * easeImpulse t 0.12) 8 0) (mkVec3 0 1 0) 4.

Definition forceProfiles : list ForceProfile :=
  [cannonProfile; kickProfile; batProfile; throwProfile; railProfile].

Definition launch_dir (elevation azimuth : R) : Vec3 :=
  mkVec3 (cos (elevation * DEG2RAD) * cos (azimuth * DEG2RAD)) (sin (elevation * DEG2RAD))
         (cos (elevation * DEG2RAD) * sin (azimuth * DEG2RAD)).

Inductive SurfaceType := Grass | Concrete | Dirt | Ice.

(** [setSurfaceType]. *)
Definition setSurfaceType (eng : SimulationBump.Engine) (type : SurfaceType) : SimulationBump.Engine :=
  let props :=
    match type with
    | Grass => SimulationBump.mkSurface 0.6 0.5
    | Concrete => SimulationBump.mkSurface 0.8 0.7
    | Dirt => SimulationBump.mkSurface 0.7 0.4
    | Ice => SimulationBump.mkSurface 0.1 0.9
    end in
  SimulationBump.mkEngine (SimulationBump.turbulence eng) (SimulationBump.globalTime eng) props.

(** ** JavaScript numbers: the flat engine step with [NaN] and infinities *)

(** The real-number model above cannot express what the acceleration
    function reads on the clones of [cloneState]: a property that is
    absent is [undefined], and arithmetic on [undefined] gives [NaN].
    This module models the numbers of the source as JavaScript numbers
    and embeds the code of one [integrateProjectile] call of the flat
    engine over them: the force functions of forces.ts and constants.ts,
    [rk4Integrate] and [cloneState] of integrators.ts, and the engine
    step of simulation.ts. *)

Module JS.

(** A JavaScript number: a finite value, an infinity ([Inf true] is
    [-Infinity], [Inf false] is [Infinity]) or [NaN].  Zeros carry no
    sign: a division of a non-zero number by zero gives the infinity of
    the sign of the numerator. *)
Inductive num := Fin (r : R) | Inf (neg : bool) | NaN.

Definition nopp (x : num) : num :=
  match x with Fin a => Fin (- a) | Inf s => Inf (negb s) | NaN => NaN end.

Definition nadd (x y : num) : num :=
  match x, y with
  | Fin a, Fin b => Fin (a + b)
  | Inf s, Fin _ | Fin _, Inf s => Inf s
  | Inf s, Inf t => if Bool.eqb s t then Inf s else NaN
  | _, _ => NaN
  end.

Definition nsub (x y : num) : num := nadd x (nopp y).

Definition nmul (x y : num) : num :=
  match x, y with
  | Fin a, Fin b => Fin (a * b)
  | Inf s, Fin b | Fin b, Inf s => if Reqb b 0 then NaN else Inf (xorb s (Rltb b 0))
  | Inf s, Inf t => Inf (xorb s t)
  | _, _ => NaN
  end.

Definition ndiv (x y : num) : num :=
  match x, y with
  | Fin a, Fin b =>
      if Reqb b 0 then (if Reqb a 0 then NaN else Inf (Rltb a 0)) else Fin (a / b)
  | Fin _, Inf _ => Fin 0
  | Inf s, Fin b => Inf (xorb s (Rltb b 0))
  | _, _ => NaN
  end.

(** [<]: false as soon as one side is [NaN]. *)
Definition nlt (x y : num) : bool :=
  match x, y with
  | Fin a, Fin b => Rltb a b
  | Inf true, Fin _ | Fin _, Inf false | Inf true, Inf false => true
  | _, _ => false
  end.

(** [===] on numbers: [NaN] equals nothing. *)
Definition neqb (x y : num) : bool :=
  match x, y with
  | Fin a, Fin b => Reqb a b
  | Inf s, Inf t => Bool.eqb s t
  | _, _ => false
  end.

Definition nle (x y : num) : bool := orb (nlt x y) (neqb x y).

(** Truthiness, as used by [x || 1]: [0] and [NaN] are falsy. *)
Definition ntruthy (x : num) : bool :=
  match x with Fin a => negb (Reqb a 0) | Inf _ => true | NaN => false end.

(** [Math.sqrt], [Math.exp], [Math.abs] *)
Definition nsqrt (x : num) : num :=
  match x with
  | Fin a => if Rltb a 0 then NaN else Fin (sqrt a)
  | Inf false => Inf false
  | _ => NaN
  end.

Definition nexp (x : num) : num :=
  match x with Fin a => Fin (exp a) | Inf false => Inf false | Inf true => Fin 0 | NaN => NaN end.

Definition nabs (x : num) : num :=
  match x with Fin a => Fin (Rabs a) | Inf _ => Inf false | NaN => NaN end.

(** [Math.max] and [Math.min] of two numbers: [NaN] if either is. *)
Definition nmax (x y : num) : num :=
  match x, y with NaN, _ | _, NaN => NaN | _, _ => if nlt x y then y else x end.

Definition nmin (x y : num) : num :=
  match x, y with NaN, _ | _, NaN => NaN | _, _ => if nlt y x then y else x end.

(** [Math.pow(x, e)] for the positive non-integer exponents of the source
    ([1.5] and [0.687]): a negative base gives [NaN]. *)
Definition npow (x : num) (e : R) : num :=
  match x with
  | Fin a => if Rltb 0 a then Fin (Rpower a e) else if Reqb a 0 then Fin 0 else NaN
  | Inf _ => Inf false
  | NaN => NaN
  end.

(** [Math.pow(x, 3)] *)
Definition ncube (x : num) : num := nmul (nmul x x) x.

(** *** THREE.Vector3 and THREE.Quaternion *)

Record Vec3 := mkVec3 { vx : num; vy : num; vz : num }.

Definition vzero : Vec3 := mkVec3 (Fin 0) (Fin 0) (Fin 0).
Definition vadd (a b : Vec3) : Vec3 :=
  mkVec3 (nadd (vx a) (vx b)) (nadd (vy a) (vy b)) (nadd (vz a) (vz b)).
Definition vsub (a b : Vec3) : Vec3 :=
  mkVec3 (nsub (vx a) (vx b)) (nsub (vy a) (vy b)) (nsub (vz a) (vz b)).
Definition vscale (a : Vec3) (s : num) : Vec3 :=
  mkVec3 (nmul (vx a) s) (nmul (vy a) s) (nmul (vz a) s).
Definition vaddScaled (a b : Vec3) (s : num) : Vec3 :=
  mkVec3 (nadd (vx a) (nmul (vx b) s)) (nadd (vy a) (nmul (vy b) s))
    (nadd (vz a) (nmul (vz b) s)).
Definition vdot (a b : Vec3) : num :=
  nadd (nadd (nmul (vx a) (vx b)) (nmul (vy a) (vy b))) (nmul (vz a) (vz b)).
Definition vlengthSq (a : Vec3) : num := vdot a a.
Definition vlength (a : Vec3) : num := nsqrt (vlengthSq a).
Definition vcross (a b : Vec3) : Vec3 :=
  mkVec3 (nsub (nmul (vy a) (vz b)) (nmul (vz a) (vy b)))
         (nsub (nmul (vz a) (vx b)) (nmul (vx a) (vz b)))
         (nsub (nmul (vx a) (vy b)) (nmul (vy a) (vx b))).
(** [normalize()] is [divideScalar(this.length() || 1)]. *)
Definition vnormalize (a : Vec3) : Vec3 :=
  let l := vlength a in
  let d := if ntruthy l then l else Fin 1 in
  vscale a (ndiv (Fin 1) d).
Definition vset_y (a : Vec3) (y : num) : Vec3 := mkVec3 (vx a) y (vz a).
Definition vdivc (a i : Vec3) : Vec3 :=
  mkVec3 (ndiv (vx a) (vx i)) (ndiv (vy a) (vy i)) (ndiv (vz a) (vz i)).

Record Quat := mkQuat { qx : num; qy : num; qz : num; qw : num }.

Definition qidentity : Quat := mkQuat (Fin 0) (Fin 0) (Fin 0) (Fin 1).
Definition qlength (q : Quat) : num :=
  nsqrt (nadd (nadd (nadd (nmul (qx q) (qx q)) (nmul (qy q) (qy q)))
                    (nmul (qz q) (qz q))) (nmul (qw q) (qw q))).
Definition qmul (a b : Quat) : Quat :=
  mkQuat (nsub (nadd (nadd (nmul (qx a) (qw b)) (nmul (qw a) (qx b))) (nmul (qy a) (qz b)))
               (nmul (qz a) (qy b)))
         (nsub (nadd (nadd (nmul (qy a) (qw b)) (nmul (qw a) (qy b))) (nmul (qz a) (qx b)))
               (nmul (qx a) (qz b)))
         (nsub (nadd (nadd (nmul (qz a) (qw b)) (nmul (qw a) (qz b))) (nmul (qx a) (qy b)))
               (nmul (qy a) (qx b)))
         (nsub (nsub (nsub (nmul (qw a) (qw b)) (nmul (qx a) (qx b))) (nmul (qy a) (qy b)))
               (nmul (qz a) (qz b))).
Definition qnormalize (q : Quat) : Quat :=
  let l := qlength q in
  if neqb l (Fin 0) then qidentity
  else let s := ndiv (Fin 1) l in
       mkQuat (nmul (qx q) s) (nmul (qy q) s) (nmul (qz q) s) (nmul (qw q) s).

(** *** types.ts *)

Record ProjectileState := mkState {
  position : Vec3;
  velocity : Vec3;
  spin : Vec3;
  rotation : Quat;
  mass : num;
  area : num;
  dragCoefficient : num;
  spinDamping : num;
  restitution : num;
  momentOfInertia : Vec3;
  radius : num
}.

Record EnvironmentState := mkEnv {
  gravity : num;
  windVector : Vec3;
  airDensity : num
}.

Definition set_position (s : ProjectileState) (p : Vec3) : ProjectileState :=
  mkState p (velocity s) (spin s) (rotation s) (mass s) (area s)
    (dragCoefficient s) (spinDamping s) (restitution s) (momentOfInertia s) (radius s).
Definition set_velocity (s : ProjectileState) (v : Vec3) : ProjectileState :=
  mkState (position s) v (spin s) (rotation s) (mass s) (area s)
    (dragCoefficient s) (spinDamping s) (restitution s) (momentOfInertia s) (radius s).
Definition set_spin (s : ProjectileState) (w : Vec3) : ProjectileState :=
  mkState (position s) (velocity s) w (rotation s) (mass s) (area s)
    (dragCoefficient s) (spinDamping s) (restitution s) (momentOfInertia s) (radius s).
Definition set_rotation (s : ProjectileState) (q : Quat) : ProjectileState :=
  mkState (position s) (velocity s) (spin s) q (mass s) (area s)
    (dragCoefficient s) (spinDamping s) (restitution s) (momentOfInertia s) (radius s).

(** The object an acceleration function receives: the state itself, or a
    clone made by [cloneState].  [rotation], [momentOfInertia] and
    [radius] may be absent ([None]); reading an absent property gives
    [undefined]. *)
Record StateObject := mkObject {
  oposition : Vec3;
  ovelocity : Vec3;
  ospin : Vec3;
  orotation : option Quat;
  omass : num;
  oarea : num;
  odragCoefficient : num;
  ospinDamping : num;
  orestitution : num;
  omomentOfInertia : option Vec3;
  oradius : option num
}.

(** A number read from a property: [undefined] converts to [NaN]. *)
Definition to_number (v : option num) : num :=
  match v with Some n => n | None => NaN end.

Definition as_object (s : ProjectileState) : StateObject :=
  mkObject (position s) (velocity s) (spin s) (Some (rotation s)) (mass s) (area s)
    (dragCoefficient s) (spinDamping s) (restitution s) (Some (momentOfInertia s))
    (Some (radius s)).

Definition set_oposition (o : StateObject) (p : Vec3) : StateObject :=
  mkObject p (ovelocity o) (ospin o) (orotation o) (omass o) (oarea o)
    (odragCoefficient o) (ospinDamping o) (orestitution o) (omomentOfInertia o) (oradius o).
Definition set_ovelocity (o : StateObject) (v : Vec3) : StateObject :=
  mkObject (oposition o) v (ospin o) (orotation o) (omass o) (oarea o)
    (odragCoefficient o) (ospinDamping o) (orestitution o) (omomentOfInertia o) (oradius o).

(** *** constants.ts *)

Definition airDensityAtAltitude (altitude seaLevelDensity : num) : num :=
  nmul seaLevelDensity (nexp (ndiv (nopp altitude) (Fin SCALE_HEIGHT))).

Definition airViscosity (temperature : num) : num :=
  let T0 := Fin 291.15 in
  let mu0 := Fin 1.827e-5 in
  let C := Fin 120 in
  ndiv (nmul (nmul mu0 (npow (ndiv temperature T0) 1.5)) (nadd T0 C)) (nadd temperature C).

Definition reynoldsNumber (velocity diameter density viscosity : num) : num :=
  ndiv (nmul (nmul density velocity) diameter) viscosity.

Definition getDragCoefficient (re baseCd : num) : num :=
  if nlt re (Fin 1) then ndiv (Fin 24) re
  else if nlt re (Fin 1000) then
    nmul (ndiv (Fin 24) re) (nadd (Fin 1) (nmul (Fin 0.15) (npow re 0.687)))
  else if nlt re (Fin 300000) then baseCd
  else if nlt re (Fin 500000) then
    let t := ndiv (nsub re (Fin 300000)) (Fin 200000) in
    nmul baseCd (nsub (Fin 1) (nmul (Fin 0.6) t))
  else nmul baseCd (Fin 0.4).

Definition magnusLiftCoefficient (spinRatio : num) : num :=
  if nlt spinRatio (Fin 0.1) then ndiv (nmul (Fin 0.5) spinRatio) (Fin 0.1)
  else if nlt spinRatio (Fin 0.5) then Fin 0.5
  else nmul (Fin 0.5) (nexp (ndiv (nopp (nsub spinRatio (Fin 0.5))) (Fin 0.3))).

(** *** forces.ts *)

Definition gravityForce (state : StateObject) (environment : EnvironmentState) : Vec3 :=
  mkVec3 (Fin 0) (nmul (nopp (omass state)) (gravity environment)) (Fin 0).

Definition dragForce (state : StateObject) (environment : EnvironmentState) : Vec3 :=
  let relativeVelocity := vsub (ovelocity state) (windVector environment) in
  let speed := vlength relativeVelocity in
  if neqb speed (Fin 0) then vzero
  else
    let altitude := nmax (Fin 0) (vy (oposition state)) in
    let rho := airDensityAtAltitude altitude (airDensity environment) in
    let diameter := nmul (to_number (oradius state)) (Fin 2) in
    let mu := airViscosity (Fin SEA_LEVEL_TEMP) in
    let re := reynoldsNumber speed diameter rho mu in
    let cd := getDragCoefficient re (odragCoefficient state) in
    let k := ndiv (nmul (nmul (nmul (Fin 0.5) cd) rho) (oarea state)) (omass state) in
    vscale relativeVelocity (nmul (nopp k) speed).

Definition magnusForce (state : StateObject) (environment : EnvironmentState) : Vec3 :=
  let relativeVelocity := vsub (ovelocity state) (windVector environment) in
  if orb (neqb (vlengthSq relativeVelocity) (Fin 0)) (neqb (vlengthSq (ospin state)) (Fin 0))
  then vzero
  else
    let speed := vlength relativeVelocity in
    let spinSpeed := vlength (ospin state) in
    let altitude := nmax (Fin 0) (vy (oposition state)) in
    let rho := airDensityAtAltitude altitude (airDensity environment) in
    let spinRatio :=
      ndiv (nmul (to_number (oradius state)) spinSpeed) (nadd speed (Fin 0.01)) in
    let cl := magnusLiftCoefficient spinRatio in
    let clRho := nmul (nmul (nmul (nmul (Fin 0.5) rho) (oarea state)) cl) (Fin 3.0) in
    let lift := vcross (ospin state) relativeVelocity in
    vscale lift (ndiv clRho (omass state)).

Definition integrateSpin (state : ProjectileState) (dt : num) : ProjectileState :=
  if neqb (vlengthSq (spin state)) (Fin 0) then state
  else
    let spinSpeed := vlength (spin state) in
    let quadraticDamping := nmul (nmul (spinDamping state) spinSpeed) dt in
    let dampingFactor := ndiv (Fin 1) (nadd (Fin 1) quadraticDamping) in
    set_spin state (vscale (spin state) dampingFactor).

Definition integrateRotation (state : ProjectileState) (dt : num) : ProjectileState :=
  if neqb (vlengthSq (spin state)) (Fin 0) then state
  else
    let I := momentOfInertia state in
    let inertiaDiff :=
      nadd (nadd (nabs (nsub (vx I) (vy I))) (nabs (nsub (vy I) (vz I))))
        (nabs (nsub (vz I) (vx I))) in
    let w0 := spin state in
    let w :=
      if nlt (Fin 0.001) inertiaDiff then
        let precessionRate := nmul (Fin 0.1) inertiaDiff in
        let perpendicular :=
          vnormalize (mkVec3 (nsub (vy w0) (vz w0)) (nsub (vz w0) (vx w0))
                        (nsub (vx w0) (vy w0))) in
        vaddScaled w0 perpendicular (nmul precessionRate dt)
      else w0 in
    let halfDt := nmul dt (Fin 0.5) in
    let omega := mkQuat (nmul (vx w) halfDt) (nmul (vy w) halfDt) (nmul (vz w) halfDt) (Fin 0) in
    let q := rotation state in
    let dq := qmul omega q in
    let q' := mkQuat (nadd (qx q) (qx dq)) (nadd (qy q) (qy dq)) (nadd (qz q) (qz dq))
                (nadd (qw q) (qw dq)) in
    set_rotation (set_spin state w) (qnormalize q').

Definition aerodynamicTorque (state : StateObject) (environment : EnvironmentState) : Vec3 :=
  let relativeVelocity := vsub (ovelocity state) (windVector environment) in
  let speed := vlength relativeVelocity in
  if orb (neqb speed (Fin 0)) (neqb (vlengthSq (ospin state)) (Fin 0)) then vzero
  else
    let altitude := nmax (Fin 0) (vy (oposition state)) in
    let rho := airDensityAtAltitude altitude (airDensity environment) in
    let spinSpeed := vlength (ospin state) in
    let r3 := ncube (to_number (oradius state)) in
    let torqueCoeff := nmul (nmul (nmul (Fin 0.15) rho) r3) spinSpeed in
    let dragTorque := vscale (ospin state) (nopp torqueCoeff) in
    let vortexAxis := vnormalize (vcross relativeVelocity (ospin state)) in
    let vortexMagnitude := nmul (nmul (nmul (Fin 0.05) rho) r3) speed in
    let vortexTorque := vscale vortexAxis vortexMagnitude in
    vadd dragTorque vortexTorque.

(** *** integrators.ts *)

Definition AccelerationFn := StateObject -> EnvironmentState -> Vec3.

(** [cloneState] copies eight properties: the clone has no [rotation],
    [momentOfInertia] or [radius]. *)
Definition cloneState (state : ProjectileState) : StateObject :=
  mkObject (position state) (velocity state) (spin state) None (mass state) (area state)
    (dragCoefficient state) (spinDamping state) (restitution state) None None.

Definition rk4Integrate (state : ProjectileState) (environment : EnvironmentState)
    (dt : num) (accelerationFn : AccelerationFn) : ProjectileState :=
  let k1 := accelerationFn (as_object state) environment in
  let vel1 := velocity state in
  let tempState := cloneState state in
  (* k2 *)
  let tempState := set_oposition tempState (vaddScaled (oposition tempState) vel1 (nmul dt (Fin 0.5))) in
  let tempState := set_ovelocity tempState (vaddScaled (ovelocity tempState) k1 (nmul dt (Fin 0.5))) in
  let k2 := accelerationFn tempState environment in
  let vel2 := ovelocity tempState in
  (* k3 *)
  let tempState := set_oposition tempState (vaddScaled (position state) vel2 (nmul dt (Fin 0.5))) in
  let tempState := set_ovelocity tempState (vaddScaled (velocity state) k2 (nmul dt (Fin 0.5))) in
  let k3 := accelerationFn tempState environment in
  let vel3 := ovelocity tempState in
  (* k4 *)
  let tempState := set_oposition tempState (vaddScaled (position state) vel3 dt) in
  let tempState := set_ovelocity tempState (vaddScaled (velocity state) k3 dt) in
  let k4 := accelerationFn tempState environment in
  (* Aggregate results *)
  let velocityDelta :=
    vscale (vadd (vaddScaled (vaddScaled k1 k2 (Fin 2)) k3 (Fin 2)) k4) (ndiv dt (Fin 6)) in
  let state := set_velocity state (vadd (velocity state) velocityDelta) in
  let positionDelta :=
    vscale (vadd (vaddScaled (vaddScaled vel1 vel2 (Fin 2)) vel3 (Fin 2)) (ovelocity tempState))
      (ndiv dt (Fin 6)) in
  set_position state (vadd (position state) positionDelta).

(** The classical RK4 step the specification describes, written from its
    words: every stage evaluates the acceleration on a full copy of the
    state whose position and velocity are perturbed by the previous
    slope. *)
Definition rk4_stage (s : ProjectileState) (x v : Vec3) : StateObject :=
  as_object (set_velocity (set_position s x) v).

Definition rk4_classical (s : ProjectileState) (e : EnvironmentState) (dt : num)
    (f : AccelerationFn) : ProjectileState :=
  let half := nmul dt (Fin 0.5) in
  let x := position s in
  let v1 := velocity s in
  let k1 := f (as_object s) e in
  let v2 := vaddScaled v1 k1 half in
  let k2 := f (rk4_stage s (vaddScaled x v1 half) v2) e in
  let v3 := vaddScaled v1 k2 half in
  let k3 := f (rk4_stage s (vaddScaled x v2 half) v3) e in
  let v4 := vaddScaled v1 k3 dt in
  let k4 := f (rk4_stage s (vaddScaled x v3 dt) v4) e in
  let avg a b c d := vscale (vadd (vaddScaled (vaddScaled a b (Fin 2)) c (Fin 2)) d) (ndiv dt (Fin 6)) in
  set_position (set_velocity s (vadd v1 (avg k1 k2 k3 k4))) (vadd x (avg v1 v2 v3 v4)).

(** *** simulation.ts: the acceleration function and the flat engine *)

Definition totalAcceleration (state : StateObject) (environment : EnvironmentState) : Vec3 :=
  let accel := vzero in
  let accel := vadd accel (vscale (gravityForce state environment) (ndiv (Fin 1) (omass state))) in
  let accel := vadd accel (dragForce state environment) in
  vadd accel (magnusForce state environment).

Record ForceProfile := mkProfile {
  duration : num;
  impulse : num -> Vec3;
  spinAxis : Vec3;
  spinRate : num
}.

Record LaunchParameters := mkParams {
  profile : ForceProfile;
  manualConfig : bool
}.

Record TelemetrySample := mkSample {
  time : num;
  altitude : num;
  range : num;
  speed : num;
  velocityX : num;
  velocityY : num;
  velocityZ : num;
  planar : option (num * num)
}.

Record Summary := mkSummary {
  maxHeight : num;
  totalRange : num;
  flightTime : num;
  impactSpeed : num
}.

Record ProjectileInstance := mkInstance {
  pstate : ProjectileState;
  penvironment : EnvironmentState;
  params : LaunchParameters;
  elapsed : num;
  telemetryTimer : num;
  samples : list TelemetrySample;
  summary : option Summary;
  isGrounded : bool;
  active : bool
}.

Definition with_state (p : ProjectileInstance) (s : ProjectileState) : ProjectileInstance :=
  mkInstance s (penvironment p) (params p) (elapsed p) (telemetryTimer p)
    (samples p) (summary p) (isGrounded p) (active p).
Definition with_clocks (p : ProjectileInstance) (el tt : num) : ProjectileInstance :=
  mkInstance (pstate p) (penvironment p) (params p) el tt
    (samples p) (summary p) (isGrounded p) (active p).
Definition with_grounded (p : ProjectileInstance) (g : bool) : ProjectileInstance :=
  mkInstance (pstate p) (penvironment p) (params p) (elapsed p) (telemetryTimer p)
    (samples p) (summary p) g (active p).
Definition with_retired (p : ProjectileInstance) (sm : Summary) : ProjectileInstance :=
  mkInstance (pstate p) (penvironment p) (params p) (elapsed p) (telemetryTimer p)
    (samples p) (Some sm) (isGrounded p) false.
Definition with_sample (p : ProjectileInstance) (smp : TelemetrySample) : ProjectileInstance :=
  mkInstance (pstate p) (penvironment p) (params p) (elapsed p) (Fin 0)
    (samples p ++ [smp]) (summary p) (isGrounded p) (active p).

Definition buildSummary (p : ProjectileInstance) : Summary :=
  let apex := fold_left (fun mx smp => nmax mx (altitude smp)) (samples p) (Fin 0) in
  let rng := fold_left (fun mx smp => nmax mx (range smp)) (samples p) (Fin 0) in
  let ft := match rev (samples p) with
            | smp :: _ => time smp
            | [] => elapsed p
            end in
  mkSummary apex rng ft (vlength (velocity (pstate p))).

Definition applyProfile (p : ProjectileInstance) (dt : num) : ProjectileState :=
  let s := pstate p in
  let pr := profile (params p) in
  let force := impulse pr (elapsed p) in
  let s :=
    if nlt (Fin 0) (vlengthSq force) then
      let acceleration := vscale force (ndiv (Fin 1) (mass s)) in
      set_velocity s (vaddScaled (velocity s) acceleration dt)
    else s in
  set_spin s (vaddScaled (spin s) (spinAxis pr) (nmul (spinRate pr) dt)).

Definition applyAeroTorque (s : ProjectileState) (e : EnvironmentState) (dt : num) : ProjectileState :=
  let torque := aerodynamicTorque (as_object s) e in
  let angularAccel := vdivc torque (momentOfInertia s) in
  set_spin s (vaddScaled (spin s) angularAccel dt).

Definition clampToGround (s : ProjectileState) : ProjectileState :=
  if nlt (vy (position s)) (radius s)
  then set_position s (vset_y (position s) (radius s)) else s.

Module SimulationFlat.

Definition normal : Vec3 := mkVec3 (Fin 0) (Fin 1) (Fin 0).

Definition applyGroundContactForces (p : ProjectileInstance) (dt : num) : ProjectileState :=
  let state := pstate p in
  let state := set_position state (vset_y (position state) (radius state)) in
  let state :=
    if nlt (vy (velocity state)) (Fin 0)
    then set_velocity state (vset_y (velocity state) (Fin 0)) else state in
  let contactOffset := vscale normal (nopp (radius state)) in
  let rotationalVel := vcross (spin state) contactOffset in
  let contactVel := vadd (velocity state) rotationalVel in
  let horizontalVel := mkVec3 (vx contactVel) (Fin 0) (vz contactVel) in
  let speed := vlength horizontalVel in
  let state :=
    if nlt (Fin 0.01) speed then
      let normalForce := nmul (mass state) (gravity (penvironment p)) in
      let rollingFriction :=
        vscale (vnormalize horizontalVel) (nmul (nopp (Fin ROLLING_FRICTION_COEFF)) normalForce) in
      (* multiplyScalar works in place: from here on [rollingFriction]
         holds the acceleration *)
      let frictionAccel := vscale rollingFriction (ndiv (Fin 1) (mass state)) in
      let state := set_velocity state (vaddScaled (velocity state) frictionAccel dt) in
      let rollingTorque := vcross contactOffset frictionAccel in
      let angularDecel := vdivc rollingTorque (momentOfInertia state) in
      set_spin state (vaddScaled (spin state) angularDecel dt)
    else state in
  let dampingFactor := nexp (nmul (Fin (-2.0)) dt) in
  if nlt speed (Fin 0.5) then
    let v := velocity state in
    let state := set_velocity state (mkVec3 (nmul (vx v) dampingFactor) (vy v)
                                            (nmul (vz v) dampingFactor)) in
    set_spin state (vscale (spin state) dampingFactor)
  else state.

Definition handleGroundCollision (state : ProjectileState) : ProjectileState :=
  let contactOffset := vscale normal (nopp (radius state)) in
  let rotationalVel := vcross (spin state) contactOffset in
  let contactVel := vadd (velocity state) rotationalVel in
  let vn := vdot contactVel normal in
  if nle (Fin (-0.01)) vn then set_position state (vset_y (position state) (radius state))
  else
    let normalVel := vscale normal vn in
    let tangentialVel := vsub contactVel normalVel in
    let tangentialSpeed := vlength tangentialVel in
    let I := momentOfInertia state in
    let rCrossN := vcross contactOffset normal in
    let angularEffect := vdivc rCrossN I in
    let rCrossAngular := vcross contactOffset angularEffect in
    let denominator := nadd (ndiv (Fin 1) (mass state)) (vdot rCrossAngular normal) in
    let jn := ndiv (nmul (nopp (nadd (Fin 1) (restitution state))) vn) denominator in
    let frictionCoeff := Fin 0.6 in
    let maxFriction := nmul frictionCoeff (nabs jn) in
    let jt :=
      if nlt (Fin 0.01) tangentialSpeed then
        let tangentDir := vnormalize tangentialVel in
        let rCrossT := vcross contactOffset tangentDir in
        let angularEffectT := vdivc rCrossT I in
        let rCrossAngularT := vcross contactOffset angularEffectT in
        let denominatorT := nadd (ndiv (Fin 1) (mass state)) (vdot rCrossAngularT tangentDir) in
        let jt := ndiv (nopp tangentialSpeed) denominatorT in
        nmax (nopp maxFriction) (nmin maxFriction jt)
      else Fin 0 in
    let normalImpulse := vscale normal jn in
    let state := set_velocity state (vaddScaled (velocity state) normalImpulse (ndiv (Fin 1) (mass state))) in
    let normalTorque := vcross contactOffset normalImpulse in
    let state := set_spin state (vadd (spin state) (vdivc normalTorque I)) in
    let state :=
      if nlt (Fin 0.01) tangentialSpeed then
        let frictionImpulse := vscale (vnormalize tangentialVel) jt in
        let state := set_velocity state (vaddScaled (velocity state) frictionImpulse (ndiv (Fin 1) (mass state))) in
        let frictionTorque := vcross contactOffset frictionImpulse in
        set_spin state (vadd (spin state) (vdivc frictionTorque I))
      else state in
    set_position state (vset_y (position state) (radius state)).

Definition telemetry (p : ProjectileInstance) : ProjectileInstance :=
  if nle (Fin TELEMETRY_INTERVAL) (telemetryTimer p) then
    let s := pstate p in
    with_sample p
      (mkSample (elapsed p) (vy (position s))
         (nsqrt (nadd (nmul (vx (position s)) (vx (position s)))
                      (nmul (vz (position s)) (vz (position s)))))
         (vlength (velocity s)) (vx (velocity s)) (vy (velocity s)) (vz (velocity s)) None)
  else p.

Definition integrateProjectile (p : ProjectileInstance) (dt : num) : ProjectileInstance :=
  if negb (active p) then p
  else
    let p := with_clocks p (nadd (elapsed p) dt) (nadd (telemetryTimer p) dt) in
    let p :=
      if nle (elapsed p) (duration (profile (params p)))
      then with_state p (applyProfile p dt) else p in
    let groundDistance := nsub (vy (position (pstate p))) (radius (pstate p)) in
    let p := with_grounded p (nle groundDistance (Fin GROUND_CONTACT_TOLERANCE)) in
    let p :=
      if andb (isGrounded p) (nle (vy (velocity (pstate p))) (Fin 0.1))
      then with_state p (applyGroundContactForces p dt) else p in
    let env := penvironment p in
    let s := rk4Integrate (pstate p) env dt totalAcceleration in
    let s := applyAeroTorque s env dt in
    let s := integrateSpin s dt in
    let s := integrateRotation s dt in
    let s := clampToGround s in
    let p := with_state p s in
    let p :=
      if andb (nle (vy (position s)) (radius s)) (nlt (vy (velocity s)) (Fin (-0.1))) then
        let p := with_state p (handleGroundCollision s) in
        let s := pstate p in
        if andb (nlt (nabs (vy (velocity s))) (Fin REST_THRESHOLD))
                (nlt (vlength (velocity s)) (Fin REST_THRESHOLD))
        then with_retired p (buildSummary p) else p
      else p in
    telemetry p.

End SimulationFlat.

Definition nan_vec : Vec3 := mkVec3 NaN NaN NaN.

End JS.

(** Real values as JavaScript numbers. *)
Definition js_vec (a : Vec3) : JS.Vec3 := JS.mkVec3 (JS.Fin (vx a)) (JS.Fin (vy a)) (JS.Fin (vz a)).
Definition js_quat (q : Quat) : JS.Quat :=
  JS.mkQuat (JS.Fin (qx q)) (JS.Fin (qy q)) (JS.Fin (qz q)) (JS.Fin (qw q)).
Definition js_state (s : ProjectileState) : JS.ProjectileState :=
  JS.mkState (js_vec (position s)) (js_vec (velocity s)) (js_vec (spin s)) (js_quat (rotation s))
    (JS.Fin (mass s)) (JS.Fin (area s)) (JS.Fin (dragCoefficient s)) (JS.Fin (spinDamping s))
    (JS.Fin (restitution s)) (js_vec (momentOfInertia s)) (JS.Fin (radius s)).
Definition js_env (e : EnvironmentState) : JS.EnvironmentState :=
  JS.mkEnv (JS.Fin (gravity e)) (js_vec (windVector e)) (JS.Fin (airDensity e)).

(** A spinning ball at rest in still air, ten metres above the ground,
    launched by a profile whose impulse phase is over. *)
Definition spinning_ball : ProjectileState :=
  mkState (mkVec3 0 10 0) (mkVec3 0 0 0) (mkVec3 0 0 10) qidentity 1 0.0045 0.47 0.01 0.5
    (mkVec3 0.001 0.001 0.001) 0.05.
Definition still_air : EnvironmentState := mkEnv 9.81 (mkVec3 0 0 0) 1.2041.
Definition spinning_launch : JS.ProjectileInstance :=
  JS.mkInstance (js_state spinning_ball) (js_env still_air)
    (JS.mkParams (JS.mkProfile (JS.Fin 0.06) (fun _ => JS.vzero)
                   (JS.mkVec3 (JS.Fin 0) (JS.Fin 0) (JS.Fin 1)) (JS.Fin 0)) false)
    (JS.Fin 1) (JS.Fin 0) [] None false true.

(** * Properties *)

(** ** Decisions *)

Lemma Reqb_true (a b : R) : a = b -> Reqb a b = true.
Proof. intros ->. unfold Reqb. destruct (Req_EM_T b b); congruence. Qed.

Lemma Reqb_false (a b : R) : a <> b -> Reqb a b = false.
Proof. intros H. unfold Reqb. destruct (Req_EM_T a b); congruence. Qed.

Lemma Rltb_true (a b : R) : a < b -> Rltb a b = true.
Proof. intros H. unfold Rltb. destruct (Rlt_dec a b); [reflexivity | contradiction]. Qed.

Lemma Rltb_false (a b : R) : b <= a -> Rltb a b = false.
Proof. intros H. unfold Rltb. destruct (Rlt_dec a b); [lra | reflexivity]. Qed.

Lemma Rleb_true (a b : R) : a <= b -> Rleb a b = true.
Proof. intros H. unfold Rleb. destruct (Rle_dec a b); [reflexivity | contradiction]. Qed.

Lemma Rleb_false (a b : R) : b < a -> Rleb a b = false.
Proof. intros H. unfold Rleb. destruct (Rle_dec a b); [lra | reflexivity]. Qed.

Lemma Rltb_spec (a b : R) : Rltb a b = true <-> a < b.
Proof. unfold Rltb. destruct (Rlt_dec a b); split; congruence || tauto. Qed.

Lemma Rleb_spec (a b : R) : Rleb a b = true <-> a <= b.
Proof. unfold Rleb. destruct (Rle_dec a b); split; congruence || tauto. Qed.

Lemma Reqb_spec (a b : R) : Reqb a b = true <-> a = b.
Proof. unfold Reqb. destruct (Req_EM_T a b); split; congruence || tauto. Qed.

(** ** Vectors and quaternions *)

Lemma vlengthSq_nonneg (a : Vec3) : 0 <= vlengthSq a.
Proof. unfold vlengthSq. nra. Qed.

Lemma qlengthSq_nonneg (q : Quat) : 0 <= qlengthSq q.
Proof. unfold qlengthSq. nra. Qed.

Lemma vlengthSq_zero (a : Vec3) : a = vzero -> vlengthSq a = 0.
Proof. intros ->. unfold vlengthSq, vzero. simpl. ring. Qed.

Lemma qidentity_unit : qlength qidentity = 1.
Proof.
  unfold qlength, qlengthSq, qidentity. simpl.
  replace (0 * 0 + 0 * 0 + 0 * 0 + 1 * 1) with 1 by ring. apply sqrt_1.
Qed.

(** Normalising any quaternion yields a unit quaternion. *)
Lemma qnormalize_unit (q : Quat) : qlength (qnormalize q) = 1.
Proof.
  unfold qnormalize. destruct (Reqb (qlength q) 0) eqn:E.
  - apply qidentity_unit.
  - assert (Hl : qlength q <> 0) by (intro H; apply Reqb_true in H; congruence).
    assert (HL := qlengthSq_nonneg q).
    assert (Hsq : qlength q * qlength q = qlengthSq q) by (apply sqrt_sqrt; exact HL).
    assert (HLpos : qlengthSq q <> 0)
      by (intro H0; apply Hl; unfold qlength; rewrite H0; apply sqrt_0).
    generalize Hl Hsq. generalize (qlength q). intros l Hl' Hsq'.
    unfold qlength, qlengthSq. simpl.
    transitivity (sqrt 1); [f_equal | apply sqrt_1].
    unfold qlengthSq in Hsq', HLpos.
    apply (Rmult_eq_reg_r (l * l)); [| apply Rmult_integral_contrapositive; tauto].
    rewrite Rmult_1_l. rewrite Hsq' at 2. field. exact Hl'.
Qed.

(** ** C5: [integrateRotation] keeps the orientation a unit quaternion *)

Lemma integrateRotation_rotation (s : ProjectileState) (dt : R) :
  rotation (integrateRotation s dt) = rotation s \/
  exists q, rotation (integrateRotation s dt) = qnormalize q.
Proof.
  unfold integrateRotation. destruct (Reqb (vlengthSq (spin s)) 0).
  - left. reflexivity.
  - right. cbv zeta. eexists. reflexivity.
Qed.

(** C5. Starting from a unit quaternion, one [integrateRotation] call, for
    any spin (zero, tiny or huge) and any [dt], leaves the orientation at
    norm exactly 1 (so within 1e-6); hence every call of any sequence of
    calls starting from the identity leaves a unit quaternion. *)
Theorem integrateRotation_unit (s : ProjectileState) (dt : R) :
  qlength (rotation s) = 1 ->
  qlength (rotation (integrateRotation s dt)) = 1 /\
  (forall steps, rotation s = qidentity ->
     Forall (fun q => qlength q = 1) (rotation_trace s steps)).
Proof.
  assert (Hstep : forall s dt, qlength (rotation s) = 1 ->
            qlength (rotation (integrateRotation s dt)) = 1).
  { intros s0 dt0 H0. destruct (integrateRotation_rotation s0 dt0) as [-> | [q ->]].
    - exact H0.
    - apply qnormalize_unit. }
  intros H. split; [apply Hstep; exact H |].
  intros steps Hid. clear Hid. revert s H.
  induction steps as [| [w d] rest IH]; intros s H; simpl; constructor.
  - apply Hstep. exact H.
  - apply IH. apply Hstep. exact H.
Qed.

Lemma integrateRotation_unit_witness :
  let s := mkState vzero vzero (mkVec3 0 0 1000) qidentity 1 1 0 0 0 (mkVec3 1 1 1) 1 in
  qlength (rotation s) = 1 /\
  qlength (rotation (integrateRotation s (1/60))) = 1 /\
  Forall (fun q => qlength q = 1) (rotation_trace s [(mkVec3 0 0 1000, 1/60); (vzero, 1)]).
Proof.
  intros s.
  assert (H1 : qlength (rotation s) = 1) by apply qidentity_unit.
  split; [exact H1 |].
  destruct (integrateRotation_unit s (1/60) H1) as [Ha Hb].
  split; [exact Ha | apply Hb; reflexivity].
Defined.

(** ** C7: [magnusForce] guard *)

(** C7. If the relative velocity [velocity - wind] or the spin is the zero
    vector, [magnusForce] takes its early return and yields the zero
    vector; the spin-ratio division is not evaluated. In particular a
    spinning projectile at zero relative velocity has zero Magnus
    acceleration. *)
Theorem magnusForce_guard (s : ProjectileState) (e : EnvironmentState) :
  vsub (velocity s) (windVector e) = vzero \/ spin s = vzero ->
  magnusForce s e = vzero.
Proof.
  intros H. unfold magnusForce.
  destruct H as [H | H].
  - rewrite H, (Reqb_true _ _ (vlengthSq_zero _ eq_refl)). reflexivity.
  - rewrite H, (Reqb_true _ _ (vlengthSq_zero _ eq_refl)), orb_true_r. reflexivity.
Qed.

Lemma magnusForce_guard_witness :
  let s := mkState (mkVec3 0 2 0) (mkVec3 3 0 0) (mkVec3 0 0 50) qidentity
             0.45 0.03 0.3 0.1 0.5 (mkVec3 1 1 1) 0.11 in
  let e := mkEnv 9.81 (mkVec3 3 0 0) 1.2 in
  vsub (velocity s) (windVector e) = vzero /\ magnusForce s e = vzero.
Proof.
  intros s e.
  assert (H : vsub (velocity s) (windVector e) = vzero)
    by (unfold vsub, vzero; simpl; f_equal; ring).
  split; [exact H | apply magnusForce_guard; left; exact H].
Defined.

(** ** C8: velocity-dependent restitution *)

(** C8. In the bump-mapped resolver the normal impulse uses
    [effectiveRestitution e |v_n| = e * exp (-|v_n| / 20)].  For a base
    restitution in [0,1] it is non-increasing in the impact speed (strictly
    decreasing when [e > 0]), never exceeds [e], and is below 1 for every
    impact speed [|v_n| > 0]. *)
Theorem effectiveRestitution_bounds (e : R) :
  0 <= e <= 1 ->
  (forall a b, 0 <= a <= b ->
     SimulationBump.effectiveRestitution e b <= SimulationBump.effectiveRestitution e a) /\
  (0 < e -> forall a b, 0 <= a < b ->
     SimulationBump.effectiveRestitution e b < SimulationBump.effectiveRestitution e a) /\
  (forall a, 0 <= a -> SimulationBump.effectiveRestitution e a <= e) /\
  (forall vn, 0 < Rabs vn -> SimulationBump.effectiveRestitution e (Rabs vn) < 1).
Proof.
  intros He. unfold SimulationBump.effectiveRestitution.
  assert (Hmono : forall a b, a <= b -> exp (- b / 20.0) <= exp (- a / 20.0)).
  { intros a b Hab. destruct (Rle_lt_or_eq_dec a b Hab) as [Hlt | ->].
    - left. apply exp_increasing. lra.
    - lra. }
  assert (Hle1 : forall a, 0 <= a -> exp (- a / 20.0) <= 1).
  { intros a Ha. rewrite <- exp_0. destruct (Req_dec a 0) as [-> | Ha0].
    - replace (- 0 / 20.0) with 0 by lra. lra.
    - left. apply exp_increasing. lra. }
  split; [| split; [| split]].
  - intros a b Hab. apply Rmult_le_compat_l; [lra | apply Hmono; lra].
  - intros Hpos a b Hab. apply Rmult_lt_compat_l; [lra |]. apply exp_increasing. lra.
  - intros a Ha. specialize (Hle1 a Ha). assert (0 < exp (- a / 20.0)) by apply exp_pos. nra.
  - intros vn Hvn.
    assert (Hlt : exp (- Rabs vn / 20.0) < 1) by (rewrite <- exp_0; apply exp_increasing; lra).
    assert (0 < exp (- Rabs vn / 20.0)) by apply exp_pos. nra.
Qed.

Lemma effectiveRestitution_bounds_witness :
  (0 <= 1/2 <= 1) /\ SimulationBump.effectiveRestitution (1/2) (Rabs (-10)) < 1.
Proof.
  assert (H : 0 <= 1/2 <= 1) by lra.
  split; [exact H |].
  destruct (effectiveRestitution_bounds (1/2) H) as [_ [_ [_ Hd]]].
  apply Hd. rewrite Rabs_left; lra.
Defined.

Ltac split_ifs :=
  repeat match goal with
         | |- context [if ?b then _ else _] => destruct b
         end.

(** ** C1: head-on bounce *)

(** C1 (as amended). In the flat-ground resolver (normal [(0,1,0)], static
    restitution), a projectile with zero spin, zero tangential contact
    velocity, vertical velocity -10 m/s and restitution 0.5 (positive mass,
    radius and inertia) leaves the collision with vertical velocity exactly
    +5 m/s and unchanged horizontal velocity. *)
Theorem flat_headOn_bounce (s : ProjectileState) :
  spin s = vzero ->
  tangential_contact_velocity SimulationFlat.normal s = vzero ->
  vy (velocity s) = -10 ->
  restitution s = 0.5 ->
  0 < mass s -> 0 < radius s ->
  0 < vx (momentOfInertia s) -> 0 < vy (momentOfInertia s) -> 0 < vz (momentOfInertia s) ->
  vy (velocity (SimulationFlat.handleGroundCollision s)) = 5 /\
  vx (velocity (SimulationFlat.handleGroundCollision s)) = vx (velocity s) /\
  vz (velocity (SimulationFlat.handleGroundCollision s)) = vz (velocity s).
Proof.
  intros Hspin Htan Hvy He Hm Hr HIx HIy HIz.
  destruct s as [pos [vx0 vy0 vz0] sp rot m a cd sd e [Ix Iy Iz] r].
  simpl in *. subst sp vy0 e.
  unfold tangential_contact_velocity, contact_velocity, SimulationFlat.normal in Htan.
  unfold vsub, vadd, vcross, vscale, vdot, vzero in Htan. simpl in Htan.
  injection Htan as Hx _ Hz.
  assert (vx0 = 0) by lra. assert (vz0 = 0) by lra. subst vx0 vz0.
  set (s := mkState pos (mkVec3 0 (-10) 0) (mkVec3 0 0 0) rot m a cd sd 0.5 (mkVec3 Ix Iy Iz) r).
  unfold SimulationFlat.handleGroundCollision. cbv zeta.
  destruct (Rleb (-0.01) _) eqn:E1.
  { apply Rleb_spec in E1. exfalso. revert E1.
    cbv delta [vdot vadd vcross vscale SimulationFlat.normal s vzero
      vx vy vz position velocity spin radius mass momentOfInertia restitution] beta iota. lra. }
  destruct (Rltb 0.01 _) eqn:E2.
  { apply Rltb_spec in E2. exfalso. revert E2.
    cbv delta [vlength vlengthSq vsub vdot vadd vcross vscale SimulationFlat.normal s vzero
      vx vy vz position velocity spin radius mass momentOfInertia restitution] beta iota.
    match goal with |- context [sqrt ?x] => replace x with 0 by ring end.
    rewrite sqrt_0. lra. }
  cbv delta [set_position set_spin set_velocity vset_y vaddScaled vdivc vdot vadd vcross
             vscale SimulationFlat.normal s vzero
      vx vy vz position velocity spin radius mass momentOfInertia restitution] beta iota.
  match goal with |- context [1 / m + ?x] => replace x with 0 by (field; lra) end.
  unfold Q2R. cbn [QArith_base.Qnum QArith_base.Qden].
  split; [| split].
  - field. lra.
  - ring.
  - ring.
Qed.

Lemma bump_normal_origin :
  SimulationBump.getGroundNormal 0 0 =
  mkVec3 (0.15 / sqrt 1.045) (1 / sqrt 1.045) (0.15 / sqrt 1.045).
Proof.
  unfold SimulationBump.getGroundNormal. cbv zeta.
  rewrite !Rmult_0_l, sin_0, cos_0.
  assert (HL : 0 < sqrt 1.045) by (apply sqrt_lt_R0; lra).
  unfold vnormalize, vlength, vlengthSq, vscale.
  cbv delta [vx vy vz] beta iota.
  replace ((0 + 1) * 0.15 * ((0 + 1) * 0.15) + 1 * 1 + (1 + 0) * 0.15 * ((1 + 0) * 0.15))
    with 1.045 by (unfold Q2R; cbn [QArith_base.Qnum QArith_base.Qden]; field).
  rewrite (Reqb_false (sqrt 1.045) 0) by lra.
  f_equal; field; lra.
Qed.

Lemma Rleb_false_inv (a b : R) : Rleb a b = false -> b < a.
Proof. unfold Rleb. destruct (Rle_dec a b); [discriminate | lra]. Qed.

Ltac qnum := unfold Q2R in *; cbn [QArith_base.Qnum QArith_base.Qden] in *.

(** C1. In the bump-mapped resolver the same head-on impact does not
    give +5 m/s and unchanged horizontal velocity: at [x = z = 0] the ground
    normal is tilted, so a ball with zero spin, zero tangential contact
    velocity (relative to that normal), vertical velocity -10 m/s and
    restitution 0.5 leaves with a changed horizontal velocity and a rebound
    below 4 m/s (the restitution is scaled by [exp(-|v_n|/20)]). *)
Lemma bump_headOn_bounce_counterexample :
  let eng := SimulationBump.mkEngine (Turbulence.create 0 0 0) 0
               (SimulationBump.mkSurface 0.6 0.5) in
  let s := mkState (mkVec3 0 0.11 0) (mkVec3 (-1.5) (-10) (-1.5)) vzero qidentity
             0.45 0.038 0.3 0.1 0.5 (mkVec3 0.002 0.002 0.002) 0.11 in
  spin s = vzero /\
  tangential_contact_velocity (SimulationBump.getGroundNormal 0 0) s = vzero /\
  vy (velocity s) = -10 /\ restitution s = 0.5 /\
  vx (velocity (SimulationBump.handleGroundCollision eng s)) <> vx (velocity s) /\
  vy (velocity (SimulationBump.handleGroundCollision eng s)) < 4.
Proof.
  intros eng s.
  assert (HL : 0 < sqrt 1.045) by (apply sqrt_lt_R0; lra).
  assert (HL2 : sqrt 1.045 * sqrt 1.045 = 1.045) by (apply sqrt_sqrt; lra).
  assert (HL1 : 1 < sqrt 1.045) by (rewrite <- sqrt_1; apply sqrt_lt_1; lra).
  split; [reflexivity |].
  split.
  { rewrite bump_normal_origin. revert HL HL2. generalize (sqrt 1.045). intros L HL HL2.
    unfold tangential_contact_velocity, contact_velocity, s.
    cbv delta [vsub vadd vcross vscale vdot vzero vx vy vz velocity spin radius] beta iota.
    qnum. f_equal; field_simplify; try lra; replace (L ^ 2) with (L * L) by ring;
      rewrite HL2; field. }
  split; [reflexivity |].
  split; [reflexivity |].
  unfold SimulationBump.handleGroundCollision. cbv zeta.
  change (vx (position s)) with 0. change (vz (position s)) with 0.
  rewrite bump_normal_origin.
  revert HL HL2 HL1. generalize (sqrt 1.045). intros L HL HL2 HL1.
  assert (HL2' : L < 2) by nra.
  assert (Hy : 1/2 < / L < 1).
  { split.
    - apply (Rmult_lt_reg_l L); [lra |]. rewrite Rinv_r by lra. lra.
    - rewrite <- Rinv_1. apply Rinv_lt_contravar; lra. }
  destruct (Rleb (-0.01) _) eqn:E1.
  { apply Rleb_spec in E1. exfalso.
    match type of E1 with _ <= ?x => assert (Hx : x = - (1045 / 100) * / L) end.
    { cbv delta [vdot vadd vcross vscale vx vy vz s position velocity spin radius vzero] beta iota.
      qnum. field. lra. }
    rewrite Hx in E1. lra. }
  apply Rleb_false_inv in E1.
  match type of E1 with ?x < _ => assert (Hx : x = - (1045 / 100) * / L) end.
  { cbv delta [vdot vadd vcross vscale vx vy vz s position velocity spin radius vzero] beta iota.
    qnum. field. lra. }
  rewrite Hx. clear E1 Hx.
  match goal with |- context [Rltb 0.01 (vlength ?t)] => assert (Ht : t = vzero) end.
  { cbv delta [vsub vdot vadd vcross vscale vx vy vz s position velocity spin radius vzero] beta iota.
    qnum. f_equal; field_simplify; try lra; replace (L ^ 2) with (L * L) by ring;
      rewrite HL2; field. }
  rewrite Ht. clear Ht.
  replace (vlength vzero) with 0
    by (unfold vlength, vlengthSq, vzero; cbv delta [vx vy vz] beta iota;
        replace (0 * 0 + 0 * 0 + 0 * 0) with 0 by ring; symmetry; apply sqrt_0).
  rewrite (Rltb_false 0.01 0) by lra.
  match goal with |- context [1 / mass s + ?d] => replace d with 0 end.
  2:{ cbv delta [vdot vcross vscale vdivc vx vy vz s momentOfInertia radius] beta iota.
      qnum. field. lra. }
  assert (Heff : 0 < SimulationBump.effectiveRestitution (restitution s)
                       (Rabs (- (1045 / 100) * / L)) < 2 / 5).
  { unfold SimulationBump.effectiveRestitution.
    change (restitution s) with 0.5.
    assert (HLlt : L < 1.045) by (qnum; nra).
    assert (Hinv : 1000 / 1045 < / L).
    { apply (Rmult_lt_reg_r L); [lra |]. rewrite Rinv_l by lra. qnum. lra. }
    rewrite Rabs_left by (assert (0 < / L) by (apply Rinv_0_lt_compat; lra); nra).
    assert (Hx0 : 1 / 2 < - - (1045 / 100 * / L) / 20.0) by (qnum; lra).
    assert (Hl : exp (- - (1045 / 100 * / L) / 20.0) > 3 / 2).
    { apply Rlt_trans with (exp (1 / 2)).
      - assert (H1 := exp_ineq1 (1 / 2)). lra.
      - apply exp_increasing. exact Hx0. }
    replace (- - (- (1045 / 100) * / L) / 20.0) with (- (- - (1045 / 100 * / L) / 20.0))
      by (qnum; field; lra).
    rewrite exp_Ropp.
    assert (Hp : 0 < / exp (- - (1045 / 100 * / L) / 20.0))
      by (apply Rinv_0_lt_compat; apply exp_pos).
    assert (Hq : / exp (- - (1045 / 100 * / L) / 20.0) < 2 / 3).
    { apply (Rmult_lt_reg_l (exp (- - (1045 / 100 * / L) / 20.0))); [apply exp_pos |].
      rewrite Rinv_r by (apply Rgt_not_eq, exp_pos). lra. }
    qnum. split; nra. }
  generalize dependent (SimulationBump.effectiveRestitution (restitution s)
                          (Rabs (- (1045 / 100) * / L))).
  intros eff Heff.
  cbv delta [set_position set_spin set_velocity vaddScaled vscale vx vy vz s position velocity mass] beta iota.
  qnum.
  match goal with |- ?a <> _ /\ ?b < _ => replace a with (3 / 2 * eff); [replace b with (10 * eff) |] end.
  - split; lra.
  - field_simplify; try lra. replace (L ^ 2) with (L * L) by ring. rewrite HL2. field.
  - field_simplify; try lra. replace (L ^ 2) with (L * L) by ring. rewrite HL2. field.
Qed.

Lemma flat_headOn_bounce_witness :
  let s := mkState (mkVec3 0 0.11 0) (mkVec3 0 (-10) 0) vzero qidentity
             0.45 0.038 0.3 0.1 0.5 (mkVec3 0.002 0.002 0.002) 0.11 in
  tangential_contact_velocity SimulationFlat.normal s = vzero /\
  vy (velocity (SimulationFlat.handleGroundCollision s)) = 5 /\
  vx (velocity (SimulationFlat.handleGroundCollision s)) = vx (velocity s) /\
  vz (velocity (SimulationFlat.handleGroundCollision s)) = vz (velocity s).
Proof.
  intros s.
  assert (Ht : tangential_contact_velocity SimulationFlat.normal s = vzero).
  { unfold tangential_contact_velocity, contact_velocity, s.
    cbv delta [vsub vadd vcross vscale vdot vzero SimulationFlat.normal
      vx vy vz position velocity spin radius] beta iota.
    f_equal; ring. }
  split; [exact Ht |].
  apply flat_headOn_bounce; [reflexivity | exact Ht | reflexivity | reflexivity | | | | |];
    cbv delta [s mass radius momentOfInertia vx vy vz] beta iota; lra.
Defined.

(** ** C3: quadratic drag *)
Lemma Rpower_pos (x y : R) : 0 < Rpower x y.
Proof. unfold Rpower. apply exp_pos. Qed.

Lemma airViscosity_pos : 0 < airViscosity SEA_LEVEL_TEMP.
Proof.
  unfold airViscosity. cbv zeta.
  assert (H := Rpower_pos (SEA_LEVEL_TEMP / 291.15) 1.5).
  generalize dependent (Rpower (SEA_LEVEL_TEMP / 291.15) 1.5). intros P HP.
  unfold SEA_LEVEL_TEMP. qnum.
  apply Rdiv_lt_0_compat; [| lra].
  apply Rmult_lt_0_compat; [apply Rmult_lt_0_compat |]; lra.
Qed.

Lemma getDragCoefficient_nonneg (re baseCd : R) :
  0 < re -> 0 <= baseCd -> 0 <= getDragCoefficient re baseCd.
Proof.
  intros Hre Hb. unfold getDragCoefficient, Rltb.
  destruct (Rlt_dec re 1).
  { apply Rlt_le, Rdiv_lt_0_compat; lra. }
  destruct (Rlt_dec re 1000).
  { assert (H := Rpower_pos re 0.687).
    apply Rlt_le, Rmult_lt_0_compat; [apply Rdiv_lt_0_compat |]; qnum; lra. }
  destruct (Rlt_dec re 300000); [exact Hb |].
  destruct (Rlt_dec re 500000).
  { cbv zeta. apply Rmult_le_pos; [exact Hb |]. qnum.
    apply Rle_trans with (1 - 6 / 10 * 1); [lra |].
    apply Rplus_le_compat_l, Ropp_le_contravar, Rmult_le_compat_l; [lra |].
    apply (Rmult_le_reg_r 200000); [lra |]. unfold Rdiv. rewrite Rmult_assoc, Rinv_l; lra. }
  qnum. lra.
Qed.

Lemma airDensityAtAltitude_pos (h rho0 : R) : 0 < rho0 -> 0 < airDensityAtAltitude h rho0.
Proof. intros H. unfold airDensityAtAltitude. apply Rmult_lt_0_compat; [exact H | apply exp_pos]. Qed.

(** C3. [dragForce] returns the zero vector when the relative speed
    [|velocity - wind|] is zero and otherwise
    [-(0.5 Cd rho A / m) |v_rel| v_rel], with [rho] the density at
    [max(0, y)] and [Cd] the Reynolds-adjusted coefficient at the current
    relative speed and diameter [2 r].  For physical parameters (positive
    mass, radius and sea-level density, non-negative area and base drag
    coefficient) the coefficient [0.5 Cd rho A / m] is non-negative, so the
    result is a non-positive multiple of the relative velocity and its dot
    product with the relative velocity is non-positive. *)
Theorem dragForce_quadratic (s : ProjectileState) (e : EnvironmentState) :
  let vrel := vsub (velocity s) (windVector e) in
  let speed := vlength vrel in
  let rho := airDensityAtAltitude (Rmax 0 (vy (position s))) (airDensity e) in
  let cd := getDragCoefficient
              (reynoldsNumber speed (radius s * 2) rho (airViscosity SEA_LEVEL_TEMP))
              (dragCoefficient s) in
  let k := 0.5 * cd * rho * area s / mass s in
  (speed = 0 -> dragForce s e = vzero) /\
  (speed <> 0 -> dragForce s e = vscale vrel (- k * speed)) /\
  (0 < mass s -> 0 <= area s -> 0 < radius s -> 0 < airDensity e ->
   0 <= dragCoefficient s ->
   0 <= k /\ vdot (dragForce s e) vrel <= 0).
Proof.
  intros vrel speed rho cd k.
  assert (Hd0 : speed = 0 -> dragForce s e = vzero).
  { intros H0. unfold dragForce. fold vrel. fold speed. rewrite (Reqb_true speed 0 H0). reflexivity. }
  assert (Hd1 : speed <> 0 -> dragForce s e = vscale vrel (- k * speed)).
  { intros H0. unfold dragForce. fold vrel. fold speed. rewrite (Reqb_false speed 0 H0). reflexivity. }
  split; [exact Hd0 | split; [exact Hd1 |]].
  intros Hm Ha Hr Hrho Hb.
  assert (Hsp : 0 <= speed) by (apply sqrt_pos).
  assert (Hrho' : 0 < rho) by (apply airDensityAtAltitude_pos; exact Hrho).
  assert (Hk : 0 <= k).
  { destruct (Req_dec speed 0) as [H0 | H0].
    - unfold k, cd. rewrite H0. unfold reynoldsNumber.
      rewrite Rmult_0_r, Rmult_0_l, Rdiv_0_l.
      unfold getDragCoefficient. rewrite (Rltb_true 0 1) by lra.
      rewrite Rdiv_0_r. qnum. unfold Rdiv. rewrite !Rmult_0_r, !Rmult_0_l. lra.
    - assert (Hmu := airViscosity_pos).
      assert (Hre : 0 < reynoldsNumber speed (radius s * 2) rho (airViscosity SEA_LEVEL_TEMP)).
      { unfold reynoldsNumber. apply Rdiv_lt_0_compat; [| exact Hmu].
        apply Rmult_lt_0_compat; [apply Rmult_lt_0_compat |]; lra. }
      assert (Hc := getDragCoefficient_nonneg _ _ Hre Hb). fold cd in Hc.
      unfold k. apply Rmult_le_pos; [| apply Rlt_le, Rinv_0_lt_compat; exact Hm].
      qnum. apply Rmult_le_pos; [apply Rmult_le_pos; [apply Rmult_le_pos |] |]; lra. }
  split; [exact Hk |].
  destruct (Req_dec speed 0) as [H0 | H0].
  - rewrite (Hd0 H0). unfold vdot, vzero. cbv delta [vx vy vz] beta iota. lra.
  - rewrite (Hd1 H0). unfold vdot, vscale. cbv delta [vx vy vz] beta iota.
    assert (Hn : 0 <= vx vrel * vx vrel + vy vrel * vy vrel + vz vrel * vz vrel) by nra.
    assert (Hks : 0 <= k * speed) by (apply Rmult_le_pos; lra).
    replace (vx vrel * (- k * speed) * vx vrel + vy vrel * (- k * speed) * vy vrel +
             vz vrel * (- k * speed) * vz vrel)
      with (- (k * speed) * (vx vrel * vx vrel + vy vrel * vy vrel + vz vrel * vz vrel)) by ring.
    nra.
Qed.

Lemma dragForce_quadratic_witness :
  let s := mkState (mkVec3 0 2 0) (mkVec3 30 5 0) vzero qidentity
             0.45 0.038 0.3 0.1 0.5 (mkVec3 0.002 0.002 0.002) 0.11 in
  let e := mkEnv 9.81 (mkVec3 2 0 0) 1.225 in
  vdot (dragForce s e) (vsub (velocity s) (windVector e)) <= 0.
Proof.
  intros s e.
  destruct (dragForce_quadratic s e) as [_ [_ H]].
  refine (proj2 (H _ _ _ _ _));
    cbv delta [s e mass area radius airDensity dragCoefficient] beta iota; lra.
Defined.

(** ** C4: drag coefficient at the regime boundaries *)
Lemma gdc_stokes (re b : R) : re < 1 -> getDragCoefficient re b = 24 / re.
Proof. intros H. unfold getDragCoefficient. rewrite (Rltb_true re 1 H). reflexivity. Qed.

Lemma gdc_transition (re b : R) : 1 <= re < 1000 -> getDragCoefficient re b = transitionCd re.
Proof.
  intros H. unfold getDragCoefficient. rewrite (Rltb_false re 1), (Rltb_true re 1000) by lra.
  reflexivity.
Qed.

Lemma gdc_subcritical (re b : R) : 1000 <= re < 300000 -> getDragCoefficient re b = b.
Proof.
  intros H. unfold getDragCoefficient.
  rewrite (Rltb_false re 1), (Rltb_false re 1000), (Rltb_true re 300000) by lra.
  reflexivity.
Qed.

Lemma gdc_crisis (re b : R) : 300000 <= re < 500000 ->
  getDragCoefficient re b = b * (1 - 0.6 * ((re - 300000) / 200000)).
Proof.
  intros H. unfold getDragCoefficient.
  rewrite (Rltb_false re 1), (Rltb_false re 1000), (Rltb_false re 300000),
    (Rltb_true re 500000) by lra.
  reflexivity.
Qed.

Lemma gdc_supercritical (re b : R) : 500000 <= re -> getDragCoefficient re b = b * 0.4.
Proof.
  intros H. unfold getDragCoefficient.
  rewrite (Rltb_false re 1), (Rltb_false re 1000), (Rltb_false re 300000),
    (Rltb_false re 500000) by lra.
  reflexivity.
Qed.

Lemma continuous_at_lipschitz (f : R -> R) (x K d0 : R) :
  0 <= K -> 0 < d0 ->
  (forall y, Rabs (y - x) < d0 -> Rabs (f y - f x) <= K * Rabs (y - x)) ->
  continuous_at f x.
Proof.
  intros HK Hd0 Hf eps Heps.
  exists (Rmin d0 (eps / (K + 1))). split.
  { apply Rmin_pos; [exact Hd0 | apply Rdiv_lt_0_compat; lra]. }
  intros y Hy.
  assert (H1 : Rabs (y - x) < d0) by (eapply Rlt_le_trans; [exact Hy | apply Rmin_l]).
  assert (H2 : Rabs (y - x) < eps / (K + 1)) by (eapply Rlt_le_trans; [exact Hy | apply Rmin_r]).
  assert (H3 : Rabs (y - x) * (K + 1) < eps).
  { apply (Rmult_lt_compat_r (K + 1)) in H2; [| lra].
    unfold Rdiv in H2. rewrite Rmult_assoc, Rinv_l in H2 by lra. lra. }
  assert (H4 := Rabs_pos (y - x)).
  specialize (Hf y H1). nra.
Qed.

Lemma continuity_pt_continuous_at (g : R -> R) (x : R) :
  continuity_pt g x -> continuous_at g x.
Proof.
  unfold continuity_pt, continue_in, limit1_in, limit_in.
  intros H eps Heps. destruct (H eps Heps) as [d [Hd Hy]].
  exists d. split; [exact Hd |]. intros y Hyx.
  destruct (Req_dec y x) as [-> | Hne].
  - rewrite Rminus_diag, Rabs_R0. exact Heps.
  - apply (Hy y). split.
    + unfold D_x, no_cond. split; [exact I | congruence].
    + exact Hyx.
Qed.

Lemma transitionCd_continuous : continuity_pt transitionCd 1000.
Proof.
  unfold transitionCd.
  change (continuity_pt (mult_fct (div_fct (fct_cte 24) id)
            (plus_fct (fct_cte 1) (mult_fct (fct_cte 0.15) (fun re => Rpower re 0.687)))) 1000).
  apply continuity_pt_mult.
  - apply continuity_pt_div.
    + apply continuity_pt_const. unfold constant, fct_cte. reflexivity.
    + apply derivable_continuous_pt, derivable_pt_id.
    + unfold id. lra.
  - apply continuity_pt_plus.
    + apply continuity_pt_const. unfold constant, fct_cte. reflexivity.
    + apply continuity_pt_mult.
      * apply continuity_pt_const. unfold constant, fct_cte. reflexivity.
      * apply derivable_continuous_pt.
        exists (0.687 * Rpower 1000 (0.687 - 1)).
        apply derivable_pt_lim_power. lra.
Qed.

Lemma Rpower_1_base (y : R) : Rpower 1 y = 1.
Proof. unfold Rpower. rewrite ln_1, Rmult_0_r. apply exp_0. Qed.

Lemma Rabs_lt_elim (x a : R) : Rabs x < a -> - a < x < a.
Proof. intros H. unfold Rabs in H. destruct (Rcase_abs x); lra. Qed.

Lemma gdc_jump_1 (b : R) : ~ continuous_at (fun re => getDragCoefficient re b) 1.
Proof.
  intros H. destruct (H 1 ltac:(lra)) as [d [Hd Hy]].
  set (y := 1 - Rmin (d / 2) (1 / 100)).
  assert (Hm1 : 0 < Rmin (d / 2) (1 / 100)) by (apply Rmin_pos; lra).
  assert (Hm2 : Rmin (d / 2) (1 / 100) <= d / 2) by apply Rmin_l.
  assert (Hm3 : Rmin (d / 2) (1 / 100) <= 1 / 100) by apply Rmin_r.
  assert (Hyd : Rabs (y - 1) < d).
  { unfold y. rewrite Rabs_left by lra. lra. }
  specialize (Hy y Hyd). cbv beta in Hy.
  rewrite (gdc_stokes y b) in Hy by (unfold y; lra).
  rewrite (gdc_transition 1 b) in Hy by lra.
  unfold transitionCd in Hy. rewrite Rpower_1_base in Hy.
  apply Rabs_lt_elim in Hy.
  assert (Hy0 : 99 / 100 <= y < 1) by (unfold y; lra).
  assert (Hz : 24 / y * y = 24) by (field; lra).
  generalize dependent (24 / y). intros z Hz Hy. qnum. nra.
Qed.

Lemma gdc_at_1000 (b : R) :
  continuous_at (fun re => getDragCoefficient re b) 1000 <-> b = transitionCd 1000.
Proof.
  assert (Hg := continuity_pt_continuous_at _ _ transitionCd_continuous).
  assert (Hf0 : getDragCoefficient 1000 b = b) by (apply gdc_subcritical; lra).
  split.
  - intros Hf. destruct (Req_dec b (transitionCd 1000)) as [E | E]; [exact E | exfalso].
    assert (Heps : 0 < Rabs (b - transitionCd 1000) / 2).
    { apply Rdiv_lt_0_compat; [apply Rabs_pos_lt; lra | lra]. }
    destruct (Hf _ Heps) as [d1 [Hd1 H1]].
    destruct (Hg _ Heps) as [d2 [Hd2 H2]].
    set (m := Rmin (Rmin d1 d2) 1).
    assert (Hm : 0 < m) by (apply Rmin_pos; [apply Rmin_pos |]; lra).
    assert (Hm1 : m <= Rmin d1 d2) by apply Rmin_l.
    assert (Hm2 : m <= 1) by apply Rmin_r.
    assert (Hm3 : Rmin d1 d2 <= d1) by apply Rmin_l.
    assert (Hm4 : Rmin d1 d2 <= d2) by apply Rmin_r.
    assert (Hy : Rabs (1000 - m / 2 - 1000) < d1 /\ Rabs (1000 - m / 2 - 1000) < d2).
    { rewrite Rabs_left by lra. lra. }
    specialize (H1 _ (proj1 Hy)). specialize (H2 _ (proj2 Hy)). cbv beta in H1.
    rewrite Hf0, (gdc_transition (1000 - m / 2) b) in H1 by lra.
    apply Rabs_lt_elim in H1. apply Rabs_lt_elim in H2.
    unfold Rabs in *. destruct (Rcase_abs (b - transitionCd 1000)); lra.
  - intros Eb eps Heps. destruct (Hg eps Heps) as [d [Hd H]].
    exists (Rmin d 1). split; [apply Rmin_pos; lra |].
    intros y Hy. cbv beta.
    assert (Hyd : Rabs (y - 1000) < d) by (eapply Rlt_le_trans; [exact Hy | apply Rmin_l]).
    assert (Hy1 : Rabs (y - 1000) < 1) by (eapply Rlt_le_trans; [exact Hy | apply Rmin_r]).
    apply Rabs_lt_elim in Hy1.
    rewrite Hf0.
    destruct (Rlt_dec y 1000) as [Hlt | Hge].
    + rewrite (gdc_transition y b) by lra. rewrite Eb. exact (H y Hyd).
    + rewrite (gdc_subcritical y b) by lra. rewrite Rminus_diag, Rabs_R0. exact Heps.
Qed.

Lemma gdc_at_300000 (b : R) : continuous_at (fun re => getDragCoefficient re b) 300000.
Proof.
  apply (continuous_at_lipschitz _ _ (Rabs b * (3 / 1000000)) 1000).
  { apply Rmult_le_pos; [apply Rabs_pos | lra]. }
  { lra. }
  intros y Hy. cbv beta. apply Rabs_lt_elim in Hy.
  rewrite (gdc_crisis 300000 b) by lra.
  destruct (Rlt_dec y 300000) as [Hlt | Hge].
  - rewrite (gdc_subcritical y b) by lra.
    replace (b - b * (1 - 0.6 * ((300000 - 300000) / 200000))) with 0 by (qnum; field).
    rewrite Rabs_R0. apply Rmult_le_pos; [apply Rmult_le_pos; [apply Rabs_pos | lra] | apply Rabs_pos].
  - rewrite (gdc_crisis y b) by lra.
    replace (b * (1 - 0.6 * ((y - 300000) / 200000)) - b * (1 - 0.6 * ((300000 - 300000) / 200000)))
      with (b * (- (3 / 1000000)) * (y - 300000)) by (qnum; field).
    rewrite !Rabs_mult, (Rabs_left (- (3 / 1000000))) by lra.
    rewrite Ropp_involutive. lra.
Qed.

Lemma gdc_at_500000 (b : R) : continuous_at (fun re => getDragCoefficient re b) 500000.
Proof.
  apply (continuous_at_lipschitz _ _ (Rabs b * (3 / 1000000)) 1000).
  { apply Rmult_le_pos; [apply Rabs_pos | lra]. }
  { lra. }
  intros y Hy. cbv beta. apply Rabs_lt_elim in Hy.
  rewrite (gdc_supercritical 500000 b) by lra.
  destruct (Rlt_dec y 500000) as [Hlt | Hge].
  - rewrite (gdc_crisis y b) by lra.
    replace (b * (1 - 0.6 * ((y - 300000) / 200000)) - b * 0.4)
      with (b * (- (3 / 1000000)) * (y - 500000)) by (qnum; field).
    rewrite !Rabs_mult, (Rabs_left (- (3 / 1000000))) by lra.
    rewrite Ropp_involutive. lra.
  - rewrite (gdc_supercritical y b) by lra.
    rewrite Rminus_diag, Rabs_R0.
    apply Rmult_le_pos; [apply Rmult_le_pos; [apply Rabs_pos | lra] | apply Rabs_pos].
Qed.

(** C4 (as amended). For every base drag coefficient [baseCd],
    [dragCoefficient(Re, baseCd)] is continuous at [Re = 300000] and
    [Re = 500000] (both sides of the linear drag-crisis blend agree); it has
    a jump at [Re = 1] (the Stokes value 24 meets the transition value 27.6);
    and it is continuous at [Re = 1000] exactly when [baseCd] equals the
    transition-regime value [24/1000 (1 + 0.15 1000^0.687)]. *)
Theorem getDragCoefficient_boundaries (baseCd : R) :
  continuous_at (fun re => getDragCoefficient re baseCd) 300000 /\
  continuous_at (fun re => getDragCoefficient re baseCd) 500000 /\
  ~ continuous_at (fun re => getDragCoefficient re baseCd) 1 /\
  (continuous_at (fun re => getDragCoefficient re baseCd) 1000 <->
     baseCd = 24 / 1000 * (1 + 0.15 * Rpower 1000 0.687)).
Proof.
  split; [apply gdc_at_300000 |].
  split; [apply gdc_at_500000 |].
  split; [apply gdc_jump_1 |].
  apply gdc_at_1000.
Qed.

(** C4. For the representative base coefficient 0.47 (a smooth sphere),
    [dragCoefficient] takes the value 27.6 at [Re = 1] but at most 24.25 just
    below it, on [0.99, 1): it is not continuous at the boundary [Re = 1]. *)
Lemma getDragCoefficient_jump_counterexample :
  getDragCoefficient 1 0.47 = 27.6 /\
  (forall re, 0.99 <= re < 1 -> getDragCoefficient re 0.47 <= 24.25) /\
  ~ continuous_at (fun re => getDragCoefficient re 0.47) 1.
Proof.
  split.
  { rewrite gdc_transition by lra. unfold transitionCd. rewrite Rpower_1_base. qnum. field. }
  split; [| apply gdc_jump_1].
  intros re Hre. rewrite gdc_stokes by lra. unfold Rdiv.
  apply (Rmult_le_reg_r re); [lra |].
  rewrite Rmult_assoc, Rinv_l by lra. qnum. lra.
Qed.

(** ** C6: return conventions of the force functions *)
Lemma vx_vscale (a : Vec3) (c : R) : vx (vscale a c) = vx a * c.
Proof. reflexivity. Qed.

Lemma gravityForce_is_force (s : ProjectileState) (e : EnvironmentState) :
  gravityForce s e = gravity_force_law s e.
Proof.
  unfold gravityForce, gravity_force_law, vscale.
  cbv delta [vx vy vz] beta iota. f_equal; ring.
Qed.

Lemma dragForce_is_acceleration (s : ProjectileState) (e : EnvironmentState) :
  0 < mass s -> dragForce s e = as_acceleration (drag_force_law s e) (mass s).
Proof.
  intros Hm. unfold dragForce, drag_force_law, as_acceleration. cbv zeta.
  destruct (Reqb _ 0).
  - unfold vscale, vzero. cbv delta [vx vy vz] beta iota. f_equal; ring.
  - unfold vscale. cbv delta [vx vy vz] beta iota. f_equal; field; lra.
Qed.

Lemma magnusForce_is_acceleration (s : ProjectileState) (e : EnvironmentState) :
  0 < mass s -> magnusForce s e = as_acceleration (magnus_force_law s e) (mass s).
Proof.
  intros Hm. unfold magnusForce, magnus_force_law, as_acceleration. cbv zeta.
  destruct (orb _ _).
  - unfold vscale, vzero. cbv delta [vx vy vz] beta iota. f_equal; ring.
  - unfold vscale. cbv delta [vx vy vz] beta iota. f_equal; field; lra.
Qed.

(** C6 (as amended). The force model mixes conventions: [gravityForce]
    returns the raw force [m g], while [dragForce] and [magnusForce] return
    accelerations (their force laws divided by the mass).  [totalAcceleration]
    compensates by dividing only the gravity term by the mass, so for a
    positive mass it returns [(F_gravity + F_drag + F_magnus) / m]. *)
Theorem force_conventions (s : ProjectileState) (e : EnvironmentState) :
  0 < mass s ->
  gravityForce s e = gravity_force_law s e /\
  dragForce s e = as_acceleration (drag_force_law s e) (mass s) /\
  magnusForce s e = as_acceleration (magnus_force_law s e) (mass s) /\
  totalAcceleration s e =
    as_acceleration (vadd (vadd (gravity_force_law s e) (drag_force_law s e))
                       (magnus_force_law s e)) (mass s).
Proof.
  intros Hm.
  assert (Hg := gravityForce_is_force s e).
  assert (Hd := dragForce_is_acceleration s e Hm).
  assert (Hf := magnusForce_is_acceleration s e Hm).
  split; [exact Hg | split; [exact Hd | split; [exact Hf |]]].
  unfold totalAcceleration. cbv zeta. rewrite Hg, Hd, Hf.
  generalize (gravity_force_law s e) (drag_force_law s e) (magnus_force_law s e).
  intros [gx gy gz] [dx dy dz] [mx my mz].
  unfold as_acceleration, vadd, vscale, vzero. cbv delta [vx vy vz] beta iota.
  f_equal; field; lra.
Qed.

Lemma force_conventions_witness :
  let s := mkState (mkVec3 0 2 0) (mkVec3 30 5 0) vzero qidentity
             0.45 0.038 0.3 0.1 0.5 (mkVec3 0.002 0.002 0.002) 0.11 in
  let e := mkEnv 9.81 vzero 1.225 in
  0 < mass s /\ gravityForce s e = gravity_force_law s e.
Proof.
  intros s e.
  assert (Hm : 0 < mass s) by (cbv delta [s mass] beta iota; lra).
  split; [exact Hm |].
  destruct (force_conventions s e Hm) as [Hg _]. exact Hg.
Defined.

Lemma getDragCoefficient_pos (re baseCd : R) :
  0 < re -> 0 < baseCd -> 0 < getDragCoefficient re baseCd.
Proof.
  intros Hre Hb. unfold getDragCoefficient, Rltb.
  destruct (Rlt_dec re 1).
  { apply Rdiv_lt_0_compat; lra. }
  destruct (Rlt_dec re 1000).
  { assert (H := Rpower_pos re 0.687).
    apply Rmult_lt_0_compat; [apply Rdiv_lt_0_compat |]; qnum; lra. }
  destruct (Rlt_dec re 300000); [exact Hb |].
  destruct (Rlt_dec re 500000).
  { cbv zeta. apply Rmult_lt_0_compat; [exact Hb |]. qnum.
    apply Rlt_le_trans with (1 - 6 / 10 * 1); [lra |].
    apply Rplus_le_compat_l, Ropp_le_contravar, Rmult_le_compat_l; [lra |].
    apply (Rmult_le_reg_r 200000); [lra |]. unfold Rdiv. rewrite Rmult_assoc, Rinv_l; lra. }
  qnum. lra.
Qed.

(** C6. At a concrete state of mass 2 kg moving at 3 m/s through still air,
    the force functions follow no single convention: [gravityForce] matches
    the force law but not the acceleration, and [dragForce] matches the
    acceleration but not the (non-zero) force law. *)
Lemma force_conventions_counterexample :
  let s := mkState vzero (mkVec3 3 0 0) vzero qidentity
             2 0.038 0.47 0.1 0.5 (mkVec3 1 1 1) 0.11 in
  let e := mkEnv 9.81 vzero 1.225 in
  ~ same_convention_at s e.
Proof.
  intros s e.
  assert (Hm : 0 < mass s) by (cbv delta [s mass] beta iota; lra).
  assert (Hg := gravityForce_is_force s e).
  assert (Hd := dragForce_is_acceleration s e Hm).
  assert (Hsp : 0 < vlength (vsub (velocity s) (windVector e))).
  { unfold vlength. apply sqrt_lt_R0.
    cbv delta [vlengthSq vsub s e vx vy vz velocity windVector vzero] beta iota. lra. }
  assert (Hrho : 0 < airDensityAtAltitude (Rmax 0 (vy (position s))) (airDensity e))
    by (apply airDensityAtAltitude_pos; cbv delta [e airDensity] beta iota; lra).
  assert (Hcd : 0 < getDragCoefficient
                  (reynoldsNumber (vlength (vsub (velocity s) (windVector e))) (radius s * 2)
                     (airDensityAtAltitude (Rmax 0 (vy (position s))) (airDensity e))
                     (airViscosity SEA_LEVEL_TEMP)) (dragCoefficient s)).
  { apply getDragCoefficient_pos.
    - unfold reynoldsNumber. apply Rdiv_lt_0_compat; [| apply airViscosity_pos].
      apply Rmult_lt_0_compat; [apply Rmult_lt_0_compat; [exact Hrho | exact Hsp] |].
      cbv delta [s radius] beta iota. lra.
    - cbv delta [s dragCoefficient] beta iota. lra. }
  assert (Hx : vx (drag_force_law s e) <> 0).
  { unfold drag_force_law. cbv zeta.
    rewrite (Reqb_false _ 0) by lra.
    generalize dependent (getDragCoefficient
                  (reynoldsNumber (vlength (vsub (velocity s) (windVector e))) (radius s * 2)
                     (airDensityAtAltitude (Rmax 0 (vy (position s))) (airDensity e))
                     (airViscosity SEA_LEVEL_TEMP)) (dragCoefficient s)).
    generalize dependent (airDensityAtAltitude (Rmax 0 (vy (position s))) (airDensity e)).
    generalize dependent (vlength (vsub (velocity s) (windVector e))).
    intros sp Hsp rho Hrho cd Hcd.
    cbv delta [vscale vsub s e vx vy vz velocity windVector vzero area] beta iota.
    qnum. intros H.
    assert (Hp : 0 < cd * rho * sp) by (repeat apply Rmult_lt_0_compat; assumption).
    revert H. match goal with |- ?a = 0 -> _ =>
      replace a with (- (57 / 1000) * (cd * rho * sp)) by field end.
    lra. }
  intros [[_ [Hd' _]] | [Hg' _]].
  - apply Hx. rewrite Hd' in Hd.
    assert (Hv := f_equal vx Hd). unfold as_acceleration in Hv.
    rewrite vx_vscale in Hv. change (mass s) with 2 in Hv. lra.
  - rewrite Hg' in Hg. assert (Hv := f_equal vy Hg).
    unfold as_acceleration, gravity_force_law, vscale in Hv.
    cbv delta [vx vy vz s e mass gravity] beta iota in Hv. lra.
Qed.

(** ** C9: determinism of the turbulence field *)
Lemma run_same_field (f1 f2 : Turbulence.TurbulenceField) (cs : list Turbulence.Call) :
  Turbulence.noiseX f1 = Turbulence.noiseX f2 ->
  Turbulence.noiseY f1 = Turbulence.noiseY f2 ->
  Turbulence.noiseZ f1 = Turbulence.noiseZ f2 ->
  Turbulence.ftime f1 = Turbulence.ftime f2 ->
  Turbulence.run f1 cs = Turbulence.run f2 cs.
Proof.
  revert f1 f2. induction cs as [| c cs IH]; intros f1 f2 Hx Hy Hz Ht; [reflexivity |].
  destruct f1 as [x1 y1 z1 t1], f2 as [x2 y2 z2 t2]. simpl in Hx, Hy, Hz, Ht. subst.
  destruct c; simpl; f_equal; apply IH; reflexivity.
Qed.

Lemma field_after_seeds (r1 r2 r3 t0 : R) (cs : list Turbulence.Call) :
  exists t, field_after (Turbulence.mkField r1 r2 r3 t0) cs = Turbulence.mkField r1 r2 r3 t.
Proof.
  revert t0. induction cs as [| c cs IH]; intros t0; [exists t0; reflexivity |].
  destruct c; simpl; apply IH.
Qed.

(** C9. The turbulence field is a pure function of its three noise seeds
    (the values drawn by the constructor), its accumulated time and the
    queried position: two fields with the same seeds and the same time give
    identical outputs for every sequence of [update], [getTurbulence] and
    [addGust] calls; no call sequence changes the seeds of a field created
    from [(r1, r2, r3)], only its time; and [addGust] depends on its
    position and time arguments only. *)
Theorem turbulence_deterministic :
  (forall (f1 f2 : Turbulence.TurbulenceField) (cs : list Turbulence.Call),
     Turbulence.noiseX f1 = Turbulence.noiseX f2 ->
     Turbulence.noiseY f1 = Turbulence.noiseY f2 ->
     Turbulence.noiseZ f1 = Turbulence.noiseZ f2 ->
     Turbulence.ftime f1 = Turbulence.ftime f2 ->
     Turbulence.run f1 cs = Turbulence.run f2 cs) /\
  (forall (r1 r2 r3 : R) (cs : list Turbulence.Call),
     exists t, field_after (Turbulence.create r1 r2 r3) cs = Turbulence.mkField r1 r2 r3 t) /\
  (forall (f1 f2 : Turbulence.TurbulenceField) (pos : Vec3) (t : R),
     Turbulence.addGust f1 pos t = Turbulence.addGust f2 pos t).
Proof.
  split; [exact run_same_field |].
  split; [intros r1 r2 r3 cs; apply field_after_seeds |].
  intros. reflexivity.
Qed.

Lemma turbulence_deterministic_witness :
  let cs := [Turbulence.CUpdate (1 / 60);
             Turbulence.CGetTurbulence (mkVec3 1 2 3) (mkVec3 4 0 0);
             Turbulence.CAddGust (mkVec3 1 2 3) 7] in
  Turbulence.ftime (Turbulence.create 0.1 0.2 0.3) = Turbulence.ftime (Turbulence.create 0.1 0.2 0.3) /\
  Turbulence.run (Turbulence.create 0.1 0.2 0.3) cs = Turbulence.run (Turbulence.create 0.1 0.2 0.3) cs.
Proof.
  intros cs. split; [reflexivity |].
  apply (proj1 turbulence_deterministic); reflexivity.
Defined.

(** ** Extra properties: atmosphere and aerodynamic coefficients *)

Lemma Rdiv_nonneg_pos (a b : R) : 0 <= a -> 0 < b -> 0 <= a / b.
Proof. intros Ha Hb. unfold Rdiv. apply Rmult_le_pos; [exact Ha | left; apply Rinv_0_lt_compat; exact Hb]. Qed.

Lemma exp_neg_ge_1_minus (x : R) : 0 <= x -> 1 - x <= exp (- x).
Proof.
  intros Hx. destruct (Req_dec x 0) as [-> | Hne].
  - rewrite Ropp_0, exp_0. lra.
  - assert (H := exp_ineq1 (- x) ltac:(lra)). lra.
Qed.

Lemma exp_neg_le_1 (x : R) : 0 <= x -> exp (- x) <= 1.
Proof.
  intros Hx. rewrite <- exp_0. destruct (Req_dec x 0) as [-> | Hne].
  - rewrite Ropp_0. lra.
  - left. apply exp_increasing. lra.
Qed.

(** [magnusLiftCoefficient] stays in [0, 0.5] for every non-negative spin
    ratio, and is continuous at both regime boundaries (0.1 and 0.5). *)
Theorem magnusLiftCoefficient_bounded_continuous :
  (forall S, 0 <= S -> 0 <= magnusLiftCoefficient S <= 0.5) /\
  continuous_at magnusLiftCoefficient 0.1 /\
  continuous_at magnusLiftCoefficient 0.5.
Proof.
  split; [| split].
  - intros S HS. unfold magnusLiftCoefficient, Rltb.
    destruct (Rlt_dec S 0.1); [qnum; split; [apply Rmult_le_pos; lra | ] |].
    + apply (Rmult_le_reg_r (1 * / 10)); [lra |]. unfold Rdiv.
      rewrite Rmult_assoc, Rinv_l by lra. lra.
    + destruct (Rlt_dec S 0.5); [lra |].
      assert (H1 := exp_pos (- (S - 0.5) / 0.3)).
      assert (H2 : exp (- (S - 0.5) / 0.3) <= 1).
      { replace (- (S - 0.5) / 0.3) with (- ((S - 0.5) / 0.3)) by (qnum; field).
        apply exp_neg_le_1. qnum. apply Rdiv_nonneg_pos; lra. }
      qnum. split; nra.
  - apply (continuous_at_lipschitz _ _ 5 0.1); [lra | lra |].
    intros y Hy. apply Rabs_lt_elim in Hy. unfold magnusLiftCoefficient.
    rewrite (Rltb_false 0.1 0.1), (Rltb_true 0.1 0.5) by lra.
    destruct (Rlt_dec y 0.1) as [Hl | Hl].
    + rewrite (Rltb_true y 0.1 Hl).
      replace (0.5 * y / 0.1 - 0.5) with (5 * (y - 0.1)) by (qnum; field).
      rewrite Rabs_mult, (Rabs_right 5) by lra. lra.
    + rewrite (Rltb_false y 0.1), (Rltb_true y 0.5) by (qnum; lra).
      rewrite Rminus_diag, Rabs_R0. apply Rmult_le_pos; [lra | apply Rabs_pos].
  - apply (continuous_at_lipschitz _ _ (5 / 3) 0.4); [lra | lra |].
    intros y Hy. apply Rabs_lt_elim in Hy. unfold magnusLiftCoefficient.
    rewrite (Rltb_false 0.5 0.1), (Rltb_false 0.5 0.5) by lra.
    replace (- (0.5 - 0.5) / 0.3) with 0 by (qnum; field). rewrite exp_0.
    destruct (Rlt_dec y 0.5) as [Hl | Hl].
    + rewrite (Rltb_false y 0.1), (Rltb_true y 0.5 Hl) by (qnum; lra).
      replace (0.5 - 0.5 * 1) with 0 by (qnum; field).
      rewrite Rabs_R0. apply Rmult_le_pos; [lra | apply Rabs_pos].
    + rewrite (Rltb_false y 0.1), (Rltb_false y 0.5) by (qnum; lra).
      replace (- (y - 0.5) / 0.3) with (- ((y - 0.5) / 0.3)) by (qnum; field).
      assert (Hx : 0 <= (y - 0.5) / 0.3) by (qnum; apply Rdiv_nonneg_pos; lra).
      assert (H1 := exp_neg_ge_1_minus _ Hx). assert (H2 := exp_neg_le_1 _ Hx).
      rewrite Rabs_left1 by (qnum; lra). rewrite (Rabs_right (y - 0.5)) by lra.
      qnum. unfold Rdiv in *. lra.
Qed.

(** [airDensityAtAltitude] is positive for a positive sea-level density,
    never exceeds it at non-negative altitude, and strictly decreases with
    altitude. *)
Theorem airDensityAtAltitude_decreasing (rho0 : R) :
  0 < rho0 ->
  (forall h, 0 <= h -> 0 < airDensityAtAltitude h rho0 <= rho0) /\
  (forall h1 h2, h1 < h2 -> airDensityAtAltitude h2 rho0 < airDensityAtAltitude h1 rho0).
Proof.
  intros Hr. unfold airDensityAtAltitude, SCALE_HEIGHT. split.
  - intros h Hh. assert (H1 := exp_pos (- h / 8500)).
    assert (H2 : exp (- h / 8500) <= 1).
    { replace (- h / 8500) with (- (h / 8500)) by (field; lra).
      apply exp_neg_le_1. apply Rdiv_nonneg_pos; lra. }
    split; nra.
  - intros h1 h2 Hh. apply Rmult_lt_compat_l; [exact Hr |].
    apply exp_increasing. unfold Rdiv. nra.
Qed.

Lemma airDensityAtAltitude_decreasing_witness :
  0 < 1.2041 /\ 0 < airDensityAtAltitude 100 1.2041 <= 1.2041.
Proof.
  assert (H : 0 < 1.2041) by lra. split; [exact H |].
  apply (proj1 (airDensityAtAltitude_decreasing 1.2041 H)). lra.
Defined.

(** Above [Re = 1000] the drag coefficient never increases with the
    Reynolds number and stays between [0.4 baseCd] and [baseCd] (for
    [baseCd >= 0]): the drag crisis only lowers drag. *)
Theorem getDragCoefficient_high_re (baseCd : R) :
  0 <= baseCd ->
  (forall re, 1000 <= re ->
     0.4 * baseCd <= getDragCoefficient re baseCd <= baseCd) /\
  (forall re1 re2, 1000 <= re1 <= re2 ->
     getDragCoefficient re2 baseCd <= getDragCoefficient re1 baseCd).
Proof.
  intros Hb.
  assert (Hr : forall re, 1000 <= re -> 0.4 * baseCd <= getDragCoefficient re baseCd <= baseCd).
  { intros re Hre.
    destruct (Rlt_dec re 300000).
    - rewrite gdc_subcritical by lra. qnum. lra.
    - destruct (Rlt_dec re 500000).
      + rewrite gdc_crisis by lra.
        assert (0 <= (re - 300000) / 200000 <= 1).
        { split; [apply Rdiv_nonneg_pos; lra |].
          apply (Rmult_le_reg_r 200000); [lra |]. unfold Rdiv.
          rewrite Rmult_assoc, Rinv_l; lra. }
        qnum. split; nra.
      + rewrite gdc_supercritical by lra. qnum. lra. }
  split; [exact Hr |].
  intros re1 re2 [H1 H2].
  destruct (Rlt_dec re2 300000).
  { rewrite !gdc_subcritical by lra. lra. }
  destruct (Rlt_dec re1 300000).
  { rewrite (gdc_subcritical re1) by lra. apply Hr. lra. }
  destruct (Rlt_dec re2 500000).
  { rewrite !gdc_crisis by lra.
    assert ((re1 - 300000) / 200000 <= (re2 - 300000) / 200000).
    { unfold Rdiv. apply Rmult_le_compat_r; [lra | lra]. }
    qnum. nra. }
  destruct (Rlt_dec re1 500000).
  { rewrite gdc_supercritical by lra. rewrite gdc_crisis by lra.
    assert ((re1 - 300000) / 200000 <= 1).
    { apply (Rmult_le_reg_r 200000); [lra |]. unfold Rdiv.
      rewrite Rmult_assoc, Rinv_l; lra. }
    qnum. nra. }
  rewrite !gdc_supercritical by lra. lra.
Qed.

Lemma getDragCoefficient_high_re_witness :
  0 <= 0.47 /\ getDragCoefficient 400000 0.47 <= getDragCoefficient 2000 0.47.
Proof.
  assert (H : 0 <= 0.47) by lra. split; [exact H |].
  apply (proj2 (getDragCoefficient_high_re 0.47 H)). lra.
Defined.

(** ** Extra properties: spin and torque *)

Lemma set_spin_same (s : ProjectileState) : set_spin s (spin s) = s.
Proof. destruct s. reflexivity. Qed.

(** With non-negative spin damping and step, [integrateSpin] only rescales
    the spin by a factor in (0, 1]: its direction is kept, its magnitude
    never grows, and no other field changes. *)
Theorem integrateSpin_damps (s : ProjectileState) (dt : R) :
  0 <= spinDamping s -> 0 <= dt ->
  exists c, 0 < c <= 1 /\ integrateSpin s dt = set_spin s (vscale (spin s) c).
Proof.
  intros Hk Hdt. unfold integrateSpin.
  destruct (Reqb (vlengthSq (spin s)) 0).
  - exists 1. split; [lra |]. unfold vscale. rewrite !Rmult_1_r.
    destruct (spin s) eqn:E. simpl. rewrite <- E. symmetry. apply set_spin_same.
  - cbv zeta. exists (1 / (1 + spinDamping s * vlength (spin s) * dt)).
    assert (Hl : 0 <= vlength (spin s)) by apply sqrt_pos.
    assert (Hq : 0 <= spinDamping s * vlength (spin s) * dt)
      by (apply Rmult_le_pos; [apply Rmult_le_pos |]; lra).
    split; [| reflexivity]. split.
    + apply Rdiv_lt_0_compat; lra.
    + apply (Rmult_le_reg_r (1 + spinDamping s * vlength (spin s) * dt)); [lra |].
      unfold Rdiv. rewrite Rmult_assoc, Rinv_l by lra. lra.
Qed.

Lemma integrateSpin_damps_witness :
  let s := mkState vzero vzero (mkVec3 0 0 30) qidentity 0.45 0.038 0.3 0.1 0.5
             (mkVec3 0.002 0.002 0.002) 0.11 in
  exists c, 0 < c <= 1 /\ integrateSpin s (1 / 60) = set_spin s (vscale (spin s) c).
Proof.
  intros s. apply integrateSpin_damps; cbv delta [s spinDamping] beta iota; lra.
Defined.

(** [aerodynamicTorque] is zero when the relative speed or the spin is zero
    and, for non-negative air density and radius, its component along the
    spin is never positive: the torque never speeds up the spin (the vortex
    term is perpendicular to it). *)
Theorem aerodynamicTorque_opposes_spin (s : ProjectileState) (e : EnvironmentState) :
  0 <= airDensity e -> 0 <= radius s ->
  (vlength (vsub (velocity s) (windVector e)) = 0 \/ spin s = vzero ->
     aerodynamicTorque s e = vzero) /\
  vdot (aerodynamicTorque s e) (spin s) <= 0.
Proof.
  intros Hrho Hr.
  assert (Hz : vlength (vsub (velocity s) (windVector e)) = 0 \/ spin s = vzero ->
               aerodynamicTorque s e = vzero).
  { intros [H | H]; unfold aerodynamicTorque; cbv zeta.
    - rewrite (Reqb_true _ _ H). reflexivity.
    - rewrite (Reqb_true (vlengthSq (spin s)) 0) by (apply vlengthSq_zero; exact H).
      rewrite orb_true_r. reflexivity. }
  split; [exact Hz |].
  unfold aerodynamicTorque. cbv zeta.
  destruct (orb _ _).
  - unfold vdot, vzero. cbv delta [vx vy vz] beta iota. lra.
  - assert (Hd : 0 <= airDensityAtAltitude (Rmax 0 (vy (position s))) (airDensity e)).
    { unfold airDensityAtAltitude. apply Rmult_le_pos; [exact Hrho | left; apply exp_pos]. }
    assert (Hr3 : 0 <= radius s ^ 3) by (apply pow_le; exact Hr).
    assert (Hw : 0 <= vlength (spin s)) by apply sqrt_pos.
    generalize dependent (airDensityAtAltitude (Rmax 0 (vy (position s))) (airDensity e)).
    generalize dependent (radius s ^ 3). generalize dependent (vlength (spin s)).
    intros w Hw r3 Hr3 rho Hd.
    unfold vnormalize. cbv zeta.
    generalize (if Reqb (vlength (vcross (vsub (velocity s) (windVector e)) (spin s))) 0
                then 1 else vlength (vcross (vsub (velocity s) (windVector e)) (spin s))).
    intros d.
    destruct (spin s) as [a b c]. destruct (vsub (velocity s) (windVector e)) as [p q t].
    unfold vdot, vadd, vscale, vcross. cbv delta [vx vy vz] beta iota.
    assert (Hc : 0 <= 0.15 * rho * r3 * w) by (qnum; repeat apply Rmult_le_pos; lra).
    match goal with |- ?g <= 0 =>
      replace g with (- (0.15 * rho * r3 * w) * (a * a + b * b + c * c)) by ring end.
    assert (0 <= a * a + b * b + c * c) by nra. nra.
Qed.

Lemma aerodynamicTorque_opposes_spin_witness :
  let s := mkState (mkVec3 0 5 0) (mkVec3 20 5 0) (mkVec3 0 0 30) qidentity 0.45 0.038 0.3 0.1 0.5
             (mkVec3 0.002 0.002 0.002) 0.11 in
  let e := mkEnv 9.81 vzero 1.225 in
  vdot (aerodynamicTorque s e) (spin s) <= 0.
Proof.
  intros s e.
  apply (proj2 (aerodynamicTorque_opposes_spin s e ltac:(cbv delta [e airDensity] beta iota; lra)
                  ltac:(cbv delta [s radius] beta iota; lra))).
Defined.

Lemma magnusLiftCoefficient_bounded_continuous_witness :
  0 <= 0.8 /\ 0 <= magnusLiftCoefficient 0.8 <= 0.5.
Proof.
  assert (H : 0 <= 0.8) by lra. split; [exact H |].
  apply (proj1 magnusLiftCoefficient_bounded_continuous). exact H.
Defined.

(** ** Extra properties: ground normal, noise and gusts *)

Lemma sin_cos_sq_sum_bound (a b : R) : (sin a + cos b) * (sin a + cos b) <= 4.
Proof.
  assert (H1 := SIN_bound a). assert (H2 := COS_bound b). nra.
Qed.

Lemma cos_sin_sq_sum_bound (a b : R) : (cos a + sin b) * (cos a + sin b) <= 4.
Proof.
  assert (H1 := COS_bound a). assert (H2 := SIN_bound b). nra.
Qed.

Lemma vlengthSq_vscale (a : Vec3) (k : R) : vlengthSq (vscale a k) = k * k * vlengthSq a.
Proof. unfold vlengthSq, vdot, vscale. cbv delta [vx vy vz] beta iota. ring. Qed.

Lemma vnormalize_pos (a : Vec3) :
  0 < vlengthSq a -> vnormalize a = vscale a (1 / vlength a).
Proof.
  intros H. unfold vnormalize. cbv zeta.
  assert (Hl : 0 < vlength a) by (unfold vlength; apply sqrt_lt_R0; exact H).
  rewrite (Reqb_false (vlength a) 0) by lra. reflexivity.
Qed.

Lemma vnormalize_unit (a : Vec3) : 0 < vlengthSq a -> vlength (vnormalize a) = 1.
Proof.
  intros H. rewrite vnormalize_pos by exact H.
  assert (Hl : 0 < vlength a) by (unfold vlength; apply sqrt_lt_R0; exact H).
  assert (Hs : vlength a * vlength a = vlengthSq a) by (unfold vlength; apply sqrt_sqrt; lra).
  unfold vlength at 1. rewrite vlengthSq_vscale.
  generalize dependent (vlength a). intros L HL HsL.
  rewrite <- HsL. replace (1 / L * (1 / L) * (L * L)) with 1 by (field; lra). exact sqrt_1.
Qed.

Lemma getGroundNormal_bounds (x z : R) :
  vlength (SimulationBump.getGroundNormal x z) = 1 /\
  9 / 10 < vy (SimulationBump.getGroundNormal x z).
Proof.
  unfold SimulationBump.getGroundNormal. cbv zeta.
  assert (Hx := sin_cos_sq_sum_bound (x * 0.8) (z * 0.8 * 1.3)).
  assert (Hz := cos_sin_sq_sum_bound (x * 0.8 * 1.1) (z * 0.8 * 0.9)).
  generalize dependent (sin (x * 0.8) + cos (z * 0.8 * 1.3)).
  generalize dependent (cos (x * 0.8 * 1.1) + sin (z * 0.8 * 0.9)).
  intros b Hb a Ha.
  set (v := mkVec3 (a * 0.15) 1 (b * 0.15)).
  assert (HS : vlengthSq v = a * 0.15 * (a * 0.15) + 1 + b * 0.15 * (b * 0.15))
    by (unfold v, vlengthSq, vdot; cbv delta [vx vy vz] beta iota; ring).
  assert (HS1 : 1 <= vlengthSq v) by (rewrite HS; nra).
  assert (HS2 : vlengthSq v <= 118 / 100) by (rewrite HS; qnum; nra).
  split; [apply vnormalize_unit; lra |].
  rewrite vnormalize_pos by lra.
  assert (HL : 1 <= vlength v) by (unfold vlength; rewrite <- sqrt_1; apply sqrt_le_1_alt; lra).
  assert (HL2 : vlength v * vlength v = vlengthSq v) by (unfold vlength; apply sqrt_sqrt; lra).
  assert (HL3 : vlength v < 10 / 9) by nra.
  unfold vscale. cbv delta [vy] beta iota. unfold v at 1. cbv delta [vy] beta iota.
  apply (Rmult_lt_reg_r (vlength v)); [lra |].
  unfold Rdiv at 2. rewrite Rmult_1_l, Rmult_1_l, Rinv_l by lra. nra.
Qed.

(** The perturbed ground normal of the bump-mapped engine is a unit vector
    pointing upward, tilted from the vertical by less than 26 degrees: its vertical
    component is above 0.9 everywhere. *)
Theorem getGroundNormal_unit_upward (x z : R) :
  vlength (SimulationBump.getGroundNormal x z) = 1 /\
  9 / 10 < vy (SimulationBump.getGroundNormal x z).
Proof. exact (getGroundNormal_bounds x z). Qed.

Lemma frac_unit (x : R) : 0 <= x - js_floor x < 1.
Proof. unfold js_floor. destruct (base_Int_part x). lra. Qed.

Lemma hash_unit (seed x y z t : R) : 0 <= Turbulence.hash seed x y z t <= 1.
Proof.
  unfold Turbulence.hash. cbv zeta.
  match goal with |- context [?h - js_floor ?h] => assert (H := frac_unit h) end. lra.
Qed.

Lemma smoothstep_unit (x : R) : 0 <= Turbulence.smoothstep (x - js_floor x) <= 1.
Proof.
  assert (H := frac_unit x). unfold Turbulence.smoothstep.
  generalize dependent (x - js_floor x). intros t Ht.
  assert (E : 1 - t * t * (3 - 2 * t) = (1 - t) * (1 - t) * (1 + 2 * t)) by ring.
  assert (0 <= t * t) by nra. assert (0 <= (1 - t) * (1 - t)) by nra. split; nra.
Qed.

Lemma lerp_unit (a b t : R) :
  0 <= a <= 1 -> 0 <= b <= 1 -> 0 <= t <= 1 -> 0 <= Turbulence.lerp a b t <= 1.
Proof.
  intros Ha Hb Ht. unfold Turbulence.lerp.
  replace (a + (b - a) * t) with (a * (1 - t) + b * t) by ring. split; nra.
Qed.

Lemma noise4D_bound (n x y z t : R) : -1 <= Turbulence.noise4D n x y z t <= 1.
Proof.
  unfold Turbulence.noise4D. cbv zeta.
  match goal with |- _ <= ?l * 2 - 1 <= _ => assert (H : 0 <= l <= 1) end.
  { repeat first [ apply lerp_unit | apply hash_unit | apply smoothstep_unit ]. }
  lra.
Qed.

Lemma octaves_bound (n x y z t : R) : -1.75 <= Turbulence.octaves n x y z t <= 1.75.
Proof.
  unfold Turbulence.octaves.
  assert (H1 := noise4D_bound n x y z t).
  assert (H2 := noise4D_bound n (x * 2) (y * 2) (z * 2) (t * 2)).
  assert (H3 := noise4D_bound n (x * 4) (y * 4) (z * 4) (t * 4)).
  qnum. lra.
Qed.

(** The noise of the turbulence field is bounded: every [hash] value lies
    in [0, 1), [noise4D] in [-1, 1], and the three-octave sum used by
    [getTurbulence] in [-1.75, 1.75]. *)
Theorem turbulence_noise_bounds :
  (forall seed x y z t, 0 <= Turbulence.hash seed x y z t < 1) /\
  (forall n x y z t, -1 <= Turbulence.noise4D n x y z t <= 1) /\
  (forall n x y z t, -1.75 <= Turbulence.octaves n x y z t <= 1.75).
Proof.
  split; [| split; [exact noise4D_bound |]].
  - intros. unfold Turbulence.hash. cbv zeta.
    match goal with |- context [?h - js_floor ?h] => exact (frac_unit h) end.
  - exact octaves_bound.
Qed.

(** The turbulent part that [getTurbulence] adds to the ground-scaled base
    wind is bounded by the base wind speed: at most [1.75 * 0.15 |w|] on the
    horizontal axes and half of that vertically. *)
Theorem getTurbulence_perturbation_bound (f : Turbulence.TurbulenceField) (pos w : Vec3) :
  let d := vsub (Turbulence.getTurbulence f pos w) (vscale w (Rmin 1.0 (vy pos / 10.0))) in
  Rabs (vx d) <= 0.2625 * vlength w /\
  Rabs (vy d) <= 0.13125 * vlength w /\
  Rabs (vz d) <= 0.2625 * vlength w.
Proof.
  intros d. unfold d, Turbulence.getTurbulence. cbv zeta.
  assert (Hw : 0 <= vlength w) by apply sqrt_pos.
  assert (B := octaves_bound).
  unfold vsub, vadd, vscale, TURBULENCE_INTENSITY. cbv delta [vx vy vz] beta iota.
  match goal with |- context [Turbulence.octaves (Turbulence.noiseX f) ?a ?b ?c ?t] =>
    assert (HX := B (Turbulence.noiseX f) a b c t);
    assert (HY := B (Turbulence.noiseY f) a b c t);
    assert (HZ := B (Turbulence.noiseZ f) a b c t) end.
  generalize dependent (vlength w). intros L HL.
  generalize dependent (Rmin 1.0 (vy pos / 10.0)). intros g.
  repeat match goal with |- context [Turbulence.octaves ?n ?a ?b ?c ?t] =>
    generalize dependent (Turbulence.octaves n a b c t) end.
  intros oz Hz oy Hy ox Hx.
  qnum.
  repeat split; apply Rabs_le; split; nra.
Qed.

(** A gust from [addGust] is horizontal and never stronger than 5 m/s. *)
Theorem addGust_bounded (f : Turbulence.TurbulenceField) (pos : Vec3) (t : R) :
  vy (Turbulence.addGust f pos t) = 0 /\ vlength (Turbulence.addGust f pos t) <= 5.
Proof.
  unfold Turbulence.addGust. cbv zeta.
  generalize (sin (vx pos * 0.1 + t * 0.3) * PI). intros a.
  match goal with |- context [exp ?e] =>
    assert (H0 := exp_pos e);
    assert (H1 : exp e <= 1) end.
  { match goal with |- exp (- ?x) <= 1 => apply exp_neg_le_1 end.
    apply pow2_ge_0. }
  match goal with |- context [exp ?e] => generalize dependent (exp e) end.
  intros k Hk1 Hk0.
  unfold vscale, vlength, vlengthSq. cbv delta [vx vy vz] beta iota.
  split; [ring |].
  assert (Hs := sin2_cos2 a). unfold Rsqr in Hs.
  replace (cos a * (k * 5.0) * (cos a * (k * 5.0)) + 0 * (k * 5.0) * (0 * (k * 5.0)) +
           sin a * (k * 5.0) * (sin a * (k * 5.0)))
    with ((k * 5.0) * (k * 5.0) * (sin a * sin a + cos a * cos a)) by ring.
  rewrite Hs, Rmult_1_r, sqrt_square by (qnum; lra). qnum. lra.
Qed.

(** ** Extra properties: flat-ground contact *)

Lemma flat_contact_vn (v w : Vec3) (r : R) :
  vdot (vadd v (vcross w (vscale SimulationFlat.normal (- r)))) SimulationFlat.normal = vy v.
Proof.
  unfold vdot, vadd, vcross, vscale, SimulationFlat.normal.
  cbn [vx vy vz]. ring.
Qed.

Lemma flat_rCrossAngular (r : R) (I : Vec3) :
  vdot (vcross (vscale SimulationFlat.normal (- r))
          (vdivc (vcross (vscale SimulationFlat.normal (- r)) SimulationFlat.normal) I))
       SimulationFlat.normal = 0.
Proof.
  unfold vdot, vdivc, vcross, vscale, SimulationFlat.normal.
  cbn [vx vy vz]. unfold Rdiv. ring.
Qed.

Lemma flat_tangential_y (c : Vec3) :
  vy (vsub c (vscale SimulationFlat.normal (vdot c SimulationFlat.normal))) = 0.
Proof.
  unfold vdot, vsub, vscale, SimulationFlat.normal.
  cbn [vx vy vz]. ring.
Qed.

Lemma clamp_abs (M x : R) : 0 <= M -> Rabs (Rmax (- M) (Rmin M x)) <= M.
Proof.
  intros HM. apply Rabs_le.
  unfold Rmax, Rmin. destruct (Rle_dec M x); destruct (Rle_dec (- M) _); lra.
Qed.

Lemma vnormalize_horizontal (t : Vec3) :
  vy t = 0 -> 0 < vlength t ->
  vy (vnormalize t) = 0 /\ vx (vnormalize t) * vx (vnormalize t) +
                           vz (vnormalize t) * vz (vnormalize t) = 1.
Proof.
  intros Hy Hl.
  assert (HS : 0 < vlengthSq t).
  { unfold vlength in Hl. destruct (Rle_lt_dec (vlengthSq t) 0) as [H|H]; [| exact H].
    rewrite (sqrt_neg_0 _ H) in Hl. lra. }
  assert (Hu := vnormalize_unit t HS).
  assert (Hy' : vy (vnormalize t) = 0).
  { rewrite vnormalize_pos by exact HS. unfold vscale. cbn [vy].
    rewrite Hy. ring. }
  split; [exact Hy' |].
  unfold vlength, vlengthSq in Hu. rewrite Hy' in Hu.
  rewrite <- sqrt_1 in Hu. apply sqrt_inj in Hu; [lra | | lra].
  generalize (vx (vnormalize t)) (vz (vnormalize t)). intros. nra.
Qed.

Lemma vnormalize_y0 (a b : R) : vy (vnormalize (mkVec3 a 0 b)) = 0.
Proof. unfold vnormalize, vscale. cbv zeta. cbn [vy]. ring. Qed.

Lemma horizontal_norm_scaled (a b k : R) :
  a * a + b * b = 1 -> sqrt ((a * k) * (a * k) + (b * k) * (b * k)) = Rabs k.
Proof.
  intros H.
  replace ((a * k) * (a * k) + (b * k) * (b * k)) with (k * k * (a * a + b * b)) by ring.
  rewrite H, Rmult_1_r. apply sqrt_Rsqr_abs.
Qed.

(** On flat ground the collision response separates normal and tangential
    parts, whatever the spin: the ball is put back on the ground; if it is
    not moving down faster than 1 cm/s its velocity and spin are kept;
    otherwise its vertical velocity becomes exactly [- restitution] times the
    incoming one, and the horizontal velocity changes by at most the Coulomb
    bound [0.6 |(1 + restitution) vy|]. *)
Theorem flat_handleGroundCollision_response (s : ProjectileState) :
  0 < mass s ->
  0 < vx (momentOfInertia s) -> 0 < vy (momentOfInertia s) -> 0 < vz (momentOfInertia s) ->
  let s' := SimulationFlat.handleGroundCollision s in
  vy (position s') = radius s /\
  (-0.01 <= vy (velocity s) -> velocity s' = velocity s /\ spin s' = spin s) /\
  (vy (velocity s) < -0.01 ->
     vy (velocity s') = - restitution s * vy (velocity s) /\
     sqrt ((vx (velocity s') - vx (velocity s)) * (vx (velocity s') - vx (velocity s)) +
           (vz (velocity s') - vz (velocity s)) * (vz (velocity s') - vz (velocity s)))
     <= 0.6 * Rabs ((1 + restitution s) * vy (velocity s))).
Proof.
  intros Hm HIx HIy HIz s'.
  unfold s', SimulationFlat.handleGroundCollision. cbv zeta.
  rewrite !flat_contact_vn, !flat_rCrossAngular, Rplus_0_r.
  destruct (Rleb (-0.01) (vy (velocity s))) eqn:E1.
  - apply Rleb_spec in E1.
    split; [reflexivity |]. split; [intros; split; reflexivity | intros; lra].
  - apply Rleb_false_inv in E1.
    split; [destruct (Rltb 0.01 _); reflexivity |].
    split; [intros; lra | intros _].
    set (jn := - (1 + restitution s) * vy (velocity s) / (1 / mass s)).
    assert (Hjn : Rabs jn = mass s * Rabs ((1 + restitution s) * vy (velocity s))).
    { unfold jn. replace (- (1 + restitution s) * vy (velocity s) / (1 / mass s))
        with (- (mass s * ((1 + restitution s) * vy (velocity s)))) by (field; lra).
      rewrite Rabs_Ropp, Rabs_mult, (Rabs_right (mass s)) by lra. reflexivity. }
    set (cv := vadd (velocity s) (vcross (spin s) (vscale SimulationFlat.normal (- radius s)))).
    set (tv := vsub cv (vscale SimulationFlat.normal (vy (velocity s)))).
    assert (Hty : vy tv = 0).
    { unfold tv. rewrite <- (flat_contact_vn (velocity s) (spin s) (radius s)).
      fold cv. apply flat_tangential_y. }
    destruct (Rltb 0.01 (vlength tv)) eqn:E2.
    + apply Rltb_spec in E2.
      destruct (vnormalize_horizontal tv Hty) as [Hdy Hdn]; [lra |].
      match goal with |- context [Rmax (- ?M) (Rmin ?M ?x)] =>
        assert (Hjt := clamp_abs M x); generalize dependent (Rmax (- M) (Rmin M x)) end.
      intros jt Hjt.
      generalize dependent (vnormalize tv). intros d Hdy Hdn.
      unfold set_position, set_velocity, set_spin, vset_y, vaddScaled, vscale, SimulationFlat.normal.
      cbn [vx vy vz position velocity spin mass rotation area dragCoefficient spinDamping restitution momentOfInertia radius].
      rewrite Hdy.
      split; [unfold jn; field; lra |].
      match goal with |- sqrt ?e <= _ =>
        replace e with ((vx d * (jt * (1 / mass s))) * (vx d * (jt * (1 / mass s))) +
                        (vz d * (jt * (1 / mass s))) * (vz d * (jt * (1 / mass s)))) by ring end.
      rewrite (horizontal_norm_scaled _ _ _ Hdn).
      rewrite Rabs_mult, (Rabs_right (1 / mass s)) by (apply Rle_ge, Rlt_le, Rdiv_lt_0_compat; lra).
      assert (H0 : 0 <= 0.6 * Rabs jn) by (assert (0 <= Rabs jn) by apply Rabs_pos; lra).
      specialize (Hjt H0). rewrite Hjn in Hjt.
      apply (Rmult_le_reg_r (mass s)); [lra |].
      replace (Rabs jt * (1 / mass s) * mass s) with (Rabs jt) by (field; lra). lra.
    + unfold set_position, set_velocity, set_spin, vset_y, vaddScaled, vscale, SimulationFlat.normal.
      cbn [vx vy vz position velocity spin mass rotation area dragCoefficient spinDamping restitution momentOfInertia radius].
      split; [unfold jn; field; lra |].
      match goal with |- sqrt ?e <= _ => replace e with 0 by ring end.
      rewrite sqrt_0. assert (0 <= Rabs ((1 + restitution s) * vy (velocity s))) by apply Rabs_pos. lra.
Qed.

Lemma flat_handleGroundCollision_response_witness :
  let s := mkState (mkVec3 0 0.1 0) (mkVec3 3 (-8) 0) (mkVec3 0 0 20) qidentity
             1 0.01 0.47 0.1 0.6 (mkVec3 0.02 0.02 0.02) 0.1 in
  0 < mass s /\ 0 < vx (momentOfInertia s) /\ 0 < vy (momentOfInertia s) /\
  0 < vz (momentOfInertia s) /\
  vy (velocity (SimulationFlat.handleGroundCollision s)) = - restitution s * vy (velocity s).
Proof.
  intros s.
  assert (H1 : 0 < mass s) by (simpl; lra).
  assert (H2 : 0 < vx (momentOfInertia s)) by (simpl; lra).
  assert (H3 : 0 < vy (momentOfInertia s)) by (simpl; lra).
  assert (H4 : 0 < vz (momentOfInertia s)) by (simpl; lra).
  split; [exact H1 | split; [exact H2 | split; [exact H3 | split; [exact H4 |]]]].
  destruct (flat_handleGroundCollision_response s H1 H2 H3 H4) as [_ [_ H]].
  destruct (H ltac:(simpl; lra)) as [Hv _]. exact Hv.
Defined.

(** The flat-ground rolling contact pins the ball to the ground, cancels a
    downward velocity and otherwise leaves the vertical velocity alone:
    rolling friction and damping act only horizontally, and the horizontal
    position is not touched. *)
Theorem flat_applyGroundContactForces_vertical (p : ProjectileInstance) (dt : R) :
  let s := pstate p in
  let s' := SimulationFlat.applyGroundContactForces p dt in
  position s' = vset_y (position s) (radius s) /\
  vy (velocity s') = (if Rltb (vy (velocity s)) 0 then 0 else vy (velocity s)).
Proof.
  intros s s'. unfold s', SimulationFlat.applyGroundContactForces. fold s. cbv zeta.
  cbn [set_position set_velocity vset_y velocity position].
  destruct (Rltb (vy (velocity s)) 0);
  split_ifs;
  cbn [set_position set_velocity set_spin vset_y vaddScaled vscale vdivc vcross
       SimulationFlat.normal vx vy vz position velocity spin radius mass];
  rewrite ?vnormalize_y0; split; try reflexivity; ring.
Qed.

(** ** Extra properties: flight summary and per-step bookkeeping *)

Lemma fold_Rmax_props {A : Type} (f : A -> R) (l : list A) (m0 : R) :
  let m := fold_left (fun mx a => Rmax mx (f a)) l m0 in
  m0 <= m /\ (forall a, In a l -> f a <= m) /\ (m = m0 \/ exists a, In a l /\ m = f a).
Proof.
  revert m0. induction l as [| a l IH]; intros m0; cbn zeta; simpl.
  - split; [lra | split; [tauto | left; reflexivity]].
  - destruct (IH (Rmax m0 (f a))) as [H1 [H2 H3]].
    assert (Ha := Rmax_l m0 (f a)). assert (Hb := Rmax_r m0 (f a)).
    split; [lra | split].
    + intros b [<- | Hb']; [lra | auto].
    + destruct H3 as [H3 | [b [Hb' H3]]].
      * rewrite H3. unfold Rmax. destruct (Rle_dec m0 (f a)).
        -- right. exists a. split; [left |]; reflexivity.
        -- left. reflexivity.
      * right. exists b. split; [right |]; assumption.
Qed.

(** [buildSummary] reports the highest recorded altitude and the longest
    recorded range: each is at least 0, at least every sample's value, and
    is either 0 or attained by a sample. The flight time is the time of the
    last sample, or the elapsed time when no sample was recorded, and the
    impact speed is the current speed. *)
Theorem buildSummary_extrema (p : ProjectileInstance) :
  let sm := buildSummary p in
  0 <= maxHeight sm /\ (forall smp, In smp (samples p) -> altitude smp <= maxHeight sm) /\
  (maxHeight sm = 0 \/ exists smp, In smp (samples p) /\ maxHeight sm = altitude smp) /\
  0 <= totalRange sm /\ (forall smp, In smp (samples p) -> range smp <= totalRange sm) /\
  (totalRange sm = 0 \/ exists smp, In smp (samples p) /\ totalRange sm = range smp) /\
  (samples p = [] -> flightTime sm = elapsed p) /\
  (forall l smp, samples p = l ++ [smp] -> flightTime sm = time smp) /\
  impactSpeed sm = vlength (velocity (pstate p)).
Proof.
  intros sm. unfold sm, buildSummary. cbv zeta. cbn [maxHeight totalRange flightTime impactSpeed].
  destruct (fold_Rmax_props altitude (samples p) 0) as [A1 [A2 A3]].
  destruct (fold_Rmax_props range (samples p) 0) as [B1 [B2 B3]].
  cbv zeta in *.
  repeat split; try assumption; try reflexivity.
  - intros E. rewrite E. reflexivity.
  - intros l smp E. rewrite E, rev_app_distr. reflexivity.
Qed.

Lemma flat_telemetry_fields (q : ProjectileInstance) :
  let t := SimulationFlat.telemetry q in
  elapsed t = elapsed q /\ penvironment t = penvironment q /\ params t = params q /\
  active t = active q /\ summary t = summary q /\
  ((telemetryTimer q < TELEMETRY_INTERVAL /\ telemetryTimer t = telemetryTimer q /\
    samples t = samples q) \/
   (TELEMETRY_INTERVAL <= telemetryTimer q /\ telemetryTimer t = 0 /\
    exists smp, samples t = samples q ++ [smp] /\ time smp = elapsed q)).
Proof.
  intros t. unfold t, SimulationFlat.telemetry.
  destruct (Rleb TELEMETRY_INTERVAL (telemetryTimer q)) eqn:E; cbn zeta.
  - apply Rleb_spec in E. cbn. repeat split; try reflexivity.
    right. split; [exact E | split; [reflexivity |]]. eexists. split; reflexivity.
  - apply Rleb_false_inv in E. repeat split; try reflexivity. left. tauto.
Qed.

Lemma bump_telemetry_fields (q : ProjectileInstance) :
  let t := SimulationBump.telemetry q in
  elapsed t = elapsed q /\ penvironment t = penvironment q /\ params t = params q /\
  active t = active q /\ summary t = summary q /\
  ((telemetryTimer q < TELEMETRY_INTERVAL /\ telemetryTimer t = telemetryTimer q /\
    samples t = samples q) \/
   (TELEMETRY_INTERVAL <= telemetryTimer q /\ telemetryTimer t = 0 /\
    exists smp, samples t = samples q ++ [smp] /\ time smp = elapsed q)).
Proof.
  intros t. unfold t, SimulationBump.telemetry.
  destruct (Rleb TELEMETRY_INTERVAL (telemetryTimer q)) eqn:E; cbn zeta.
  - apply Rleb_spec in E. cbn. repeat split; try reflexivity.
    right. split; [exact E | split; [reflexivity |]]. eexists. split; reflexivity.
  - apply Rleb_false_inv in E. repeat split; try reflexivity. left. tauto.
Qed.

Lemma env_eta (e : EnvironmentState) : mkEnv (gravity e) (windVector e) (airDensity e) = e.
Proof. destruct e; reflexivity. Qed.

Lemma bookkeeping_from_telemetry (p q t : ProjectileInstance) (dt : R) :
  elapsed q = elapsed p + dt -> telemetryTimer q = telemetryTimer p + dt ->
  penvironment q = penvironment p -> params q = params p -> samples q = samples p ->
  ((active q = true /\ summary q = summary p) \/
   (active q = false /\ exists sm, summary q = Some sm)) ->
  (elapsed t = elapsed q /\ penvironment t = penvironment q /\ params t = params q /\
   active t = active q /\ summary t = summary q /\
   ((telemetryTimer q < TELEMETRY_INTERVAL /\ telemetryTimer t = telemetryTimer q /\
     samples t = samples q) \/
    (TELEMETRY_INTERVAL <= telemetryTimer q /\ telemetryTimer t = 0 /\
     exists smp, samples t = samples q ++ [smp] /\ time smp = elapsed q))) ->
  integrate_bookkeeping p t dt.
Proof.
  intros He Ht Hv Hp Hs Ha [Te [Tv [Tp [Ta [Tsm T]]]]].
  unfold integrate_bookkeeping.
  rewrite Te, Tv, Tp, Ta, Tsm, He, Hv, Hp.
  split; [reflexivity | split; [reflexivity | split; [reflexivity | split]]].
  - rewrite <- Ht, <- Hs, <- He. exact T.
  - exact Ha.
Qed.

Lemma flat_step_bookkeeping (u : UndefinedReads) (p : ProjectileInstance) (dt : R) :
  active p = true -> integrate_bookkeeping p (SimulationFlat.integrateProjectile u p dt) dt.
Proof.
  intros Hact.
  unfold SimulationFlat.integrateProjectile. rewrite Hact. cbn [negb]. cbv zeta.
  match goal with |- integrate_bookkeeping _ (SimulationFlat.telemetry ?q) _ =>
    refine (bookkeeping_from_telemetry p q _ dt _ _ _ _ _ _ (flat_telemetry_fields q)) end;
  split_ifs; cbn [with_state with_clocks with_grounded with_retired with_environment
                  elapsed telemetryTimer penvironment params samples summary active];
  try reflexivity; try (left; split; [exact Hact | reflexivity]);
  (right; split; [reflexivity | eexists; reflexivity]).
Qed.

Lemma bump_step_bookkeeping (u : UndefinedReads) (eng : SimulationBump.Engine)
    (p : ProjectileInstance) (dt : R) :
  active p = true -> integrate_bookkeeping p (SimulationBump.integrateProjectile u eng p dt) dt.
Proof.
  intros Hact.
  unfold SimulationBump.integrateProjectile. rewrite Hact. cbn [negb]. cbv zeta.
  match goal with |- integrate_bookkeeping _ (SimulationBump.telemetry ?q) _ =>
    refine (bookkeeping_from_telemetry p q _ dt _ _ _ _ _ _ (bump_telemetry_fields q)) end;
  split_ifs; cbn [with_state with_clocks with_grounded with_retired with_environment
                  elapsed telemetryTimer penvironment params samples summary active];
  rewrite ?env_eta;
  try reflexivity; try (left; split; [exact Hact | reflexivity]);
  (right; split; [reflexivity | eexists; reflexivity]).
Qed.

(** One [integrateProjectile] step of an active projectile, in both
    engines, advances the flight clock by [dt], leaves the environment
    (the bump-mapped engine restores the wind it perturbed) and the launch
    parameters as they were, records a telemetry sample stamped with the new
    time exactly when the telemetry timer reaches 0.08 s (and then resets
    the timer), and either keeps the projectile active with its summary
    untouched or retires it with a summary. *)
Theorem integrateProjectile_bookkeeping (u : UndefinedReads) (p : ProjectileInstance) (dt : R) :
  active p = true ->
  integrate_bookkeeping p (SimulationFlat.integrateProjectile u p dt) dt /\
  (forall eng : SimulationBump.Engine,
     integrate_bookkeeping p (SimulationBump.integrateProjectile u eng p dt) dt).
Proof.
  intros Hact. split; [apply flat_step_bookkeeping; exact Hact |].
  intros eng. apply bump_step_bookkeeping. exact Hact.
Qed.

Lemma integrateProjectile_bookkeeping_witness :
  let u := mkUndefinedReads qidentity vzero 0 in
  let p := mkInstance
             (mkState (mkVec3 0 2 0) (mkVec3 5 3 0) vzero qidentity
                0.45 0.038 0.3 0.1 0.5 (mkVec3 0.002 0.002 0.002) 0.11)
             (mkEnv 9.81 vzero 1.225)
             (mkParams (mkProfile 0 (fun _ => vzero) vzero 0) false)
             0 0.07 [] None false true in
  active p = true /\ integrate_bookkeeping p (SimulationFlat.integrateProjectile u p (1 / 60)) (1 / 60).
Proof.
  intros u p.
  assert (H : active p = true) by reflexivity.
  split; [exact H |].
  destruct (integrateProjectile_bookkeeping u p (1 / 60) H) as [H1 _]. exact H1.
Defined.

(** ** Extra properties: the update loop *)

Lemma clampedStep_le (dt : R) : clampedStep dt <= MAX_TIME_STEP.
Proof. unfold clampedStep. apply Rmin_r. Qed.

Lemma clampedStep_pos (dt : R) : 0 < dt -> 0 < clampedStep dt.
Proof.
  intros H. unfold clampedStep, MAX_TIME_STEP, Rmin.
  destruct (Rle_dec (dt * 1.5) 0.02); lra.
Qed.

Lemma clampedStep_nonpos (dt : R) : dt <= 0 -> clampedStep dt <= 0.
Proof.
  intros H. unfold clampedStep, MAX_TIME_STEP, Rmin.
  destruct (Rle_dec (dt * 1.5) 0.02); lra.
Qed.

Lemma minStep_bounds (ps : list ProjectileInstance) :
  MIN_TIME_STEP <= minStep ps <= MAX_TIME_STEP.
Proof.
  unfold minStep.
  assert (G : forall m, MIN_TIME_STEP <= m <= MAX_TIME_STEP ->
    MIN_TIME_STEP <= fold_left (fun m p =>
      if active p then
        let speed := vlength (velocity (pstate p)) in
        let velStep := if Rltb 50 speed then MIN_TIME_STEP else MIN_TIME_STEP * 2 in
        let heightStep :=
          if Rltb (vy (position (pstate p))) (2 * radius (pstate p))
          then MIN_TIME_STEP else MAX_TIME_STEP in
        Rmin (Rmin m velStep) heightStep
      else m) ps m <= MAX_TIME_STEP).
  { induction ps as [| p ps IH]; intros m Hm; simpl; [exact Hm |].
    apply IH. destruct (active p); [| exact Hm]. cbv zeta.
    unfold MIN_TIME_STEP, MAX_TIME_STEP in *.
    destruct (Rltb 50 _); destruct (Rltb _ _);
    unfold Rmin; repeat match goal with |- context [Rle_dec ?a ?b] => destruct (Rle_dec a b) end;
    lra. }
  apply G. unfold MIN_TIME_STEP, MAX_TIME_STEP. lra.
Qed.

Lemma flat_step_active (u : UndefinedReads) (p : ProjectileInstance) (st : R) :
  active (SimulationFlat.integrateProjectile u p st) = true -> active p = true.
Proof.
  unfold SimulationFlat.integrateProjectile. destruct (active p) eqn:E; [reflexivity |].
  simpl. rewrite E. discriminate.
Qed.

Lemma bump_step_active (u : UndefinedReads) (eng : SimulationBump.Engine)
    (p : ProjectileInstance) (st : R) :
  active (SimulationBump.integrateProjectile u eng p st) = true -> active p = true.
Proof.
  unfold SimulationBump.integrateProjectile. destruct (active p) eqn:E; [reflexivity |].
  simpl. rewrite E. discriminate.
Qed.

Lemma advanced_by_step (f : ProjectileInstance -> R -> ProjectileInstance) (k st : R)
    (p p' : ProjectileInstance) :
  (forall q, active (f q st) = true -> active q = true) ->
  (forall q, active q = true -> integrate_bookkeeping q (f q st) st) ->
  advanced_by k p p' -> advanced_by (k + st) p (f p' st).
Proof.
  intros Ha Hb H Hf.
  assert (Hp' := Ha _ Hf).
  destruct (H Hp') as [Hp [He [Hv Hpa]]].
  destruct (Hb _ Hp') as [Be [Bv [Bp _]]].
  split; [exact Hp |]. split; [rewrite Be, He; ring |].
  split; [rewrite Bv; exact Hv | rewrite Bp; exact Hpa].
Qed.

Lemma advanced_by_map (f : ProjectileInstance -> R -> ProjectileInstance) (k st : R)
    (ps0 ps : list ProjectileInstance) :
  (forall q, active (f q st) = true -> active q = true) ->
  (forall q, active q = true -> integrate_bookkeeping q (f q st) st) ->
  Forall2 (advanced_by k) ps0 ps ->
  Forall2 (advanced_by (k + st)) ps0 (map (fun p => f p st) ps).
Proof.
  intros Ha Hb H. induction H as [| p p' ps0 ps Hp _ IH]; simpl; constructor; [| exact IH].
  apply advanced_by_step; assumption.
Qed.

Lemma flat_substeps_advanced (u : UndefinedReads) (fuel : nat) (acc k : R)
    (ps0 ps : list ProjectileInstance) :
  Forall2 (advanced_by k) ps0 ps ->
  Forall2 (advanced_by (k + (acc - snd (flat_substeps fuel u acc ps)))) ps0
    (fst (flat_substeps fuel u acc ps)).
Proof.
  revert acc k ps. induction fuel as [| fuel IH]; intros acc k ps H; simpl.
  - replace (k + (acc - acc)) with k by ring. exact H.
  - destruct (Rltb 0 acc); simpl.
    + cbv zeta.
      match goal with |- Forall2 (advanced_by (k + (acc - snd (flat_substeps fuel u ?a ?l)))) _ _ =>
        assert (H2 := IH a (k + Rmin acc MIN_TIME_STEP) l);
        replace (k + (acc - snd (flat_substeps fuel u a l)))
          with (k + Rmin acc MIN_TIME_STEP + (a - snd (flat_substeps fuel u a l))) by ring end.
      apply H2.
      apply (advanced_by_map (fun p st => SimulationFlat.integrateProjectile u p st));
        [intros q Hq; exact (flat_step_active u q _ Hq) | | exact H].
      intros q Hq. apply flat_step_bookkeeping. exact Hq.
    + replace (k + (acc - acc)) with k by ring. exact H.
Qed.

Lemma bump_substeps_advanced (u : UndefinedReads) (eng : SimulationBump.Engine) (fuel : nat)
    (acc k : R) (ps0 ps : list ProjectileInstance) :
  Forall2 (advanced_by k) ps0 ps ->
  Forall2 (advanced_by (k + (acc - snd (bump_substeps fuel u eng acc ps)))) ps0
    (fst (bump_substeps fuel u eng acc ps)).
Proof.
  revert acc k ps. induction fuel as [| fuel IH]; intros acc k ps H; simpl.
  - replace (k + (acc - acc)) with k by ring. exact H.
  - destruct (Rltb 0 acc); simpl.
    + cbv zeta.
      match goal with |- Forall2 (advanced_by (k + (acc - snd (bump_substeps fuel u eng ?a ?l)))) _ _ =>
        assert (H2 := IH a (k + Rmin acc (minStep ps)) l);
        replace (k + (acc - snd (bump_substeps fuel u eng a l)))
          with (k + Rmin acc (minStep ps) + (a - snd (bump_substeps fuel u eng a l))) by ring end.
      apply H2.
      apply (advanced_by_map (fun p st => SimulationBump.integrateProjectile u eng p st));
        [intros q Hq; exact (bump_step_active u eng q _ Hq) | | exact H].
      intros q Hq. apply bump_step_bookkeeping. exact Hq.
    + replace (k + (acc - acc)) with k by ring. exact H.
Qed.

Lemma advanced_by_refl (ps : list ProjectileInstance) : Forall2 (advanced_by 0) ps ps.
Proof.
  induction ps as [| p ps IH]; constructor; [| exact IH].
  intros H. split; [exact H | split; [ring | split; reflexivity]].
Qed.

Lemma Forall2_filter_in {A : Type} (Rel : A -> A -> Prop) (l0 l : list A) (q : A) (g : A -> bool) :
  Forall2 Rel l0 l -> In q (filter g l) -> exists q0, In q0 l0 /\ Rel q0 q.
Proof.
  intros H Hin. apply filter_In in Hin. destruct Hin as [Hin _].
  induction H as [| a b l0 l Hab _ IH]; [contradiction |].
  destruct Hin as [<- | Hin].
  - exists a. split; [left; reflexivity | exact Hab].
  - destruct (IH Hin) as [q0 [Hq0 Hr]]. exists q0. split; [right; exact Hq0 | exact Hr].
Qed.

Lemma Rltb_false_le (a b : R) : Rltb a b = false -> b <= a.
Proof. unfold Rltb. destruct (Rlt_dec a b); [discriminate | lra]. Qed.

Lemma Rmin_left' (a b : R) : a <= b -> Rmin a b = a.
Proof. intros H. unfold Rmin. destruct (Rle_dec a b); lra. Qed.

Lemma Rmin_right' (a b : R) : b < a -> Rmin a b = b.
Proof. intros H. unfold Rmin. destruct (Rle_dec a b); lra. Qed.

Lemma flat_substeps_spent (u : UndefinedReads) (n : nat) (c : R) (ps : list ProjectileInstance) :
  0 <= c <= INR n * MIN_TIME_STEP -> snd (flat_substeps n u c ps) = 0.
Proof.
  revert c ps. induction n as [| n IH]; intros c ps [H0 H1].
  - simpl in *. lra.
  - rewrite S_INR in H1. simpl.
    destruct (Rltb 0 c) eqn:E; [| apply Rltb_false_le in E; simpl; lra].
    apply Rltb_spec in E. cbv zeta. apply IH.
    unfold MIN_TIME_STEP in *. assert (0 <= INR n) by apply pos_INR.
    destruct (Rle_lt_dec c 0.005).
    + rewrite (Rmin_left' c) by lra. lra.
    + rewrite (Rmin_right' c) by lra. lra.
Qed.

Lemma bump_substeps_spent (u : UndefinedReads) (eng : SimulationBump.Engine) (n : nat) (c : R)
    (ps : list ProjectileInstance) :
  0 <= c <= INR n * MIN_TIME_STEP -> snd (bump_substeps n u eng c ps) = 0.
Proof.
  revert c ps. induction n as [| n IH]; intros c ps [H0 H1].
  - simpl in *. lra.
  - rewrite S_INR in H1. simpl.
    destruct (Rltb 0 c) eqn:E; [| apply Rltb_false_le in E; simpl; lra].
    apply Rltb_spec in E. cbv zeta. apply IH.
    destruct (minStep_bounds ps) as [M1 M2].
    assert (0 <= INR n) by apply pos_INR.
    destruct (Rle_lt_dec c (minStep ps)).
    + rewrite (Rmin_left' c) by lra. nra.
    + rewrite (Rmin_right' c) by lra. nra.
Qed.

Lemma flat_substeps_exit (u : UndefinedReads) (c : R) (ps : list ProjectileInstance) :
  0 < c -> c <= MAX_TIME_STEP -> snd (flat_substeps 4 u c ps) = 0.
Proof.
  intros H0 H1. apply flat_substeps_spent.
  unfold MAX_TIME_STEP, MIN_TIME_STEP in *. simpl. lra.
Qed.

Lemma bump_substeps_exit (u : UndefinedReads) (eng : SimulationBump.Engine) (c : R)
    (ps : list ProjectileInstance) :
  0 < c -> c <= MAX_TIME_STEP -> snd (bump_substeps 4 u eng c ps) = 0.
Proof.
  intros H0 H1. apply bump_substeps_spent.
  unfold MAX_TIME_STEP, MIN_TIME_STEP in *. simpl. lra.
Qed.

Lemma flat_substeps_idle (u : UndefinedReads) (fuel : nat) (c : R) (ps : list ProjectileInstance) :
  c <= 0 -> flat_substeps fuel u c ps = (ps, c).
Proof.
  intros H. destruct fuel; simpl; [reflexivity |]. rewrite (Rltb_false 0 c) by lra. reflexivity.
Qed.

Lemma bump_substeps_idle (u : UndefinedReads) (eng : SimulationBump.Engine) (fuel : nat) (c : R)
    (ps : list ProjectileInstance) :
  c <= 0 -> bump_substeps fuel u eng c ps = (ps, c).
Proof.
  intros H. destruct fuel; simpl; [reflexivity |]. rewrite (Rltb_false 0 c) by lra. reflexivity.
Qed.

Lemma flat_substeps_stop (u : UndefinedReads) (fuel : nat) (c : R) (ps : list ProjectileInstance) :
  snd (flat_substeps fuel u c ps) <= 0 ->
  forall n, (fuel <= n)%nat -> flat_substeps n u c ps = flat_substeps fuel u c ps.
Proof.
  revert c ps. induction fuel as [| fuel IH]; intros c ps H n Hn.
  - simpl in H. simpl. apply flat_substeps_idle. exact H.
  - destruct n as [| n]; [lia |]. simpl in H |- *.
    destruct (Rltb 0 c); [| reflexivity].
    apply IH; [exact H | lia].
Qed.

Lemma bump_substeps_stop (u : UndefinedReads) (eng : SimulationBump.Engine) (fuel : nat) (c : R)
    (ps : list ProjectileInstance) :
  snd (bump_substeps fuel u eng c ps) <= 0 ->
  forall n, (fuel <= n)%nat -> bump_substeps n u eng c ps = bump_substeps fuel u eng c ps.
Proof.
  revert c ps. induction fuel as [| fuel IH]; intros c ps H n Hn.
  - simpl in H. simpl. apply bump_substeps_idle. exact H.
  - destruct n as [| n]; [lia |]. simpl in H |- *.
    destruct (Rltb 0 c); [| reflexivity].
    apply IH; [exact H | lia].
Qed.

(** The sub-stepping [while (accumulator > 0)] loops of both engines'
    [update] exit after at most four rounds for every frame time [dt]: any
    further round would find the accumulator spent, so running the loop
    with more rounds gives the same projectiles. For [dt > 0] the
    sub-steps consume exactly the clamped frame time. *)
Theorem update_loop_exits (u : UndefinedReads) (eng : SimulationBump.Engine)
    (ps : list ProjectileInstance) (dt : R) :
  (forall n, (4 <= n)%nat ->
     flat_substeps n u (clampedStep dt) ps = flat_substeps 4 u (clampedStep dt) ps /\
     bump_substeps n u eng (clampedStep dt) ps = bump_substeps 4 u eng (clampedStep dt) ps) /\
  (0 < dt -> snd (flat_substeps 4 u (clampedStep dt) ps) = 0 /\
             snd (bump_substeps 4 u eng (clampedStep dt) ps) = 0).
Proof.
  assert (Hle := clampedStep_le dt).
  destruct (Rle_lt_dec dt 0) as [Hd | Hd].
  - assert (Hc := clampedStep_nonpos dt Hd).
    split; [| intros; lra].
    intros n _. rewrite !flat_substeps_idle, !bump_substeps_idle by exact Hc. split; reflexivity.
  - assert (Hc := clampedStep_pos dt Hd).
    assert (F := flat_substeps_exit u _ ps Hc Hle).
    assert (B := bump_substeps_exit u eng _ ps Hc Hle).
    split; [| intros _; split; assumption].
    intros n Hn. split.
    + apply flat_substeps_stop; [rewrite F; lra | exact Hn].
    + apply bump_substeps_stop; [rewrite B; lra | exact Hn].
Qed.

Lemma update_loop_exits_witness :
  let u := mkUndefinedReads qidentity vzero 0 in
  let eng := SimulationBump.mkEngine (Turbulence.create 0.1 0.2 0.3) 0
               (SimulationBump.mkSurface 0.6 0.5) in
  (0 < 1 / 60) /\ snd (flat_substeps 4 u (clampedStep (1 / 60)) []) = 0.
Proof.
  intros u eng. assert (H : 0 < 1 / 60) by lra. split; [exact H |].
  destruct (update_loop_exits u eng [] (1 / 60)) as [_ H2].
  destruct (H2 H) as [H3 _]. exact H3.
Defined.

(** Every projectile still listed after [update] with a positive frame
    time, in either engine, is active and comes from an active projectile
    of the input whose flight clock it carries forward by exactly
    [min(1.5 dt, 0.02)], with its environment and launch parameters
    unchanged. With [dt <= 0] the flat engine only drops the inactive
    projectiles. The bump-mapped engine also advances its global clock by
    the clamped time and the turbulence field by half of it. *)
Theorem update_survivors (u : UndefinedReads) (eng : SimulationBump.Engine)
    (ps : list ProjectileInstance) (dt : R) :
  (0 < dt -> forall p', In p' (flat_update u ps dt) ->
     active p' = true /\
     exists p, In p ps /\ active p = true /\ elapsed p' = elapsed p + clampedStep dt /\
               penvironment p' = penvironment p /\ params p' = params p) /\
  (dt <= 0 -> flat_update u ps dt = filter active ps) /\
  (0 < dt -> forall p', In p' (snd (bump_update u eng ps dt)) ->
     active p' = true /\
     exists p, In p ps /\ active p = true /\ elapsed p' = elapsed p + clampedStep dt /\
               penvironment p' = penvironment p /\ params p' = params p) /\
  SimulationBump.globalTime (fst (bump_update u eng ps dt)) =
    SimulationBump.globalTime eng + clampedStep dt /\
  Turbulence.ftime (SimulationBump.turbulence (fst (bump_update u eng ps dt))) =
    Turbulence.ftime (SimulationBump.turbulence eng) + clampedStep dt * 0.5.
Proof.
  assert (Hle := clampedStep_le dt).
  split; [| split; [| split; [| split; reflexivity]]].
  - intros Hd p' Hin.
    assert (Hc := clampedStep_pos dt Hd).
    assert (A := flat_substeps_advanced u 4 (clampedStep dt) 0 ps ps (advanced_by_refl ps)).
    rewrite (flat_substeps_exit u _ ps Hc Hle) in A.
    replace (0 + (clampedStep dt - 0)) with (clampedStep dt) in A by ring.
    assert (Hact : active p' = true) by (apply filter_In in Hin; tauto).
    destruct (Forall2_filter_in _ _ _ _ _ A Hin) as [p [Hp Hr]].
    split; [exact Hact |]. exists p. split; [exact Hp |]. exact (Hr Hact).
  - intros Hd. unfold flat_update.
    rewrite flat_substeps_idle by (apply clampedStep_nonpos; exact Hd). reflexivity.
  - intros Hd p' Hin. unfold bump_update in Hin. cbv zeta in Hin. cbn [snd] in Hin.
    assert (Hc := clampedStep_pos dt Hd).
    match type of Hin with context [bump_substeps 4 u ?e _ _] =>
      assert (A := bump_substeps_advanced u e 4 (clampedStep dt) 0 ps ps (advanced_by_refl ps));
      rewrite (bump_substeps_exit u e _ ps Hc Hle) in A end.
    replace (0 + (clampedStep dt - 0)) with (clampedStep dt) in A by ring.
    assert (Hact : active p' = true) by (apply filter_In in Hin; tauto).
    destruct (Forall2_filter_in _ _ _ _ _ A Hin) as [p [Hp Hr]].
    split; [exact Hact |]. exists p. split; [exact Hp |]. exact (Hr Hact).
Qed.

(** ** Extra properties: launch force profiles *)

Lemma easeImpulse_unit (t d : R) : 0 <= t -> 0 < d -> 0 <= easeImpulse t d <= 1.
Proof.
  intros Ht Hd. unfold easeImpulse. cbv zeta.
  assert (Hx : 0 <= Rmin (t / d) 1 <= 1).
  { unfold Rmin. destruct (Rle_dec (t / d) 1); split; try lra.
    apply Rdiv_nonneg_pos; lra. }
  assert (HP := PI_RGT_0).
  split; [| apply SIN_bound].
  apply sin_ge_0; nra.
Qed.

Lemma easeImpulse_half (d : R) : 0 < d -> easeImpulse (d / 2) d = 1.
Proof.
  intros Hd. unfold easeImpulse. cbv zeta.
  replace (d / 2 / d) with (1 / 2) by (field; lra).
  rewrite (Rmin_left' (1 / 2) 1) by lra.
  replace (1 / 2 * PI) with (PI / 2) by field. exact sin_PI2.
Qed.

Lemma launch_dir_unit (e a : R) : vlength (launch_dir e a) = 1.
Proof.
  unfold vlength, vlengthSq, launch_dir. cbn [vx vy vz].
  assert (H1 := sin2_cos2 (e * DEG2RAD)). assert (H2 := sin2_cos2 (a * DEG2RAD)).
  unfold Rsqr in *.
  match goal with |- sqrt ?x = 1 => replace x with 1 end; [exact sqrt_1 |].
  transitivity (cos (e * DEG2RAD) * cos (e * DEG2RAD) *
                (sin (a * DEG2RAD) * sin (a * DEG2RAD) + cos (a * DEG2RAD) * cos (a * DEG2RAD)) +
                sin (e * DEG2RAD) * sin (e * DEG2RAD)); [| ring].
  rewrite H2. lra.
Qed.

Lemma launch_dir_up (e a : R) : 0 < e < 180 -> 0 < vy (launch_dir e a).
Proof.
  intros He. unfold launch_dir, DEG2RAD. cbn [vy]. assert (HP := PI_RGT_0).
  apply sin_gt_0.
  - apply Rmult_lt_0_compat; [lra | apply Rdiv_lt_0_compat; lra].
  - replace (e * (PI / 180)) with (PI * (e / 180)) by field.
    rewrite <- (Rmult_1_r PI) at 2. apply Rmult_lt_compat_l; [lra |].
    apply (Rmult_lt_reg_r 180); [lra |]. unfold Rdiv. rewrite Rmult_assoc, Rinv_l; lra.
Qed.

Lemma impulseVector_dir (s e a : R) : impulseVector s e a = vscale (launch_dir e a) s.
Proof. reflexivity. Qed.

Lemma profile_shape (d peak e a : R) :
  0 < d -> 0 < peak -> 0 < e < 180 ->
  let f := fun t => impulseVector (peak * easeImpulse t d) e a in
  exists dir, vlength dir = 1 /\ 0 < vy dir /\
    (forall t, 0 <= t -> exists k, 0 <= k <= peak /\ f t = vscale dir k) /\
    f (d / 2) = vscale dir peak.
Proof.
  intros Hd Hp He f. exists (launch_dir e a).
  split; [apply launch_dir_unit |]. split; [apply launch_dir_up; exact He |].
  split.
  - intros t Ht. exists (peak * easeImpulse t d).
    assert (H := easeImpulse_unit t d Ht Hd). split; [split; nra | reflexivity].
  - unfold f. rewrite easeImpulse_half by exact Hd. rewrite Rmult_1_r. reflexivity.
Qed.

(** Every launch profile pushes along one fixed unit direction that points
    upward, with a strength that stays between 0 and the profile's peak
    force at every time [t >= 0] and reaches the peak at half the contact
    duration; its spin axis is a unit vector and its duration is
    positive. *)
Theorem forceProfiles_shape (pr : ForceProfile) :
  In pr forceProfiles ->
  0 < duration pr /\ vlength (spinAxis pr) = 1 /\
  exists peak dir, 0 < peak /\ vlength dir = 1 /\ 0 < vy dir /\
    (forall t, 0 <= t -> exists k, 0 <= k <= peak /\ impulse pr t = vscale dir k) /\
    impulse pr (duration pr / 2) = vscale dir peak.
Proof.
  intros Hin.
  assert (U : forall x y z : R, x * x + y * y + z * z = 1 -> vlength (mkVec3 x y z) = 1).
  { intros x y z H. unfold vlength, vlengthSq. cbn [vx vy vz]. rewrite H. exact sqrt_1. }
  simpl in Hin.
  repeat (destruct Hin as [<- | Hin]); try contradiction;
  unfold cannonProfile, kickProfile, batProfile, throwProfile, railProfile;
  cbn [duration spinAxis impulse];
  (split; [lra | split; [first [apply U; lra | apply vnormalize_unit;
                                 unfold vlengthSq; cbn [vx vy vz]; lra] |]]);
  match goal with |- context [impulseVector (?p * easeImpulse (?d / 2) ?d) ?e ?a] =>
    exists p; destruct (profile_shape d p e a ltac:(lra) ltac:(lra) ltac:(lra)) as [dir Hdir];
    exists dir; split; [lra | exact Hdir] end.
Qed.

Lemma forceProfiles_shape_witness :
  In cannonProfile forceProfiles /\ 0 < duration cannonProfile.
Proof.
  assert (H : In cannonProfile forceProfiles) by (left; reflexivity).
  split; [exact H |]. exact (proj1 (forceProfiles_shape cannonProfile H)).
Defined.

(** ** Extra properties: bump-mapped contact *)

(** The bump-mapped engine reads the surface only through its friction:
    two engines with the same turbulence field, clock and surface friction
    give the same [integrateProjectile] step, whatever restitution
    [setSurfaceType] stored (0.5, 0.7, 0.4 or 0.9). *)
Theorem bump_surface_restitution_unused (u : UndefinedReads) (eng1 eng2 : SimulationBump.Engine)
    (p : ProjectileInstance) (dt : R) :
  SimulationBump.turbulence eng1 = SimulationBump.turbulence eng2 ->
  SimulationBump.globalTime eng1 = SimulationBump.globalTime eng2 ->
  SimulationBump.friction (SimulationBump.surfaceProps eng1) =
    SimulationBump.friction (SimulationBump.surfaceProps eng2) ->
  SimulationBump.integrateProjectile u eng1 p dt = SimulationBump.integrateProjectile u eng2 p dt.
Proof.
  destruct eng1 as [t1 g1 [f1 r1]], eng2 as [t2 g2 [f2 r2]]. simpl.
  intros -> -> ->. reflexivity.
Qed.

Lemma bump_surface_restitution_unused_witness :
  let u := mkUndefinedReads qidentity vzero 0 in
  let eng := SimulationBump.mkEngine (Turbulence.create 0.1 0.2 0.3) 0
               (SimulationBump.mkSurface 0.6 0.5) in
  let p := mkInstance
             (mkState (mkVec3 0 0.11 0) (mkVec3 2 (-3) 0) vzero qidentity
                0.45 0.038 0.3 0.1 0.5 (mkVec3 0.002 0.002 0.002) 0.11)
             (mkEnv 9.81 vzero 1.225)
             (mkParams (mkProfile 0 (fun _ => vzero) vzero 0) false)
             1 0 [] None false true in
  SimulationBump.integrateProjectile u eng p 0.01 =
  SimulationBump.integrateProjectile u (SimulationBump.mkEngine (Turbulence.create 0.1 0.2 0.3) 0
               (SimulationBump.mkSurface 0.6 0.9)) p 0.01.
Proof.
  intros u eng p. apply bump_surface_restitution_unused; reflexivity.
Defined.

Lemma cross_offset_normal_zero (n I : Vec3) (r : R) :
  vdot (vcross (vscale n (- r)) (vdivc (vcross (vscale n (- r)) n) I)) n = 0.
Proof.
  unfold vdot, vdivc, vcross, vscale. cbn [vx vy vz].
  replace (vy n * - r * vz n - vz n * - r * vy n) with 0 by ring.
  replace (vz n * - r * vx n - vx n * - r * vz n) with 0 by ring.
  replace (vx n * - r * vy n - vy n * - r * vx n) with 0 by ring.
  unfold Rdiv. ring.
Qed.

Lemma contact_vn (v w n : Vec3) (r : R) :
  vdot (vadd v (vcross w (vscale n (- r)))) n = vdot v n.
Proof. unfold vdot, vadd, vcross, vscale. cbn [vx vy vz]. ring. Qed.

Lemma tangential_perp (c n : Vec3) :
  vdot n n = 1 -> vdot (vsub c (vscale n (vdot c n))) n = 0.
Proof.
  intros Hn. unfold vdot, vsub, vscale in *. cbn [vx vy vz] in *.
  transitivity ((vx c * vx n + vy c * vy n + vz c * vz n) *
                (1 - (vx n * vx n + vy n * vy n + vz n * vz n))); [ring |].
  rewrite Hn. ring.
Qed.

Lemma vnormalize_perp (t n : Vec3) :
  vdot t n = 0 -> 0 < vlength t ->
  vdot (vnormalize t) n = 0 /\ vdot (vnormalize t) (vnormalize t) = 1.
Proof.
  intros Ht Hl.
  assert (HS : 0 < vlengthSq t).
  { unfold vlength in Hl. destruct (Rle_lt_dec (vlengthSq t) 0) as [H|H]; [| exact H].
    rewrite (sqrt_neg_0 _ H) in Hl. lra. }
  assert (Hu := vnormalize_unit t HS).
  split.
  - rewrite vnormalize_pos by exact HS. unfold vdot, vscale in *. cbn [vx vy vz].
    transitivity ((vx t * vx n + vy t * vy n + vz t * vz n) * (1 / vlength t)); [ring |].
    rewrite Ht. ring.
  - unfold vlength in Hu. rewrite <- sqrt_1 in Hu.
    apply sqrt_inj in Hu; [| unfold vlengthSq; nra | lra].
    exact Hu.
Qed.

Lemma vdot_self_sq (a : Vec3) : vdot a a = vlengthSq a.
Proof. reflexivity. Qed.

(** On the bump-mapped ground the collision acts along the local perturbed
    normal [n], whatever the spin: the ball is put back at height
    [radius]; if its velocity along [n] is not below -1 cm/s its velocity
    and spin are kept; otherwise its velocity along [n] becomes exactly
    [- effectiveRestitution(restitution, |v.n|)] times the incoming one,
    and its velocity across [n] changes by at most the surface friction
    times [(1 + effective restitution) |v.n|] (for a non-negative
    friction). *)
Theorem bump_handleGroundCollision_response (eng : SimulationBump.Engine) (s : ProjectileState) :
  0 < mass s ->
  0 < vx (momentOfInertia s) -> 0 < vy (momentOfInertia s) -> 0 < vz (momentOfInertia s) ->
  0 <= SimulationBump.friction (SimulationBump.surfaceProps eng) ->
  let n := SimulationBump.getGroundNormal (vx (position s)) (vz (position s)) in
  let vn := vdot (velocity s) n in
  let e := SimulationBump.effectiveRestitution (restitution s) (Rabs vn) in
  let s' := SimulationBump.handleGroundCollision eng s in
  let dv := vsub (velocity s') (velocity s) in
  vy (position s') = radius s /\
  (-0.01 <= vn -> velocity s' = velocity s /\ spin s' = spin s) /\
  (vn < -0.01 ->
     vdot (velocity s') n = - e * vn /\
     vlength (vsub dv (vscale n (vdot dv n))) <=
       SimulationBump.friction (SimulationBump.surfaceProps eng) * Rabs ((1 + e) * vn)).
Proof.
  intros Hm HIx HIy HIz Hmu n vn e s' dv.
  assert (Hn : vdot n n = 1).
  { rewrite vdot_self_sq. destruct (getGroundNormal_bounds (vx (position s)) (vz (position s))) as [H _].
    fold n in H. unfold vlength in H. rewrite <- sqrt_1 in H.
    apply sqrt_inj in H; [exact H | unfold vlengthSq; nra | lra]. }
  unfold dv, s', SimulationBump.handleGroundCollision. fold n. cbv zeta.
  rewrite !contact_vn, !cross_offset_normal_zero, Rplus_0_r. fold vn. fold e.
  destruct (Rleb (-0.01) vn) eqn:E1.
  - apply Rleb_spec in E1.
    split; [reflexivity |]. split; [intros; split; reflexivity | intros; lra].
  - apply Rleb_false_inv in E1.
    split; [destruct (Rltb 0.01 _); reflexivity |].
    split; [intros; lra | intros _].
    set (mu := SimulationBump.friction (SimulationBump.surfaceProps eng)) in *.
    set (jn := - (1 + e) * vn / (1 / mass s)).
    assert (Hjn : Rabs jn = mass s * Rabs ((1 + e) * vn)).
    { unfold jn. replace (- (1 + e) * vn / (1 / mass s)) with (- (mass s * ((1 + e) * vn)))
        by (field; lra).
      rewrite Rabs_Ropp, Rabs_mult, (Rabs_right (mass s)) by lra. reflexivity. }
    set (cv := vadd (velocity s) (vcross (spin s) (vscale n (- radius s)))).
    set (tv := vsub cv (vscale n vn)).
    assert (Htn : vdot tv n = 0).
    { unfold tv, vn. rewrite <- (contact_vn (velocity s) (spin s) n (radius s)).
      fold cv. apply tangential_perp. exact Hn. }
    assert (Hv1 : forall k, vdot (vaddScaled (velocity s) (vscale n jn) k) n = vn + jn * k).
    { intros k. unfold vn, vdot, vaddScaled, vscale in *. cbn [vx vy vz] in *.
      transitivity (vx (velocity s) * vx n + vy (velocity s) * vy n + vz (velocity s) * vz n +
                    jn * k * (vx n * vx n + vy n * vy n + vz n * vz n)); [ring |].
      rewrite Hn. ring. }
    destruct (Rltb 0.01 (vlength tv)) eqn:E2.
    + apply Rltb_spec in E2.
      destruct (vnormalize_perp tv n Htn) as [Hdn Hdd]; [lra |].
      match goal with |- context [Rmax (- ?M) (Rmin ?M ?x)] =>
        assert (Hjt := clamp_abs M x); generalize dependent (Rmax (- M) (Rmin M x)) end.
      intros jt Hjt.
      generalize dependent (vnormalize tv). intros d Hdn Hdd.
      cbn [set_position set_velocity set_spin vset_y position velocity spin mass rotation area
           dragCoefficient spinDamping restitution momentOfInertia radius].
      set (k := 1 / mass s).
      assert (Hk : 0 < k) by (unfold k; apply Rdiv_lt_0_compat; lra).
      assert (Hdot : vdot (vaddScaled (vaddScaled (velocity s) (vscale n jn) k) (vscale d jt) k) n =
                     vn + jn * k).
      { rewrite <- (Hv1 k). unfold vdot, vaddScaled, vscale in *. cbn [vx vy vz] in *.
        transitivity (vx (velocity s) * vx n + vy (velocity s) * vy n + vz (velocity s) * vz n +
                      jn * k * (vx n * vx n + vy n * vy n + vz n * vz n) +
                      jt * k * (vx d * vx n + vy d * vy n + vz d * vz n)); [ring |].
        rewrite Hdn. ring. }
      split.
      * rewrite Hdot. unfold jn, k. field. lra.
      * set (w := vaddScaled (vaddScaled (velocity s) (vscale n jn) k) (vscale d jt) k).
        assert (Hw : vdot (vsub w (velocity s)) n = jn * k).
        { transitivity (vdot w n - vn); [unfold vn, vdot, vsub; cbn [vx vy vz]; ring |].
          unfold w. rewrite Hdot. ring. }
        rewrite Hw.
        replace (vsub (vsub w (velocity s)) (vscale n (jn * k))) with (vscale d (jt * k)).
        2:{ unfold w, vsub, vscale, vaddScaled. cbn [vx vy vz]. f_equal; ring. }
        unfold vlength. rewrite vlengthSq_vscale, <- vdot_self_sq, Hdd, Rmult_1_r.
        rewrite <- Rsqr_def, sqrt_Rsqr_abs, Rabs_mult, (Rabs_right k) by lra.
        assert (H0 : 0 <= mu * Rabs jn) by (apply Rmult_le_pos; [exact Hmu | apply Rabs_pos]).
        specialize (Hjt H0). rewrite Hjn in Hjt.
        apply (Rmult_le_reg_r (mass s)); [lra |].
        replace (Rabs jt * k * mass s) with (Rabs jt) by (unfold k; field; lra). lra.
    + cbn [set_position set_velocity set_spin vset_y position velocity spin mass rotation area
           dragCoefficient spinDamping restitution momentOfInertia radius].
      split.
      * rewrite Hv1. unfold jn. field. lra.
      * replace (vsub (vsub (vaddScaled (velocity s) (vscale n jn) (1 / mass s)) (velocity s))
                  (vscale n (vdot (vsub (vaddScaled (velocity s) (vscale n jn) (1 / mass s))
                                        (velocity s)) n))) with vzero.
        2:{ assert (Hw : vdot (vsub (vaddScaled (velocity s) (vscale n jn) (1 / mass s)) (velocity s)) n
                         = jn * (1 / mass s)).
            { transitivity (vdot (vaddScaled (velocity s) (vscale n jn) (1 / mass s)) n - vn);
                [unfold vn, vdot, vsub; cbn [vx vy vz]; ring |].
              rewrite Hv1. ring. }
            rewrite Hw. unfold vzero, vsub, vscale, vaddScaled. cbn [vx vy vz]. f_equal; ring. }
        unfold vlength, vlengthSq, vzero. cbn [vx vy vz].
        replace (0 * 0 + 0 * 0 + 0 * 0) with 0 by ring. rewrite sqrt_0.
        apply Rmult_le_pos; [exact Hmu | apply Rabs_pos].
Qed.

Lemma bump_handleGroundCollision_response_witness :
  let eng := SimulationBump.mkEngine (Turbulence.create 0.1 0.2 0.3) 0
               (SimulationBump.mkSurface 0.6 0.5) in
  let s := mkState (mkVec3 0 0.1 0) (mkVec3 3 (-8) 0) (mkVec3 0 0 20) qidentity
             1 0.01 0.47 0.1 0.6 (mkVec3 0.02 0.02 0.02) 0.1 in
  0 < mass s /\ 0 < vx (momentOfInertia s) /\ 0 < vy (momentOfInertia s) /\
  0 < vz (momentOfInertia s) /\ 0 <= SimulationBump.friction (SimulationBump.surfaceProps eng) /\
  vy (position (SimulationBump.handleGroundCollision eng s)) = radius s.
Proof.
  intros eng s.
  assert (H1 : 0 < mass s) by (simpl; lra).
  assert (H2 : 0 < vx (momentOfInertia s)) by (simpl; lra).
  assert (H3 : 0 < vy (momentOfInertia s)) by (simpl; lra).
  assert (H4 : 0 < vz (momentOfInertia s)) by (simpl; lra).
  assert (H5 : 0 <= SimulationBump.friction (SimulationBump.surfaceProps eng)) by (simpl; lra).
  split; [exact H1 | split; [exact H2 | split; [exact H3 | split; [exact H4 | split; [exact H5 |]]]]].
  destruct (bump_handleGroundCollision_response eng s H1 H2 H3 H4 H5) as [Hy _]. exact Hy.
Defined.

(** ** Extra properties: power of the aerodynamic forces *)

Lemma dragForce_dot_nonpos (s : ProjectileState) (e : EnvironmentState) :
  0 < mass s -> 0 <= area s -> 0 < radius s -> 0 < airDensity e -> 0 <= dragCoefficient s ->
  vdot (dragForce s e) (vsub (velocity s) (windVector e)) <= 0.
Proof.
  intros Hm Ha Hr Hrho Hb.
  unfold dragForce. cbv zeta.
  set (vrel := vsub (velocity s) (windVector e)).
  set (speed := vlength vrel).
  set (rho := airDensityAtAltitude (Rmax 0 (vy (position s))) (airDensity e)).
  set (cd := getDragCoefficient (reynoldsNumber speed (radius s * 2) rho (airViscosity SEA_LEVEL_TEMP))
               (dragCoefficient s)).
  assert (Hsp : 0 <= speed) by (apply sqrt_pos).
  assert (Hrho' : 0 < rho) by (apply airDensityAtAltitude_pos; exact Hrho).
  destruct (Reqb speed 0) eqn:E.
  - unfold vdot, vzero. cbn [vx vy vz]. lra.
  - assert (H0 : speed <> 0) by (intros H; apply Reqb_spec in H; congruence).
    assert (Hmu := airViscosity_pos).
    assert (Hre : 0 < reynoldsNumber speed (radius s * 2) rho (airViscosity SEA_LEVEL_TEMP)).
    { unfold reynoldsNumber. apply Rdiv_lt_0_compat; [| exact Hmu].
      apply Rmult_lt_0_compat; [apply Rmult_lt_0_compat |]; lra. }
    assert (Hc := getDragCoefficient_nonneg _ _ Hre Hb). fold cd in Hc.
    set (k := 0.5 * cd * rho * area s / mass s).
    assert (Hk : 0 <= k).
    { unfold k. apply Rmult_le_pos; [| apply Rlt_le, Rinv_0_lt_compat; exact Hm].
      qnum. apply Rmult_le_pos; [apply Rmult_le_pos; [apply Rmult_le_pos |] |]; lra. }
    unfold vdot, vscale. cbn [vx vy vz].
    assert (Hn : 0 <= vx vrel * vx vrel + vy vrel * vy vrel + vz vrel * vz vrel) by nra.
    assert (Hks : 0 <= k * speed) by (apply Rmult_le_pos; lra).
    replace (vx vrel * (- k * speed) * vx vrel + vy vrel * (- k * speed) * vy vrel +
             vz vrel * (- k * speed) * vz vrel)
      with (- (k * speed) * (vx vrel * vx vrel + vy vrel * vy vrel + vz vrel * vz vrel)) by ring.
    nra.
Qed.

Lemma magnusForce_perp (s : ProjectileState) (e : EnvironmentState) :
  vdot (magnusForce s e) (vsub (velocity s) (windVector e)) = 0 /\
  vdot (magnusForce s e) (spin s) = 0.
Proof.
  unfold magnusForce. cbv zeta.
  destruct (orb _ _).
  - unfold vdot, vzero. cbn [vx vy vz]. split; ring.
  - unfold vdot, vscale, vcross. cbn [vx vy vz]. split; ring.
Qed.

(** The Magnus acceleration is perpendicular to both the velocity relative
    to the air and the spin, so it does no work relative to the air; with
    drag opposing the relative velocity, the aerodynamic part of
    [totalAcceleration] (everything but the [-g] of gravity) never
    speeds the projectile up relative to the air, for physical parameters. *)
Theorem aerodynamic_acceleration_dissipative (s : ProjectileState) (e : EnvironmentState) :
  0 < mass s -> 0 <= area s -> 0 < radius s -> 0 < airDensity e -> 0 <= dragCoefficient s ->
  let vrel := vsub (velocity s) (windVector e) in
  vdot (magnusForce s e) vrel = 0 /\ vdot (magnusForce s e) (spin s) = 0 /\
  vdot (vsub (totalAcceleration s e) (mkVec3 0 (- gravity e) 0)) vrel <= 0.
Proof.
  intros Hm Ha Hr Hrho Hb vrel.
  destruct (magnusForce_perp s e) as [M1 M2].
  split; [exact M1 | split; [exact M2 |]].
  assert (D := dragForce_dot_nonpos s e Hm Ha Hr Hrho Hb). fold vrel in D, M1.
  clear M2. unfold totalAcceleration. cbv zeta.
  generalize dependent (dragForce s e). generalize dependent (magnusForce s e).
  intros mg Hmg dr Hdr.
  unfold vdot, vsub, vadd, vscale, gravityForce, vzero in *. cbn [vx vy vz] in *.
  replace ((0 + 0 * (1 / mass s) + vx dr + vx mg - 0) * vx vrel +
           (0 + - mass s * gravity e * (1 / mass s) + vy dr + vy mg - - gravity e) * vy vrel +
           (0 + 0 * (1 / mass s) + vz dr + vz mg - 0) * vz vrel)
    with ((vx dr * vx vrel + vy dr * vy vrel + vz dr * vz vrel) +
          (vx mg * vx vrel + vy mg * vy vrel + vz mg * vz vrel)) by (field; lra).
  lra.
Qed.

Lemma aerodynamic_acceleration_dissipative_witness :
  let s := mkState (mkVec3 0 10 0) (mkVec3 30 5 0) (mkVec3 0 0 50) qidentity
             0.45 0.038 0.25 0.1 0.6 (mkVec3 0.002 0.002 0.002) 0.11 in
  let e := mkEnv 9.81 (mkVec3 2 0 1) 1.2041 in
  0 < mass s /\ 0 <= area s /\ 0 < radius s /\ 0 < airDensity e /\ 0 <= dragCoefficient s /\
  vdot (magnusForce s e) (vsub (velocity s) (windVector e)) = 0.
Proof.
  intros s e.
  assert (H1 : 0 < mass s) by (simpl; lra).
  assert (H2 : 0 <= area s) by (simpl; lra).
  assert (H3 : 0 < radius s) by (simpl; lra).
  assert (H4 : 0 < airDensity e) by (simpl; lra).
  assert (H5 : 0 <= dragCoefficient s) by (simpl; lra).
  split; [exact H1 | split; [exact H2 | split; [exact H3 | split; [exact H4 | split; [exact H5 |]]]]].
  destruct (aerodynamic_acceleration_dissipative s e H1 H2 H3 H4 H5) as [H _]. exact H.
Defined.

(** ** Extra properties: gyroscopic precession *)

Lemma precession_perp (w : Vec3) :
  vdot (vnormalize (mkVec3 (vy w - vz w) (vz w - vx w) (vx w - vy w))) w = 0.
Proof.
  unfold vnormalize. cbv zeta.
  generalize (if Reqb (vlength (mkVec3 (vy w - vz w) (vz w - vx w) (vx w - vy w))) 0 then 1
              else vlength (mkVec3 (vy w - vz w) (vz w - vx w) (vx w - vy w))).
  intros d. unfold vdot, vscale. cbn [vx vy vz]. ring.
Qed.

(** The gyroscopic precession step of [integrateRotation] only adds a
    component perpendicular to the spin: the change of the spin vector is
    orthogonal to the old spin, so the squared spin speed grows by exactly
    the squared size of the change and never decreases. *)
Theorem integrateRotation_precession_orthogonal (s : ProjectileState) (dt : R) :
  let w := spin s in
  let w' := spin (integrateRotation s dt) in
  vdot (vsub w' w) w = 0 /\
  vlengthSq w' = vlengthSq w + vlengthSq (vsub w' w).
Proof.
  intros w w'. unfold w', integrateRotation. cbv zeta.
  destruct (Reqb (vlengthSq (spin s)) 0).
  - fold w. unfold vdot, vsub, vlengthSq. cbn [vx vy vz]. split; ring.
  - cbn [set_rotation set_spin spin]. fold w.
    destruct (Rltb 0.001 _).
    + assert (P := precession_perp w).
      generalize dependent (vnormalize (mkVec3 (vy w - vz w) (vz w - vx w) (vx w - vy w))).
      intros p Hp. generalize (0.1 * (Rabs (vx (momentOfInertia s) - vy (momentOfInertia s)) +
        Rabs (vy (momentOfInertia s) - vz (momentOfInertia s)) +
        Rabs (vz (momentOfInertia s) - vx (momentOfInertia s))) * dt). intros k.
      unfold vdot, vsub, vaddScaled, vlengthSq in *. cbn [vx vy vz] in *.
      split.
      * transitivity (k * (vx p * vx w + vy p * vy w + vz p * vz w)); [ring |]. rewrite Hp. ring.
      * transitivity (vx w * vx w + vy w * vy w + vz w * vz w +
                      k * k * (vx p * vx p + vy p * vy p + vz p * vz p) +
                      2 * k * (vx p * vx w + vy p * vy w + vz p * vz w)); [ring |].
        rewrite Hp. ring.
    + unfold vdot, vsub, vlengthSq. cbn [vx vy vz]. split; ring.
Qed.

(** ** Extra properties: bump-mapped rolling contact *)

Lemma getGroundNormal_dot_self (x z : R) :
  vdot (SimulationBump.getGroundNormal x z) (SimulationBump.getGroundNormal x z) = 1.
Proof.
  rewrite vdot_self_sq. destruct (getGroundNormal_bounds x z) as [H _].
  unfold vlength in H. rewrite <- sqrt_1 in H.
  apply sqrt_inj in H; [exact H | unfold vlengthSq; nra | lra].
Qed.

Lemma vnormalize_dot_zero (t n : Vec3) : vdot t n = 0 -> vdot (vnormalize t) n = 0.
Proof.
  intros H. unfold vnormalize. cbv zeta.
  generalize (if Reqb (vlength t) 0 then 1 else vlength t). intros d.
  unfold vdot, vscale in *. cbn [vx vy vz].
  transitivity ((vx t * vx n + vy t * vy n + vz t * vz n) * (1 / d)); [ring |]. rewrite H. ring.
Qed.

(** The bump-mapped rolling contact never leaves the ball moving into the
    ground: it puts the ball at height [radius] without moving it
    horizontally, and afterwards the velocity component along the local
    ground normal is non-negative (an inward component is removed, rolling
    friction acts along the ground, and damping only scales the velocity). *)
Theorem bump_applyGroundContactForces_no_penetration (p : ProjectileInstance) (dt : R) :
  let s := pstate p in
  let n := SimulationBump.getGroundNormal (vx (position s)) (vz (position s)) in
  let s' := SimulationBump.applyGroundContactForces p dt in
  position s' = vset_y (position s) (radius s) /\ 0 <= vdot (velocity s') n.
Proof.
  intros s n s'. unfold s', SimulationBump.applyGroundContactForces. fold s. cbv zeta.
  cbn [set_position set_velocity set_spin vset_y position velocity spin radius mass
       momentOfInertia vx vy vz].
  fold n.
  assert (Hn := getGroundNormal_dot_self (vx (position s)) (vz (position s))). fold n in Hn.
  assert (La : forall v d n a b c, vdot d n = 0 ->
            vdot (vaddScaled v (vscale (vscale d a) b) c) n = vdot v n).
  { intros v d m a b c H. unfold vdot, vaddScaled, vscale in *. cbn [vx vy vz].
    transitivity (vx v * vx m + vy v * vy m + vz v * vz m +
                  a * b * c * (vx d * vx m + vy d * vy m + vz d * vz m)); [ring |].
    rewrite H. ring. }
  assert (Lb : forall v n f, vdot (vscale v f) n = vdot v n * f).
  { intros v m f. unfold vdot, vscale. cbn [vx vy vz]. ring. }
  assert (Lc : vdot (vaddScaled (velocity s) n (- vdot (velocity s) n)) n = 0).
  { unfold vdot, vaddScaled in *. cbn [vx vy vz].
    transitivity ((vx (velocity s) * vx n + vy (velocity s) * vy n + vz (velocity s) * vz n) *
                  (1 - (vx n * vx n + vy n * vy n + vz n * vz n))); [ring |].
    rewrite Hn. ring. }
  assert (Hexp := exp_pos (-2.0 * dt)).
  destruct (Rltb (vdot (velocity s) n) 0) eqn:E;
  [| apply Rltb_false_le in E];
  split_ifs; cbn [set_position set_velocity set_spin position velocity spin mass radius momentOfInertia];
  (split; [reflexivity |]);
  rewrite ?Lb, ?La by (apply vnormalize_dot_zero, tangential_perp; exact Hn);
  rewrite ?Lc; nra.
Qed.

(** ** JavaScript numbers: arithmetic facts *)

Lemma nadd_NaN_r (x : JS.num) : JS.nadd x JS.NaN = JS.NaN.
Proof. destruct x; reflexivity. Qed.
Lemma nadd_NaN_l (x : JS.num) : JS.nadd JS.NaN x = JS.NaN.
Proof. destruct x; reflexivity. Qed.
Lemma nmul_NaN_r (x : JS.num) : JS.nmul x JS.NaN = JS.NaN.
Proof. destruct x; reflexivity. Qed.
Lemma nmul_NaN_l (x : JS.num) : JS.nmul JS.NaN x = JS.NaN.
Proof. destruct x; reflexivity. Qed.
Lemma ndiv_NaN_l (x : JS.num) : JS.ndiv JS.NaN x = JS.NaN.
Proof. destruct x; reflexivity. Qed.

Lemma vadd_nan_r (a : JS.Vec3) : JS.vadd a JS.nan_vec = JS.nan_vec.
Proof. unfold JS.vadd; cbn; rewrite ?nadd_NaN_r; reflexivity. Qed.
Lemma vaddScaled_nan_l (b : JS.Vec3) (s : JS.num) :
  JS.vaddScaled JS.nan_vec b s = JS.nan_vec.
Proof. unfold JS.vaddScaled; cbn; rewrite ?nadd_NaN_l; reflexivity. Qed.
Lemma vaddScaled_nan_m (a : JS.Vec3) (s : JS.num) :
  JS.vaddScaled a JS.nan_vec s = JS.nan_vec.
Proof. unfold JS.vaddScaled; cbn; rewrite ?nmul_NaN_l, ?nadd_NaN_r; reflexivity. Qed.
Lemma vscale_nan_l (s : JS.num) : JS.vscale JS.nan_vec s = JS.nan_vec.
Proof. unfold JS.vscale; cbn; rewrite ?nmul_NaN_l; reflexivity. Qed.
Lemma vscale_NaN_r (a : JS.Vec3) : JS.vscale a JS.NaN = JS.nan_vec.
Proof. unfold JS.vscale; rewrite !nmul_NaN_r; reflexivity. Qed.

Lemma Reqb_false_neq (a b : R) : Reqb a b = false -> a <> b.
Proof. unfold Reqb. destruct (Req_EM_T a b); congruence. Qed.

Lemma nmul_fin (a b : R) : JS.nmul (JS.Fin a) (JS.Fin b) = JS.Fin (a * b).
Proof. reflexivity. Qed.
Lemma nadd_fin (a b : R) : JS.nadd (JS.Fin a) (JS.Fin b) = JS.Fin (a + b).
Proof. reflexivity. Qed.
Lemma ndiv_fin (a b : R) : b <> 0 -> JS.ndiv (JS.Fin a) (JS.Fin b) = JS.Fin (a / b).
Proof. intros Hb. unfold JS.ndiv. rewrite (Reqb_false _ _ Hb). reflexivity. Qed.
Lemma nlt_fin (a b : R) : JS.nlt (JS.Fin a) (JS.Fin b) = Rltb a b.
Proof. reflexivity. Qed.
Lemma neqb_fin (a b : R) : JS.neqb (JS.Fin a) (JS.Fin b) = Reqb a b.
Proof. reflexivity. Qed.
Lemma nsub_fin (a b : R) : JS.nsub (JS.Fin a) (JS.Fin b) = JS.Fin (a - b).
Proof. reflexivity. Qed.
Lemma nopp_fin (a : R) : JS.nopp (JS.Fin a) = JS.Fin (- a).
Proof. reflexivity. Qed.
Lemma nexp_fin (a : R) : JS.nexp (JS.Fin a) = JS.Fin (exp a).
Proof. reflexivity. Qed.
Lemma npow_fin (a e : R) : 0 < a -> JS.npow (JS.Fin a) e = JS.Fin (Rpower a e).
Proof. intros Ha. unfold JS.npow. rewrite (Rltb_true _ _ Ha). reflexivity. Qed.
Lemma nmax_fin (a b : R) : JS.nmax (JS.Fin a) (JS.Fin b) = JS.Fin (Rmax a b).
Proof.
  unfold JS.nmax, Rmax. cbn. unfold Rltb.
  destruct (Rlt_dec a b), (Rle_dec a b); try reflexivity; f_equal; lra.
Qed.

Ltac fin_arith :=
  repeat first [ rewrite nmul_fin | rewrite nadd_fin | rewrite nsub_fin
               | rewrite nopp_fin | rewrite nexp_fin | rewrite nlt_fin
               | rewrite neqb_fin | rewrite nmax_fin ].

(** Real vectors as JavaScript vectors *)
Lemma vadd_js (a b : Vec3) : JS.vadd (js_vec a) (js_vec b) = js_vec (vadd a b).
Proof. reflexivity. Qed.
Lemma vsub_js (a b : Vec3) : JS.vsub (js_vec a) (js_vec b) = js_vec (vsub a b).
Proof. reflexivity. Qed.
Lemma vscale_js (a : Vec3) (s : R) : JS.vscale (js_vec a) (JS.Fin s) = js_vec (vscale a s).
Proof. reflexivity. Qed.
Lemma vaddScaled_js (a b : Vec3) (s : R) :
  JS.vaddScaled (js_vec a) (js_vec b) (JS.Fin s) = js_vec (vaddScaled a b s).
Proof. reflexivity. Qed.
Lemma vcross_js (a b : Vec3) : JS.vcross (js_vec a) (js_vec b) = js_vec (vcross a b).
Proof. reflexivity. Qed.
Lemma vlengthSq_js (a : Vec3) : JS.vlengthSq (js_vec a) = JS.Fin (vlengthSq a).
Proof. reflexivity. Qed.
Lemma vlength_js (a : Vec3) : JS.vlength (js_vec a) = JS.Fin (vlength a).
Proof.
  unfold JS.vlength. rewrite vlengthSq_js. unfold JS.nsqrt.
  rewrite (Rltb_false _ _ (vlengthSq_nonneg a)). reflexivity.
Qed.
Lemma vy_js (a : Vec3) : JS.vy (js_vec a) = JS.Fin (vy a).
Proof. reflexivity. Qed.
Lemma vlength_nonneg' (a : Vec3) : 0 <= vlength a.
Proof. apply sqrt_pos. Qed.

(** ** The force functions on a full state object agree with the real model *)

Section Refinement.

Variable s : ProjectileState.
Variable e : EnvironmentState.
Hypothesis Hmass : mass s <> 0.
Hypothesis Hradius : 0 < radius s.
Hypothesis Hrho : 0 < airDensity e.

Lemma airDensityAtAltitude_js (a r : R) :
  JS.airDensityAtAltitude (JS.Fin a) (JS.Fin r) = JS.Fin (airDensityAtAltitude a r).
Proof.
  unfold JS.airDensityAtAltitude, airDensityAtAltitude. cbn [JS.nopp].
  rewrite ndiv_fin by (unfold SCALE_HEIGHT; lra). reflexivity.
Qed.

Lemma airViscosity_js :
  JS.airViscosity (JS.Fin SEA_LEVEL_TEMP) = JS.Fin (airViscosity SEA_LEVEL_TEMP).
Proof.
  unfold JS.airViscosity, airViscosity. cbv zeta.
  rewrite ndiv_fin by (unfold SEA_LEVEL_TEMP; qnum; lra).
  rewrite npow_fin by (unfold SEA_LEVEL_TEMP; qnum; apply Rdiv_lt_0_compat; lra).
  fin_arith.
  rewrite ndiv_fin by (unfold SEA_LEVEL_TEMP; qnum; lra). reflexivity.
Qed.

Lemma getDragCoefficient_js (re cd : R) :
  0 < re -> JS.getDragCoefficient (JS.Fin re) (JS.Fin cd) = JS.Fin (getDragCoefficient re cd).
Proof.
  intros Hre. unfold JS.getDragCoefficient, getDragCoefficient. cbv zeta.
  rewrite !nlt_fin.
  destruct (Rltb re 1); [rewrite ndiv_fin by lra; reflexivity |].
  destruct (Rltb re 1000).
  { rewrite npow_fin by lra. fin_arith. rewrite ndiv_fin by lra. fin_arith. reflexivity. }
  destruct (Rltb re 300000); [reflexivity |].
  destruct (Rltb re 500000); fin_arith; [rewrite ndiv_fin by lra; fin_arith |]; reflexivity.
Qed.

Lemma magnusLiftCoefficient_js (x : R) :
  JS.magnusLiftCoefficient (JS.Fin x) = JS.Fin (magnusLiftCoefficient x).
Proof.
  unfold JS.magnusLiftCoefficient, magnusLiftCoefficient.
  rewrite !nlt_fin.
  destruct (Rltb x 0.1); [fin_arith; rewrite ndiv_fin by (qnum; lra); reflexivity |].
  destruct (Rltb x 0.5); [reflexivity |].
  fin_arith. rewrite ndiv_fin by (qnum; lra). fin_arith. reflexivity.
Qed.

Ltac obj_proj :=
  cbn [JS.ovelocity JS.oposition JS.ospin JS.oradius JS.omass JS.oarea JS.odragCoefficient
       JS.as_object js_state js_env JS.windVector JS.airDensity JS.gravity JS.to_number
       JS.position JS.velocity JS.spin JS.mass JS.area JS.dragCoefficient JS.radius].

Lemma gravityForce_js :
  JS.gravityForce (JS.as_object (js_state s)) (js_env e) = js_vec (gravityForce s e).
Proof. reflexivity. Qed.

Lemma dragForce_js :
  JS.dragForce (JS.as_object (js_state s)) (js_env e) = js_vec (dragForce s e).
Proof.
  unfold JS.dragForce, dragForce. cbv zeta. obj_proj.
  rewrite vsub_js, vlength_js, neqb_fin.
  destruct (Reqb (vlength (vsub (velocity s) (windVector e))) 0) eqn:Hsp; [reflexivity |].
  apply Reqb_false_neq in Hsp.
  assert (Hsp' : 0 < vlength (vsub (velocity s) (windVector e))).
  { pose proof (vlength_nonneg' (vsub (velocity s) (windVector e))). lra. }
  rewrite vy_js. fin_arith. rewrite airDensityAtAltitude_js.
  rewrite airViscosity_js. fin_arith. unfold JS.reynoldsNumber. fin_arith.
  pose proof airViscosity_pos as Hmu.
  assert (Hrho' : 0 < airDensityAtAltitude (Rmax 0 (vy (position s))) (airDensity e)).
  { unfold airDensityAtAltitude. apply Rmult_lt_0_compat; [lra | apply exp_pos]. }
  rewrite ndiv_fin by lra.
  rewrite getDragCoefficient_js.
  2:{ apply Rdiv_lt_0_compat; [| lra].
      apply Rmult_lt_0_compat; [apply Rmult_lt_0_compat |]; lra. }
  fin_arith. rewrite ndiv_fin by exact Hmass. fin_arith.
  rewrite vscale_js. reflexivity.
Qed.

Lemma magnusForce_js :
  JS.magnusForce (JS.as_object (js_state s)) (js_env e) = js_vec (magnusForce s e).
Proof.
  unfold JS.magnusForce, magnusForce. cbv zeta. obj_proj.
  rewrite vsub_js, !vlengthSq_js, !neqb_fin.
  match goal with |- (if ?b then _ else _) = _ => destruct b; [reflexivity |] end.
  rewrite !vlength_js, vy_js. fin_arith. rewrite airDensityAtAltitude_js.
  pose proof (vlength_nonneg' (vsub (velocity s) (windVector e))).
  rewrite ndiv_fin by (qnum; lra).
  rewrite magnusLiftCoefficient_js. fin_arith. rewrite vcross_js.
  rewrite ndiv_fin by exact Hmass. rewrite vscale_js. reflexivity.
Qed.

(** On a full state object, the JavaScript acceleration is the real one. *)
Lemma totalAcceleration_js :
  JS.totalAcceleration (JS.as_object (js_state s)) (js_env e) = js_vec (totalAcceleration s e).
Proof.
  unfold JS.totalAcceleration, totalAcceleration. cbv zeta.
  rewrite gravityForce_js, dragForce_js, magnusForce_js. obj_proj.
  rewrite ndiv_fin by exact Hmass. rewrite vscale_js.
  change JS.vzero with (js_vec vzero). rewrite !vadd_js. reflexivity.
Qed.

End Refinement.

(** ** [NaN] on the clones of [cloneState] *)

Lemma vadd_nan_l (b : JS.Vec3) : JS.vadd JS.nan_vec b = JS.nan_vec.
Proof. reflexivity. Qed.
Lemma vsub_nan_l (b : JS.Vec3) : JS.vsub JS.nan_vec b = JS.nan_vec.
Proof. reflexivity. Qed.
Lemma vcross_nan_r (a : JS.Vec3) : JS.vcross a JS.nan_vec = JS.nan_vec.
Proof. unfold JS.vcross. cbn [JS.vx JS.vy JS.vz JS.nan_vec]. rewrite !nmul_NaN_r. reflexivity. Qed.

(** A clone has no [radius]: the spin ratio is [NaN], and so is the lift. *)
Lemma magnusForce_no_radius (o : JS.StateObject) (env : JS.EnvironmentState) :
  JS.oradius o = None ->
  JS.neqb (JS.vlengthSq (JS.vsub (JS.ovelocity o) (JS.windVector env))) (JS.Fin 0) = false ->
  JS.neqb (JS.vlengthSq (JS.ospin o)) (JS.Fin 0) = false ->
  JS.magnusForce o env = JS.nan_vec.
Proof.
  intros Hr H1 H2. unfold JS.magnusForce. cbv zeta. rewrite H1, H2. cbn [orb].
  rewrite Hr. cbn [JS.to_number]. rewrite nmul_NaN_l, ndiv_NaN_l.
  change (JS.magnusLiftCoefficient JS.NaN) with JS.NaN.
  rewrite nmul_NaN_r, nmul_NaN_l, ndiv_NaN_l. apply vscale_NaN_r.
Qed.

(** A [NaN] velocity gives a [NaN] lift whenever the projectile spins. *)
Lemma magnusForce_nan_velocity (o : JS.StateObject) (env : JS.EnvironmentState) :
  JS.ovelocity o = JS.nan_vec ->
  JS.neqb (JS.vlengthSq (JS.ospin o)) (JS.Fin 0) = false ->
  JS.magnusForce o env = JS.nan_vec.
Proof.
  intros Hv H2. unfold JS.magnusForce. cbv zeta. rewrite Hv, vsub_nan_l, H2.
  change (JS.neqb (JS.vlengthSq JS.nan_vec) (JS.Fin 0)) with false. cbn [orb].
  rewrite vcross_nan_r. apply vscale_nan_l.
Qed.

Lemma totalAcceleration_nan (o : JS.StateObject) (env : JS.EnvironmentState) :
  JS.magnusForce o env = JS.nan_vec -> JS.totalAcceleration o env = JS.nan_vec.
Proof. intros H. unfold JS.totalAcceleration. rewrite H. apply vadd_nan_r. Qed.

(** The code's RK4 step on a spinning projectile: the second stage runs on a
    clone without [radius], its acceleration is [NaN], and the [NaN] reaches
    the velocity and the position of the state. *)
Lemma rk4Integrate_spinning_nan (s : ProjectileState) (e : EnvironmentState) (dt : R) :
  mass s <> 0 -> 0 < radius s -> 0 < airDensity e ->
  vlengthSq (spin s) <> 0 ->
  vlengthSq (vsub (vaddScaled (velocity s) (totalAcceleration s e) (dt * 0.5)) (windVector e)) <> 0 ->
  JS.velocity (JS.rk4Integrate (js_state s) (js_env e) (JS.Fin dt) JS.totalAcceleration) = JS.nan_vec /\
  JS.position (JS.rk4Integrate (js_state s) (js_env e) (JS.Fin dt) JS.totalAcceleration) = JS.nan_vec.
Proof.
  intros Hm Hr Hrho Hspin Hrel. unfold JS.rk4Integrate. cbv zeta.
  rewrite totalAcceleration_js by assumption.
  match goal with
  | |- context [JS.totalAcceleration
                  (JS.set_ovelocity (JS.set_oposition (JS.cloneState (js_state s)) ?x) ?v) ?env] =>
      rewrite (totalAcceleration_nan
                 (JS.set_ovelocity (JS.set_oposition (JS.cloneState (js_state s)) x) v) env)
  end.
  2:{ apply magnusForce_no_radius; [reflexivity | |].
      - cbn [JS.ovelocity JS.set_ovelocity JS.set_oposition JS.cloneState js_state js_env
             JS.windVector JS.velocity].
        rewrite nmul_fin, vaddScaled_js, vsub_js, vlengthSq_js, neqb_fin.
        apply Reqb_false. exact Hrel.
      - cbn [JS.ospin JS.set_ovelocity JS.set_oposition JS.cloneState js_state JS.spin].
        rewrite vlengthSq_js, neqb_fin. apply Reqb_false. exact Hspin. }
  cbn [JS.velocity JS.position JS.set_position JS.set_velocity JS.ovelocity
       JS.set_ovelocity JS.set_oposition].
  rewrite ?vaddScaled_nan_m, ?vaddScaled_nan_l, ?vadd_nan_l, ?vscale_nan_l, ?vadd_nan_r.
  split; reflexivity.
Qed.

Lemma rk4_stage_js (s : ProjectileState) (x v : Vec3) :
  JS.rk4_stage (js_state s) (js_vec x) (js_vec v) =
  JS.as_object (js_state (set_velocity (set_position s x) v)).
Proof. reflexivity. Qed.
Lemma set_velocity_js (s : ProjectileState) (v : Vec3) :
  JS.set_velocity (js_state s) (js_vec v) = js_state (set_velocity s v).
Proof. reflexivity. Qed.
Lemma set_position_js (s : ProjectileState) (x : Vec3) :
  JS.set_position (js_state s) (js_vec x) = js_state (set_position s x).
Proof. reflexivity. Qed.

(** The classical step of [JS.rk4_classical] keeps every value finite. *)
Lemma rk4_classical_finite (s : ProjectileState) (e : EnvironmentState) (dt : R) :
  mass s <> 0 -> 0 < radius s -> 0 < airDensity e ->
  exists s', JS.rk4_classical (js_state s) (js_env e) (JS.Fin dt) JS.totalAcceleration = js_state s'.
Proof.
  intros Hm Hr Hrho. unfold JS.rk4_classical. cbv zeta.
  cbn [JS.position JS.velocity js_state].
  rewrite totalAcceleration_js by assumption. rewrite nmul_fin.
  repeat (rewrite ?vaddScaled_js, rk4_stage_js;
          rewrite totalAcceleration_js by first [exact Hm | exact Hr | exact Hrho]).
  rewrite ndiv_fin by lra.
  repeat first [rewrite vaddScaled_js | rewrite vadd_js | rewrite vscale_js].
  rewrite set_velocity_js, set_position_js. eexists; reflexivity.
Qed.

(** In still air, a projectile moving with the wind feels gravity only. *)
Lemma totalAcceleration_with_wind (s : ProjectileState) (e : EnvironmentState) :
  mass s <> 0 -> velocity s = windVector e ->
  totalAcceleration s e = mkVec3 0 (- gravity e) 0.
Proof.
  intros Hm Hv. unfold totalAcceleration, dragForce, magnusForce, gravityForce. cbv zeta.
  rewrite Hv.
  assert (H0 : vlengthSq (vsub (windVector e) (windVector e)) = 0).
  { unfold vlengthSq, vsub; cbn [vx vy vz]; ring. }
  assert (H1 : vlength (vsub (windVector e) (windVector e)) = 0).
  { unfold vlength. rewrite H0. apply sqrt_0. }
  rewrite H1, H0, (Reqb_true 0 0 eq_refl). cbn [orb].
  unfold vadd, vscale, vzero; cbn [vx vy vz]. f_equal; field; exact Hm.
Qed.

Lemma nle_NaN_l (x : JS.num) : JS.nle JS.NaN x = false.
Proof. destruct x; reflexivity. Qed.
Lemma nle_NaN_r (x : JS.num) : JS.nle x JS.NaN = false.
Proof. destruct x as [| [] |]; reflexivity. Qed.
Lemma nlt_NaN_l (x : JS.num) : JS.nlt JS.NaN x = false.
Proof. destruct x; reflexivity. Qed.

Lemma position_after_rk4 (s : JS.ProjectileState) (e : JS.EnvironmentState) (dt : JS.num) :
  JS.position (JS.integrateRotation (JS.integrateSpin (JS.applyAeroTorque s e dt) dt) dt) =
  JS.position s.
Proof.
  assert (Hspin : forall t d, JS.position (JS.integrateSpin t d) = JS.position t).
  { intros t d. unfold JS.integrateSpin. destruct (JS.neqb _ _); reflexivity. }
  assert (Hrot : forall t d, JS.position (JS.integrateRotation t d) = JS.position t).
  { intros t d. unfold JS.integrateRotation. destruct (JS.neqb _ _); reflexivity. }
  rewrite Hrot, Hspin. reflexivity.
Qed.

Lemma clampToGround_NaN (s : JS.ProjectileState) :
  JS.vy (JS.position s) = JS.NaN -> JS.clampToGround s = s.
Proof. intros H. unfold JS.clampToGround. rewrite H, nlt_NaN_l. reflexivity. Qed.

Lemma telemetry_pstate (p : JS.ProjectileInstance) :
  JS.pstate (JS.SimulationFlat.telemetry p) = JS.pstate p.
Proof. unfold JS.SimulationFlat.telemetry. destruct (JS.nle _ _); reflexivity. Qed.

Lemma nle_fin_false (a b : R) : b < a -> JS.nle (JS.Fin a) (JS.Fin b) = false.
Proof.
  intros H. unfold JS.nle. rewrite nlt_fin, neqb_fin, Rltb_false, Reqb_false by lra.
  reflexivity.
Qed.
Lemma position_js (s : ProjectileState) : JS.position (js_state s) = js_vec (position s).
Proof. reflexivity. Qed.
Lemma radius_js (s : ProjectileState) : JS.radius (js_state s) = JS.Fin (radius s).
Proof. reflexivity. Qed.

(** One flat-engine step of an airborne spinning projectile after its
    impulse phase: the position is [NaN] once the step is over. *)
Lemma integrateProjectile_rk4_nan (p : JS.ProjectileInstance) (s : ProjectileState)
    (e : EnvironmentState) (d : R) :
  JS.active p = true -> JS.pstate p = js_state s -> JS.penvironment p = js_env e ->
  JS.nle (JS.nadd (JS.elapsed p) (JS.Fin d)) (JS.duration (JS.profile (JS.params p))) = false ->
  GROUND_CONTACT_TOLERANCE < vy (position s) - radius s ->
  mass s <> 0 -> 0 < radius s -> 0 < airDensity e -> vlengthSq (spin s) <> 0 ->
  vlengthSq (vsub (vaddScaled (velocity s) (totalAcceleration s e) (d * 0.5)) (windVector e)) <> 0 ->
  JS.position (JS.pstate (JS.SimulationFlat.integrateProjectile p (JS.Fin d))) = JS.nan_vec.
Proof.
  intros Ha Hs He Hph Hg Hm Hr Hrho Hsp Hrel.
  destruct (rk4Integrate_spinning_nan s e d Hm Hr Hrho Hsp Hrel) as [_ Hpos].
  unfold JS.SimulationFlat.integrateProjectile. rewrite Ha. cbn [negb]. cbv zeta.
  match goal with |- context [JS.with_clocks p ?a ?b] =>
    set (p1 := JS.with_clocks p a b) end.
  assert (E1 : JS.pstate p1 = js_state s) by exact Hs.
  assert (E2 : JS.penvironment p1 = js_env e) by exact He.
  assert (E3 : JS.nle (JS.elapsed p1) (JS.duration (JS.profile (JS.params p1))) = false)
    by exact Hph.
  rewrite E3.
  match goal with |- context [JS.with_grounded p1 ?g] =>
    set (p2 := JS.with_grounded p1 g) end.
  assert (E4 : JS.isGrounded p2 = false).
  { unfold p2, JS.with_grounded. cbn [JS.isGrounded]. rewrite E1.
    rewrite position_js, radius_js, vy_js, nsub_fin. apply nle_fin_false. exact Hg. }
  assert (E5 : JS.pstate p2 = js_state s) by exact Hs.
  assert (E6 : JS.penvironment p2 = js_env e) by exact He.
  rewrite E4. cbn [andb]. rewrite E5, E6.
  set (r := JS.rk4Integrate (js_state s) (js_env e) (JS.Fin d) JS.totalAcceleration) in *.
  set (s1 := JS.integrateRotation (JS.integrateSpin (JS.applyAeroTorque r (js_env e) (JS.Fin d))
                                     (JS.Fin d)) (JS.Fin d)).
  assert (Hs1 : JS.position s1 = JS.nan_vec).
  { unfold s1. rewrite position_after_rk4. exact Hpos. }
  rewrite (clampToGround_NaN s1) by (rewrite Hs1; reflexivity).
  rewrite Hs1. change (JS.vy JS.nan_vec) with JS.NaN. rewrite nle_NaN_l. cbn [andb].
  rewrite telemetry_pstate. exact Hs1.
Qed.

(** The spinning ball in still air meets the hypotheses of the RK4 lemmas. *)
Lemma spinning_ball_conditions :
  mass spinning_ball <> 0 /\ 0 < radius spinning_ball /\ 0 < airDensity still_air /\
  vlengthSq (spin spinning_ball) <> 0 /\
  vlengthSq (vsub (vaddScaled (velocity spinning_ball)
                    (totalAcceleration spinning_ball still_air) (0.01 * 0.5))
               (windVector still_air)) <> 0.
Proof.
  rewrite (totalAcceleration_with_wind spinning_ball still_air)
    by (unfold spinning_ball, still_air; cbn; first [reflexivity | lra]).
  unfold spinning_ball, still_air, vlengthSq, vsub, vaddScaled; cbn; qnum.
  repeat split; lra.
Qed.

(** ** C2: the RK4 step of the code is not the classical one *)

(** C2 (code bug).  [cloneState] copies eight properties, and the stages
    k2 to k4 evaluate [totalAcceleration] on that clone, which has no
    [radius].  For a spinning projectile whose second-stage velocity
    differs from the wind, the spin ratio of [magnusForce] is [NaN], and
    [rk4Integrate] leaves a [NaN] velocity and a [NaN] position.  The
    classical RK4 step of the specification, whose stages see the full
    state, stays finite.  So the two steps differ. *)
Theorem rk4Integrate_spinning_not_classical (s : ProjectileState) (e : EnvironmentState) (dt : R) :
  mass s <> 0 -> 0 < radius s -> 0 < airDensity e ->
  vlengthSq (spin s) <> 0 ->
  vlengthSq (vsub (vaddScaled (velocity s) (totalAcceleration s e) (dt * 0.5)) (windVector e)) <> 0 ->
  let code := JS.rk4Integrate (js_state s) (js_env e) (JS.Fin dt) JS.totalAcceleration in
  let classical := JS.rk4_classical (js_state s) (js_env e) (JS.Fin dt) JS.totalAcceleration in
  JS.velocity code = JS.nan_vec /\ JS.position code = JS.nan_vec /\
  (exists s', classical = js_state s') /\ code <> classical.
Proof.
  intros Hm Hr Hrho Hsp Hrel code classical.
  destruct (rk4Integrate_spinning_nan s e dt Hm Hr Hrho Hsp Hrel) as [Hv Hp].
  destruct (rk4_classical_finite s e dt Hm Hr Hrho) as [s' Hs'].
  fold code in Hv, Hp. fold classical in Hs'.
  split; [exact Hv | split; [exact Hp | split; [exists s'; exact Hs' |]]].
  intros Heq. rewrite Heq, Hs' in Hv. cbn in Hv. discriminate Hv.
Qed.

Lemma rk4Integrate_spinning_not_classical_witness :
  let code := JS.rk4Integrate (js_state spinning_ball) (js_env still_air) (JS.Fin 0.01)
                JS.totalAcceleration in
  let classical := JS.rk4_classical (js_state spinning_ball) (js_env still_air) (JS.Fin 0.01)
                     JS.totalAcceleration in
  JS.velocity code = JS.nan_vec /\ JS.position code = JS.nan_vec /\
  (exists s', classical = js_state s') /\ code <> classical.
Proof.
  destruct spinning_ball_conditions as [H1 [H2 [H3 [H4 H5]]]].
  exact (rk4Integrate_spinning_not_classical spinning_ball still_air 0.01 H1 H2 H3 H4 H5).
Defined.

(** ** C10: the ground clamp does not hold a [NaN] position *)

(** C10 (code bug).  One flat-engine step of a spinning ball at rest ten
    metres above the ground, after its impulse phase: [rk4Integrate]
    makes the position [NaN] (see C2), the clamp [y < radius] is false on
    [NaN], no collision branch runs, and the step ends with
    [position.y >= radius] false. *)
Theorem integrateProjectile_spinning_nan_position :
  let p' := JS.SimulationFlat.integrateProjectile spinning_launch (JS.Fin 0.01) in
  JS.vy (JS.position (JS.pstate p')) = JS.NaN /\
  JS.nle (JS.radius (JS.pstate p')) (JS.vy (JS.position (JS.pstate p'))) = false.
Proof.
  intros p'.
  destruct spinning_ball_conditions as [H1 [H2 [H3 [H4 H5]]]].
  assert (H : JS.position (JS.pstate p') = JS.nan_vec).
  { apply (integrateProjectile_rk4_nan spinning_launch spinning_ball still_air 0.01);
      try reflexivity; try assumption.
    - change (JS.nle (JS.nadd (JS.Fin 1) (JS.Fin 0.01)) (JS.Fin 0.06) = false).
      rewrite nadd_fin. apply nle_fin_false. qnum. lra.
    - unfold GROUND_CONTACT_TOLERANCE, spinning_ball. cbn. qnum. lra. }
  rewrite H. split; [reflexivity | apply nle_NaN_r].
Qed.
